(** * Music Bingo: the ticket generator of [musicbingo/generator.py]

    A shallow embedding of [GameGenerator] and of the claims made about it:
    option checking, [combinations], the ticket composer
    ([select_songs_for_ticket]), the win-point calculator
    ([get_when_ticket_wins]), the targeted generator ([generate_at_point]),
    the distribution scheduler ([generate_all_cards], [insert_random_cards])
    and the page sequencer ([sort_cards_by_page]).

    Conventions.
    - A Python [int] is a [Z]; a Python [set] of ints is a [gset Z]; a Python
      [list] is a [list].
    - A Python [float] is the rational number it denotes, and every float
      operation returns the exact result rounded to the nearest binary64
      number, ties to even ([Py.binary64]): the products by [0.65] of the
      tier counts, [number_of_cards / 3], [1.5 * songs_per_ticket + 0.5],
      the running sums of the insertion windows, the quotient of factorials
      in [combinations].  The upper limit of the exponent is modelled where
      the program reaches it, in [combinations] (the [OverflowError] of
      [int / int]); numbers of tickets and of songs per ticket are taken to
      be below [2^1024].
    - [secrets.randbelow] and [random.shuffle] draw from two entropy supplies
      carried in the generator state; a run that needs more draws than were
      supplied ends in [Starved]. *)

From Stdlib Require Import ZArith QArith Qround Qabs Qpower Lia Lqa.
From stdpp Require Import base decidable option list gmap strings.

Local Open Scope Z_scope.

(** ** Python run-time: exceptions and outcomes *)

(** The messages of the [ValueError]s raised in [generator.py] and by the
    library functions it calls. *)
Inductive value_error : Type :=
  | SongListEmpty                        (* "Song list cannot be empty" *)
  | QuizTooManySongs (max_songs : Z)     (* "Maximum number of songs for a quiz is .." *)
  | InvalidMode                          (* "Invalid mode .." *)
  | GameIdEmpty                          (* "Game ID cannot be empty" *)
  | TooFewSongs (min_songs : Z)          (* "At least .. songs are required" *)
  | TooManySongs (max_songs : Z)         (* "Maximum number of songs is .." *)
  | TooFewTickets (min_cards : Z)        (* "At least .. tickets are required" *)
  | TooManyTickets (num_songs max_cards : Z) (* ".. songs only allows .. cards" *)
  | TicketNeverWins (missing : gset Z)   (* "ticket never wins, missing .." *)
  | RandbelowNotPositive                 (* secrets.randbelow(n), n <= 0 *)
  | FactorialNegative.                   (* math.factorial(n), n < 0 *)

Inductive exn : Type :=
  | ValueError (msg : value_error)
  | KeyError (key : Z)
  | IndexError
  | ZeroDivisionError
  | OverflowError.

(** The result of running a piece of the program: it returns, it raises, or
    the entropy supplied to the run is used up before the run ends. *)
Inductive outcome (A : Type) : Type :=
  | Done (a : A)
  | Raise (e : exn)
  | Starved.
Arguments Done {A} a.
Arguments Raise {A} e.
Arguments Starved {A}.

Definition raises {A : Type} (o : outcome A) : Prop := exists e, o = Raise e.

Definition obind {A B : Type} (o : outcome A) (k : A -> outcome B) : outcome B :=
  match o with
  | Done a => k a
  | Raise e => Raise e
  | Starved => Starved
  end.

(** ** Python run-time: numbers *)

Module Py.

(** [int(x)] of a float: truncation towards zero. *)
Definition int (x : Q) : Z := Z.quot (Qnum x) (Z.pos (Qden x)).

(** [math.ceil] and [math.floor]. *)
Definition ceil (x : Q) : Z := Qceiling x.
Definition floor (x : Q) : Z := Qfloor x.

(** [round(x)] of Python 3: to the nearest integer, ties to the even one. *)
Definition round (x : Q) : Z :=
  let f := Qfloor x in
  match Qcompare (x - inject_Z f) (1 # 2) with
  | Lt => f
  | Gt => f + 1
  | Eq => if Z.even f then f else f + 1
  end.

(** [floor (log2 x)] of a positive rational. *)
Definition ilog2 (x : Q) : Z :=
  let e := Z.log2 (Qnum x) - Z.log2 (Z.pos (Qden x)) in
  if Qle_bool (2 ^ e) x then e else e - 1.

(** The binary64 number nearest to [x], ties to even: 53 significant bits,
    or a multiple of [2^-1074] in the subnormal range.  (No upper limit
    here: callers test the result against [2^1024].) *)
Definition binary64 (x : Q) : Q :=
  if Qeq_bool x 0 then 0%Q
  else
    let k := Z.max (ilog2 (Qabs x) - 52) (-1074) in
    (inject_Z (round (x / 2 ^ k)) * 2 ^ k)%Q.

(** [float(n)], also of an int operand of a float operation, and the four
    operations on floats: the exact result, rounded. *)
Definition float (n : Z) : Q := binary64 (inject_Z n).
Definition fadd (x y : Q) : Q := binary64 (x + y).
Definition fsub (x y : Q) : Q := binary64 (x - y).
Definition fmul (x y : Q) : Q := binary64 (x * y).
Definition fdiv (x y : Q) : Q := binary64 (x / y).

(** [a / b] on two ints: the correctly rounded quotient, as CPython
    computes it whatever the size of [a] and [b]. *)
Definition truediv (a b : Z) : Q := binary64 (inject_Z a / inject_Z b).

Definition int_truediv (a b : Z) : outcome Q :=
  if b =? 0 then Raise ZeroDivisionError
  else
    let q := truediv a b in
    if Qle_bool (2 ^ 1024) (Qabs q) then Raise OverflowError else Done q.

(** [math.factorial]. *)
Fixpoint fact (n : nat) : Z :=
  match n with
  | O => 1
  | S n' => Z.of_nat n * fact n'
  end.

Definition factorial (n : Z) : outcome Z :=
  if n <? 0 then Raise (ValueError FactorialNegative)
  else Done (fact (Z.to_nat n)).

(** An index of [l.insert] or of a slice, brought into [0 .. n]: a negative
    index counts from the end, and an index beyond either end is clamped. *)
Definition clamp_index (n i : Z) : nat :=
  Z.to_nat (if i <? 0 then Z.max 0 (n + i) else Z.min i n).

(** [l.insert(i, x)]. *)
Definition insert {A : Type} (i : Z) (x : A) (l : list A) : list A :=
  let j := clamp_index (Z.of_nat (length l)) i in
  take j l ++ x :: drop j l.

(** [l[i:j]]. *)
Definition slice {A : Type} (i j : Z) (l : list A) : list A :=
  let n := Z.of_nat (length l) in
  let a := clamp_index n i in
  let b := clamp_index n j in
  take (b - a) (drop a l).

End Py.

Notation "'let?' x := c 'in' k" := (obind c (fun x => k))
  (at level 10, x name, c at level 100, k at level 200, only parsing).

(** ** The data model *)

(** [musicbingo.song.Song], as far as the generator reads it: the stable
    reference identity, the prime assigned by [assign_song_ids], and a
    descriptive field. *)
Record Song : Type := {
  ref_id : Z;
  song_id : Z;
  title : string;
}.

(** [BingoTicket]: the ticket key [card_id], the songs, and the number given
    to the ticket when the game is laid out. *)
Record BingoTicket : Type := {
  card_id : Z;
  card_tracks : list Song;
  ticket_number : option Z;
}.

(** [musicbingo.options.GameMode] and the part of [Options] that the
    generator reads; [songs_per_ticket] is the value of the method
    [Options.songs_per_ticket()]. *)
Inductive GameMode : Type := BINGO | QUIZ | CLIP.

Record Options : Type := {
  mode : GameMode;
  game_id : string;
  number_of_cards : Z;
  songs_per_ticket : Z;
  page_order : bool;
}.

#[global] Instance GameMode_eq_dec : EqDecision GameMode.
Proof. solve_decision. Defined.

(** The ref_ids of a list of songs, in order. *)
Definition ref_ids (songs : list Song) : list Z := ref_id <$> songs.

(** ** [GameGenerator.combinations] *)

Definition combinations (total select : Z) : outcome Z :=
  if select >? total then Done 0
  else
    let? ft := Py.factorial total in
    let? fs := Py.factorial select in
    let? fd := Py.factorial (total - select) in
    let? q := Py.int_truediv ft (fs * fd) in
    Done (Py.int q).

(** ** [GameGenerator.check_options] *)

Section CheckOptions.

(** [len(PRIME_NUMBERS)] from [musicbingo.primes] and
    [len(Assets.QUIZ_COUNTDOWN_POSITIONS)] from [musicbingo.assets]: the
    two tables are not part of the generator. *)
Variable PRIME_NUMBERS : list Z.
Variable QUIZ_COUNTDOWN_POSITIONS : gmap string (Z * Z).

Definition MIN_CARDS : Z := 15.
Definition MIN_SONGS : Z := 17.
Definition MAX_SONGS : Z := Z.of_nat (length PRIME_NUMBERS).

(** [int(round(1.5 * options.songs_per_ticket() + 0.5))] *)
Definition min_songs (options : Options) : Z :=
  Py.round (Py.fadd (Py.fmul (3 # 2) (Py.float (songs_per_ticket options))) (1 # 2)).

Definition check_options (options : Options) (songs : list Song) : outcome unit :=
  let num_songs := Z.of_nat (length songs) in
  if num_songs =? 0 then Raise (ValueError SongListEmpty)
  else if decide (mode options = QUIZ) then
    let max_songs := Z.of_nat (size QUIZ_COUNTDOWN_POSITIONS) in
    if num_songs >? max_songs then Raise (ValueError (QuizTooManySongs max_songs))
    else Done tt
  else if decide (mode options <> BINGO) then Raise (ValueError InvalidMode)
  else if decide (game_id options = "") then Raise (ValueError GameIdEmpty)
  else if num_songs <? min_songs options then
    Raise (ValueError (TooFewSongs (min_songs options)))
  else if num_songs >? MAX_SONGS then Raise (ValueError (TooManySongs MAX_SONGS))
  else if number_of_cards options <? MIN_CARDS then
    Raise (ValueError (TooFewTickets MIN_CARDS))
  else
    let? max_cards := combinations num_songs (songs_per_ticket options) in
    if number_of_cards options >? max_cards then
      Raise (ValueError (TooManyTickets num_songs max_cards))
    else Done tt.

End CheckOptions.

(** ** [GameGenerator.get_when_ticket_wins] *)

(** The variables of the scan: [last_song], the pending set
    [card_track_ids], and the number of entries of the play order that the
    loop has visited. *)
Record scan : Type := {
  last_song : Z;
  card_track_ids : gset Z;
  visited : nat;
}.

(** The [for count, song in enumerate(tracks, start=1)] loop, from entry
    number [count] on. *)
Fixpoint scan_tracks (tracks : list Song) (count : Z) (st : scan) : scan :=
  match tracks with
  | [] => st
  | song :: rest =>
      let st1 :=
        if decide (ref_id song ∈ card_track_ids st) then
          {| last_song := count;
             card_track_ids := card_track_ids st ∖ {[ ref_id song ]};
             visited := S (visited st) |}
        else
          {| last_song := last_song st;
             card_track_ids := card_track_ids st;
             visited := S (visited st) |} in
      if decide (card_track_ids st1 = ∅) then st1   (* break *)
      else scan_tracks rest (count + 1) st1
  end.

Definition scan_ticket (tracks : list Song) (ticket : BingoTicket) : scan :=
  scan_tracks tracks 1
    {| last_song := -1;
       card_track_ids := list_to_set (ref_ids (card_tracks ticket));
       visited := 0 |}.

Definition get_when_ticket_wins (tracks : list Song) (ticket : BingoTicket) : outcome Z :=
  let st := scan_ticket tracks ticket in
  if decide (card_track_ids st = ∅) then Done (last_song st)
  else Raise (ValueError (TicketNeverWins (card_track_ids st))).

(** ** [GameGenerator.sort_cards_by_page] *)

(** The [while len(first_third) > 0] loop: one ticket from the first band,
    then one from the second and one from the third while they last. *)
Fixpoint interleave {A : Type} (first_third second_third third_third : list A) : list A :=
  match first_third with
  | [] => []
  | c1 :: first_third' =>
      c1 ::
      match second_third, third_third with
      | [], [] => interleave first_third' [] []
      | c2 :: second_third', [] => c2 :: interleave first_third' second_third' []
      | [], c3 :: third_third' => c3 :: interleave first_third' [] third_third'
      | c2 :: second_third', c3 :: third_third' =>
          c2 :: c3 :: interleave first_third' second_third' third_third'
      end
  end.

Definition sort_cards_by_page (options : Options) (cards : list BingoTicket)
  : list BingoTicket :=
  let third := Py.truediv (number_of_cards options) 3 in
  let noc3c := Py.ceil third in
  let noc3f := Py.floor third in
  let first_third := Py.slice 0 noc3c cards in
  let second_third := Py.slice noc3c (noc3c + noc3f) cards in
  let third_third := Py.slice (noc3c + noc3f) (Z.of_nat (length cards)) cards in
  interleave first_third second_third third_third.

(** ** The generator state and its monad *)

(** The part of a [GameGenerator] that the generation methods change: the
    used-key set [used_card_ids], together with the entropy that
    [secrets.randbelow] and the [random] module will deliver during the run
    (each entry is reduced modulo the bound of the call that consumes it). *)
Record GameGenerator : Type := {
  used_card_ids : gset Z;
  secrets_entropy : list Z;
  random_entropy : list Z;
}.

Definition Gen (A : Type) : Type := GameGenerator -> outcome (A * GameGenerator).

Definition ret {A : Type} (a : A) : Gen A := fun g => Done (a, g).

Definition bind {A B : Type} (c : Gen A) (k : A -> Gen B) : Gen B :=
  fun g =>
    match c g with
    | Done (a, g') => k a g'
    | Raise e => Raise e
    | Starved => Starved
    end.

Definition raise {A : Type} (e : exn) : Gen A := fun _ => Raise e.

Definition starve {A : Type} : Gen A := fun _ => Starved.

(** A computation that does not touch the generator. *)
Definition lift {A : Type} (o : outcome A) : Gen A :=
  fun g => obind o (fun a => Done (a, g)).

Notation "'let!' x := c 'in' k" := (bind c (fun x => k))
  (at level 10, x name, c at level 100, k at level 200, only parsing).

(** [self.used_card_ids.clear()], [.add(key)], [.remove(key)] and a read. *)
Definition clear_used : Gen unit :=
  fun g => Done (tt, {| used_card_ids := ∅;
                        secrets_entropy := secrets_entropy g;
                        random_entropy := random_entropy g |}).

Definition add_used (key : Z) : Gen unit :=
  fun g => Done (tt, {| used_card_ids := used_card_ids g ∪ {[ key ]};
                        secrets_entropy := secrets_entropy g;
                        random_entropy := random_entropy g |}).

Definition remove_used (key : Z) : Gen unit :=
  fun g =>
    if decide (key ∈ used_card_ids g) then
      Done (tt, {| used_card_ids := used_card_ids g ∖ {[ key ]};
                   secrets_entropy := secrets_entropy g;
                   random_entropy := random_entropy g |})
    else Raise (KeyError key).

Definition get_used : Gen (gset Z) := fun g => Done (used_card_ids g, g).

(** [secrets.randbelow(n)] *)
Definition randbelow (n : Z) : Gen Z :=
  fun g =>
    if n <=? 0 then Raise (ValueError RandbelowNotPositive)
    else
      match secrets_entropy g with
      | [] => Starved
      | r :: rest =>
          Done (r mod n, {| used_card_ids := used_card_ids g;
                            secrets_entropy := rest;
                            random_entropy := random_entropy g |})
      end.

(** The [_randbelow(n)] of the [random] module, for [n > 0]. *)
Definition random_randbelow (n : Z) : Gen Z :=
  fun g =>
    match random_entropy g with
    | [] => Starved
    | r :: rest =>
        Done (r mod n, {| used_card_ids := used_card_ids g;
                          secrets_entropy := secrets_entropy g;
                          random_entropy := rest |})
    end.

(** Every loop that waits for a lucky draw consumes at least one entry of
    [secrets_entropy] per iteration, so the supply that is left bounds the
    number of iterations. *)
Definition with_fuel {A : Type} (loop : nat -> Gen A) : Gen A :=
  fun g => loop (S (length (secrets_entropy g))) g.

(** [GameGenerator.randrange(start, end)] *)
Definition randrange (start stop : Z) : Gen Z :=
  let! r := randbelow (stop - start) in ret (start + r).

(** [x[i], x[j] = x[j], x[i]] *)
Definition swap {A : Type} (i j : nat) (x : list A) : list A :=
  match x !! i, x !! j with
  | Some a, Some b => <[j := a]> (<[i := b]> x)
  | _, _ => x
  end.

(** [random.shuffle(x)]: for [i] from [len(x) - 1] down to [1], exchange
    [x[i]] with [x[j]], [j = randbelow(i + 1)]. *)
Fixpoint shuffle_from {A : Type} (i : nat) (x : list A) : Gen (list A) :=
  match i with
  | O => ret x
  | S i' =>
      let! j := random_randbelow (Z.of_nat i + 1) in
      shuffle_from i' (swap i (Z.to_nat j) x)
  end.

Definition shuffle {A : Type} (x : list A) : Gen (list A) :=
  shuffle_from (length x - 1) x.

(** ** The generation methods of [GameGenerator] *)

Section Generator.

(** [self.options], and the flag [self.progress.abort] as the run sees it
    (the methods below read it and never set it). *)
Variable options : Options.
Variable abort : bool.

(** [BingoTicket(self.options)] *)
Definition new_ticket : BingoTicket :=
  {| card_id := 0; card_tracks := []; ticket_number := None |}.

(** The inner loop of [select_songs_for_ticket]: draw until the index is not
    one of [picked_indices]. *)
Fixpoint pick_index (fuel : nat) (n : Z) (picked_indices : gset Z) : Gen Z :=
  match fuel with
  | O => starve
  | S fuel' =>
      let! index := randbelow n in
      if decide (index ∈ picked_indices) then pick_index fuel' n picked_indices
      else ret index
  end.

(** One pass through the body of the outer loop of
    [select_songs_for_ticket]; the result is [valid_card] with the new
    [picked_indices] and the ticket. *)
Definition select_step (songs : list Song) (num_tracks : Z)
    (picked_indices : gset Z) (card : BingoTicket)
  : Gen (bool * gset Z * BingoTicket) :=
  let! index := with_fuel (fun fuel => pick_index fuel (Z.of_nat (length songs)) picked_indices) in
  match songs !! Z.to_nat index with
  | None => raise IndexError
  | Some song =>
      let card1 := {| card_id := card_id card * song_id song;
                      card_tracks := card_tracks card ++ [song];
                      ticket_number := ticket_number card |} in
      let picked1 := picked_indices ∪ {[ index ]} in
      if Z.of_nat (length (card_tracks card1)) =? num_tracks then
        let! used := get_used in
        if decide (card_id card1 ∈ used) then
          ret (false, ∅, {| card_id := 1; card_tracks := [];
                            ticket_number := ticket_number card |})
        else
          let! _ := add_used (card_id card1) in
          ret (true, picked1, card1)
      else ret (false, picked1, card1)
  end.

(** [while not valid_card and not self.progress.abort] *)
Fixpoint select_loop (fuel : nat) (songs : list Song) (num_tracks : Z)
    (picked_indices : gset Z) (card : BingoTicket) : Gen BingoTicket :=
  if abort then ret card
  else
    match fuel with
    | O => starve
    | S fuel' =>
        let! r := select_step songs num_tracks picked_indices card in
        let '(valid_card, picked1, card1) := r in
        if valid_card then ret card1
        else select_loop fuel' songs num_tracks picked1 card1
    end.

Definition select_songs_for_ticket (songs : list Song) (card : BingoTicket)
    (num_tracks : Z) : Gen BingoTicket :=
  with_fuel (fun fuel =>
    select_loop fuel songs num_tracks ∅
      {| card_id := 1; card_tracks := []; ticket_number := ticket_number card |}).

(** One pass through the body of the loop of [generate_at_point]: [None]
    stands for the early [return cards] on abort, otherwise the new [count]
    and [cards]. *)
Definition generate_step (tracks : list Song) (from_end : Z)
    (count : Z) (cards : list BingoTicket)
  : Gen (option (Z * list BingoTicket)) :=
  let! card := select_songs_for_ticket tracks new_ticket (songs_per_ticket options) in
  if abort then ret None
  else
    let! win_point := lift (get_when_ticket_wins tracks card) in
    if negb (win_point =? Z.of_nat (length tracks) - from_end) then
      let! _ := remove_used (card_id card) in
      ret (Some (count, cards))
    else ret (Some (count + 1, cards ++ [card])).

(** [while count < amount] *)
Fixpoint generate_loop (fuel : nat) (tracks : list Song) (amount from_end : Z)
    (count : Z) (cards : list BingoTicket) : Gen (list BingoTicket) :=
  if count <? amount then
    match fuel with
    | O => starve
    | S fuel' =>
        let! r := generate_step tracks from_end count cards in
        match r with
        | None => ret cards
        | Some (count1, cards1) =>
            generate_loop fuel' tracks amount from_end count1 cards1
        end
    end
  else ret cards.

Definition generate_at_point (tracks : list Song) (amount from_end : Z)
  : Gen (list BingoTicket) :=
  with_fuel (fun fuel => generate_loop fuel tracks amount from_end 0 []).

(** The [for _ in range(0, num_cards)] loop of [insert_random_cards], with
    [todo] iterations left. *)
Fixpoint insert_loop (todo : nat) (tracks : list Song) (point num_cards num_on_last : Z)
    (increment start_point : Q) (cards : list BingoTicket) : Gen (list BingoTicket) :=
  match todo with
  | O => ret cards
  | S todo' =>
      let! rand_point := randrange (Py.ceil start_point)
                              (Py.ceil (Py.fadd start_point increment)) in
      let rand_point :=
        if rand_point >=? num_on_last + num_cards then num_on_last + num_cards - 1
        else rand_point in
      let! new := generate_at_point tracks 1 point in
      match new with
      | [] => raise IndexError
      | card :: _ =>
          insert_loop todo' tracks point num_cards num_on_last increment
            (Py.fadd start_point increment) (Py.insert rand_point card cards)
      end
  end.

Definition insert_random_cards (tracks : list Song) (cards : list BingoTicket)
    (point num_cards num_on_last : Z) : Gen (list BingoTicket) :=
  if num_cards =? 0 then raise ZeroDivisionError
  else
    let increment :=
      Py.fdiv (Py.float (Z.of_nat (length cards) + num_cards)) (Py.float num_cards) in
    insert_loop (Z.to_nat num_cards) tracks point num_cards num_on_last
      increment 0%Q cards.

(** The tier counts computed at the head of [generate_all_cards]. *)
Record tiers : Type := {
  num_on_last : Z;
  num_second_last : Z;
  num_third_last : Z;
  num_fourth_last : Z;
  offset : Z;
}.

Definition amount_to_go : Z := 4.

Definition tier_counts : tiers :=
  let decay_rate := Py.binary64 (13 # 20) in
  let noc := Py.float (number_of_cards options) in
  let on_last := Py.fmul noc decay_rate in
  let second_last := Py.fmul (Py.fsub noc on_last) decay_rate in
  let third_last := Py.fmul (Py.fsub (Py.fsub noc on_last) second_last) decay_rate in
  let fourth_last :=
    Py.fmul (Py.fsub (Py.fsub (Py.fsub noc on_last) second_last) third_last)
            decay_rate in
  let num_on_last := Py.int on_last in
  let num_second_last := Py.int second_last in
  let num_third_last := Py.int third_last in
  let num_fourth_last := Z.max (Py.int fourth_last) 1 in
  let amount_left := number_of_cards options - num_on_last - num_second_last
                     - num_third_last - num_fourth_last in
  let folded := (num_fourth_last =? 0) || (num_fourth_last =? 1) in
  let offset := if folded then 3 else 4 in
  let num_fourth_last := if folded then 0 else num_fourth_last in
  let num_on_last := if folded then num_on_last + 1 else num_on_last in
  let num_on_last :=
    if (amount_left <? amount_to_go) || (amount_left >? amount_to_go)
    then num_on_last - (amount_to_go - amount_left)
    else num_on_last in
  {| num_on_last := num_on_last;
     num_second_last := num_second_last;
     num_third_last := num_third_last;
     num_fourth_last := num_fourth_last;
     offset := offset |}.

(** The loop that composes the [amount_to_go] tickets winning just before
    the last tiers; [None] stands for the early [return cards] on abort. *)
Fixpoint good_cards_loop (todo : nat) (tracks : list Song) (offset : Z)
    (good_cards : list BingoTicket) : Gen (option (list BingoTicket)) :=
  match todo with
  | O => ret (Some good_cards)
  | S todo' =>
      if abort then ret None
      else
        let! new := generate_at_point tracks 1 offset in
        good_cards_loop todo' tracks (offset + 1) (good_cards ++ new)
  end.

(** The loop that places the good cards; the flag tells whether it was left
    by the early [return cards]. *)
Fixpoint place_good_cards (good_cards : list BingoTicket) (increment start_point : Q)
    (cards : list BingoTicket) : Gen (bool * list BingoTicket) :=
  match good_cards with
  | [] => ret (false, cards)
  | card :: good_cards' =>
      if abort then ret (true, cards)
      else
        let! rand_point := randrange (Py.ceil start_point)
                                (Py.ceil (Py.fadd start_point increment)) in
        let rand_point := Z.min rand_point (number_of_cards options - 1) in
        place_good_cards good_cards' increment (Py.fadd start_point increment)
          (Py.insert rand_point card cards)
  end.

(** [for idx, card in enumerate(cards, start=1): card.ticket_number = idx] *)
Definition number_cards (cards : list BingoTicket) : list BingoTicket :=
  imap (fun idx card => {| card_id := card_id card;
                           card_tracks := card_tracks card;
                           ticket_number := Some (Z.of_nat idx + 1) |}) cards.

Definition or_keep (present : bool) (cards : list BingoTicket)
    (c : Gen (list BingoTicket)) : Gen (list BingoTicket) :=
  if present then c else ret cards.

Definition generate_all_cards (tracks : list Song) : Gen (list BingoTicket) :=
  let! _ := clear_used in
  let t := tier_counts in
  let! cards := generate_at_point tracks (num_on_last t) 0 in
  let! cards := or_keep (negb (num_second_last t =? 0)) cards
             (insert_random_cards tracks cards 1 (num_second_last t) (num_on_last t)) in
  let! cards := or_keep (negb (num_third_last t =? 0)) cards
             (insert_random_cards tracks cards 2 (num_third_last t) (num_on_last t)) in
  let! cards := or_keep (negb (num_fourth_last t =? 0)) cards
             (insert_random_cards tracks cards 3 (num_fourth_last t) (num_on_last t)) in
  let! good := good_cards_loop (Z.to_nat amount_to_go) tracks (offset t) [] in
  match good with
  | None => ret cards
  | Some good_cards =>
      let increment :=
        Py.fdiv (Py.float (number_of_cards options)) (Py.float amount_to_go) in
      let! good_cards := shuffle good_cards in
      let! r := place_good_cards good_cards increment 0%Q cards in
      let '(aborted, cards) := r in
      if aborted then ret cards
      else
        let cards := number_cards cards in
        if page_order options then ret (sort_cards_by_page options cards)
        else ret cards
  end.

End Generator.

(** ** Reference notions and examples *)

(** The binomial coefficient, row by row of Pascal's triangle. *)
Fixpoint pascal_row (n : nat) : list Z :=
  match n with
  | O => [1]
  | S n' => let r := pascal_row n' in zip_with Z.add (0 :: r) (r ++ [0])
  end.

Definition binomial (total select : Z) : Z :=
  if (total <? 0) || (select <? 0) then 0
  else nth (Z.to_nat select) (pascal_row (Z.to_nat total)) 0.

(** Whether [combinations] returns the binomial coefficient. *)
Definition agrees_with_binomial (total select : nat) : bool :=
  match combinations (Z.of_nat total) (Z.of_nat select) with
  | Done c => c =? binomial (Z.of_nat total) (Z.of_nat select)
  | _ => false
  end.

(** The 1-based position of the first entry of the play order with the
    given ref_id. *)
Fixpoint first_position (r : Z) (tracks : list Song) : option nat :=
  match tracks with
  | [] => None
  | song :: rest =>
      if decide (ref_id song = r) then Some 1%nat
      else S <$> first_position r rest
  end.

(** The ticket key that the composer accumulates over the songs of a
    ticket: the product of their song_ids. *)
Definition key_of (songs : list Song) : Z :=
  fold_left (fun key song => key * song_id song) songs 1.

(** [card] holds, in the order drawn, the songs found at the pairwise
    distinct indices [idxs] of [songs], and its key is their product. *)
Definition drawn_from (songs : list Song) (idxs : list Z) (card : BingoTicket) : Prop :=
  NoDup idxs
  /\ (forall i, i ∈ idxs -> 0 <= i)
  /\ Forall2 (fun i song => songs !! Z.to_nat i = Some song) idxs (card_tracks card)
  /\ card_id card = key_of (card_tracks card).

(** The songs found at the given indices of a play order, and the ticket
    that the composer builds when it draws exactly these indices. *)
Definition songs_at (songs : list Song) (idxs : list Z) : list Song :=
  omap (fun i => songs !! Z.to_nat i) idxs.

Definition ticket_at (songs : list Song) (idxs : list Z) : BingoTicket :=
  {| card_id := key_of (songs_at songs idxs);
     card_tracks := songs_at songs idxs;
     ticket_number := None |}.

(** Draws as [generate_at_point] likes them: every draw is a list of
    [songs_per_ticket] pairwise distinct indices of the play order and makes
    a ticket that wins at the point asked for, and the keys of these tickets
    are new and pairwise distinct. *)
Definition favourable (options : Options) (tracks : list Song) (from_end : Z)
    (used : gset Z) (draws : list (list Z)) : Prop :=
  Forall (fun idxs =>
            idxs <> [] /\ NoDup idxs
            /\ Forall (fun i => 0 <= i < Z.of_nat (length tracks)) idxs
            /\ Z.of_nat (length idxs) = songs_per_ticket options
            /\ get_when_ticket_wins tracks (ticket_at tracks idxs)
               = Done (Z.of_nat (length tracks) - from_end)) draws
  /\ NoDup (card_id <$> (ticket_at tracks <$> draws))
  /\ (forall idxs, idxs ∈ draws -> card_id (ticket_at tracks idxs) ∉ used).

(** A draw that [generate_at_point] rejects: a list of [songs_per_ticket]
    pairwise distinct indices of the play order that makes a ticket with a
    new key and a win point other than the one asked for. *)
Definition rejected (options : Options) (tracks : list Song) (from_end : Z)
    (used : gset Z) (idxs : list Z) : Prop :=
  idxs <> [] /\ NoDup idxs
  /\ Forall (fun i => 0 <= i < Z.of_nat (length tracks)) idxs
  /\ Z.of_nat (length idxs) = songs_per_ticket options
  /\ (card_id (ticket_at tracks idxs) ∉ used)
  /\ exists win_point,
       get_when_ticket_wins tracks (ticket_at tracks idxs) = Done win_point
       /\ win_point <> Z.of_nat (length tracks) - from_end.

(** The entropy of a run in rounds: in every round the draws of some
    tickets that are rejected, then the draw of the ticket that is kept. *)
Definition draws_of (rounds : list (list (list Z) * list Z)) : list Z :=
  concat ((fun round : list (list Z) * list Z => concat round.1 ++ round.2) <$> rounds).

(** A ticket as the composer hands it over. *)
Definition well_composed (songs : list Song) (num_tracks : Z) (card : BingoTicket) : Prop :=
  Z.of_nat (length (card_tracks card)) = num_tracks
  /\ card_tracks card <> []
  /\ exists idxs, drawn_from songs idxs card.

(** What [generate_at_point] guarantees of a ticket it returns, [g] being
    the generator at the call. *)
Definition accepted_at (options : Options) (tracks : list Song) (from_end : Z)
    (g : GameGenerator) (card : BingoTicket) : Prop :=
  (card_id card ∉ used_card_ids g)
  /\ get_when_ticket_wins tracks card = Done (Z.of_nat (length tracks) - from_end)
  /\ well_composed tracks (songs_per_ticket options) card.

(** The draws of [secrets.randbelow] that a run can still make. *)
Definition entropy_left (g : GameGenerator) : nat := length (secrets_entropy g).

(** The keys of [cards] are pairwise distinct and all in the used-key set. *)
Definition registered (cards : list BingoTicket) (g : GameGenerator) : Prop :=
  NoDup (card_id <$> cards)
  /\ forall card, card ∈ cards -> card_id card ∈ used_card_ids g.

(** A pool of songs for the examples: ref_ids 100, 101, ... and the primes in
    order, as [assign_song_ids] hands them out. *)
Definition example_primes : list Z := [2; 3; 5; 7; 11; 13; 17; 19; 23; 29; 31; 37].

Definition example_songs : list Song :=
  imap (fun i p => {| ref_id := 100 + Z.of_nat i; song_id := p; title := "" |})
       example_primes.

(** A supply of entropy for the examples: the high bits of a linear
    congruential generator. *)
Fixpoint lcg (n : nat) (x : Z) : list Z :=
  match n with
  | O => []
  | S n' =>
      let y := (x * 1103515245 + 12345) mod 2147483648 in
      (y / 65536) :: lcg n' y
  end.

Definition example_options : Options :=
  {| mode := BINGO; game_id := "1"; number_of_cards := 15;
     songs_per_ticket := 3; page_order := true |}.

Definition example_generator : GameGenerator :=
  {| used_card_ids := ∅; secrets_entropy := lcg 240 42; random_entropy := lcg 4 7 |}.

(** A pool that [check_options] accepts for tickets of 3 columns by 2
    rows. *)
Definition small_pool_options : Options :=
  {| mode := BINGO; game_id := "1"; number_of_cards := 15;
     songs_per_ticket := 6; page_order := false |}.

(** The same for tickets of 3 columns by 3 rows: a pool of 14 songs. *)
Definition square_primes : list Z :=
  [2; 3; 5; 7; 11; 13; 17; 19; 23; 29; 31; 37; 41; 43].

Definition square_songs : list Song :=
  imap (fun i p => {| ref_id := 100 + Z.of_nat i; song_id := p; title := "" |})
       square_primes.

Definition square_options : Options :=
  {| mode := BINGO; game_id := "1"; number_of_cards := 15;
     songs_per_ticket := 9; page_order := false |}.

(** ** Further parts of [generator.py] *)

(** *** Python run-time: subscripts *)

Module PyList.

(** The position that a subscript [i] denotes in a list of [n] items: a
    negative subscript counts from the end, and one that falls outside the
    list is an [IndexError]. *)
Definition index (n i : Z) : option nat :=
  let k := if i <? 0 then i + n else i in
  if (0 <=? k) && (k <? n) then Some (Z.to_nat k) else None.

(** [l[i]] *)
Definition getitem {A : Type} (l : list A) (i : Z) : outcome A :=
  match index (Z.of_nat (length l)) i with
  | Some k =>
      match l !! k with
      | Some a => Done a
      | None => Raise IndexError
      end
  | None => Raise IndexError
  end.

(** [l[i] = a] *)
Definition setitem {A : Type} (l : list A) (i : Z) (a : A) : outcome (list A) :=
  match index (Z.of_nat (length l)) i with
  | Some k => Done (<[k := a]> l)
  | None => Raise IndexError
  end.

End PyList.

(** *** [BingoTicket.box_colour_style] *)

(** [self.options.palette], as far as [box_colour_style] reads it. *)
Record Palette (Colour : Type) : Type := {
  colours : list Colour;
  box_normal_bg : Colour;
  box_alternate_bg : Colour;
}.
Arguments colours {Colour} _.
Arguments box_normal_bg {Colour} _.
Arguments box_alternate_bg {Colour} _.

(** [columns] is [self.options.columns]. *)
Definition box_colour_style {Colour : Type} (palette : Palette Colour) (columns : Z)
    (col row : Z) : outcome Colour :=
  match colours palette with
  | _ :: _ =>
      PyList.getitem (colours palette)
        ((col + row * columns) mod Z.of_nat (length (colours palette)))
  | [] =>
      if ((Z.land col 1 =? 0) && (Z.land row 1 =? 0))
         || ((Z.land col 1 =? 1) && (Z.land row 1 =? 1))
      then Done (box_alternate_bg palette)
      else Done (box_normal_bg palette)
  end.

(** *** [GameGenerator.assign_song_ids] *)

(** The [for index, song in enumerate(songs)] loop, from [index] on; the
    songs are returned as the loop leaves them. *)
Fixpoint assign_loop (PRIME_NUMBERS : list Z) (index : Z) (songs : list Song)
  : outcome (list Song) :=
  match songs with
  | [] => Done []
  | song :: rest =>
      let? prime := PyList.getitem PRIME_NUMBERS index in
      let? rest' := assign_loop PRIME_NUMBERS (index + 1) rest in
      Done ({| ref_id := ref_id song; song_id := prime; title := title song |} :: rest')
  end.

(** The result of [assign_song_ids] and the songs as it leaves them. *)
Definition assign_song_ids (PRIME_NUMBERS : list Z) (songs : list Song)
  : outcome (bool * list Song) :=
  if Z.of_nat (length songs) >? Z.of_nat (length PRIME_NUMBERS) then Done (false, songs)
  else
    let? songs' := assign_loop PRIME_NUMBERS 0 songs in
    Done (true, songs').

(** *** [GameGenerator.rand_float] and [GameGenerator.gen_track_order] *)

(** [float(secrets.randbelow(1000)) / 1000.0] *)
Definition rand_float : Gen Q :=
  let! r := randbelow 1000 in ret (Py.fdiv (Py.float r) 1000).

(** [x[i], x[j] = x[j], x[i]]: the right-hand side is read first, [x[j]]
    before [x[i]], then [x[i]] and [x[j]] are assigned in this order. *)
Definition swap_items {A : Type} (i j : Z) (x : list A) : outcome (list A) :=
  let? a := PyList.getitem x j in
  let? b := PyList.getitem x i in
  let? x1 := PyList.setitem x i a in
  PyList.setitem x1 j b.

(** [random.shuffle(x, random)] with a function [random] of the caller's
    (Python 3.8): for [i] from [len(x) - 1] down to [1], exchange [x[i]]
    with [x[j]], [j = int(random() * (i + 1))]. *)
Fixpoint shuffle_random_from {A : Type} (random : Gen Q) (i : nat) (x : list A)
  : Gen (list A) :=
  match i with
  | O => ret x
  | S i' =>
      let! r := random in
      let j := Py.int (Py.fmul r (Py.float (Z.of_nat i + 1))) in
      let! x' := lift (swap_items (Z.of_nat i) j x) in
      shuffle_random_from random i' x'
  end.

Definition shuffle_random {A : Type} (x : list A) (random : Gen Q) : Gen (list A) :=
  shuffle_random_from random (length x - 1) x.

(** The outcome of an [assert]. *)
Inductive asserted (A : Type) : Type :=
  | AssertionError
  | Asserted (a : A).
Arguments AssertionError {A}.
Arguments Asserted {A} a.

(** [game_songs] is [self.game_songs]; the copy that is shuffled is the
    list returned. *)
Definition gen_track_order (options : Options) (game_songs : list Song)
  : asserted (Gen (list Song)) :=
  if Z.of_nat (length game_songs) >? 0 then
    Asserted (if decide (mode options = QUIZ) then ret game_songs
              else shuffle_random game_songs rand_float)
  else AssertionError.

(** *** [GameGenerator.generate_card_results] *)

(** What the loop of [generate_card_results] works out for a ticket before
    it formats the row: the win point and the track [tracks[win_point - 1]]. *)
Definition card_result (tracks : list Song) (card : BingoTicket) : outcome (Z * Song) :=
  let? win_point := get_when_ticket_wins tracks card in
  let? song := PyList.getitem tracks (win_point - 1) in
  Done (win_point, song).

(** *** Reference notions for the further properties *)

(** The set of ref_ids on a ticket. *)
Definition ticket_ids (card : BingoTicket) : gset Z :=
  list_to_set (ref_ids (card_tracks card)).

(** A ticket composed from [tracks] that wins [from_end] songs before the
    end. *)
Definition wins_at (options : Options) (tracks : list Song) (from_end : Z)
    (card : BingoTicket) : Prop :=
  get_when_ticket_wins tracks card = Done (Z.of_nat (length tracks) - from_end)
  /\ well_composed tracks (songs_per_ticket options) card.

(** Primality by trial division, for the examples. *)
Definition is_prime (n : Z) : bool :=
  (1 <? n) && forallb (fun d => negb (n mod d =? 0)) (seqZ 2 (n - 2)).

(** How many songs before the end of the play order a ticket wins; [None]
    when it never wins. *)
Definition from_end_of (tracks : list Song) (card : BingoTicket) : option Z :=
  match get_when_ticket_wins tracks card with
  | Done win_point => Some (Z.of_nat (length tracks) - win_point)
  | _ => None
  end.

(** The profile that [generate_all_cards] aims at: for every ticket, how
    many songs before the end it is to win. *)
Definition tier_profile (t : tiers) : list Z :=
  replicate (Z.to_nat (num_on_last t)) 0
  ++ replicate (Z.to_nat (num_second_last t)) 1
  ++ replicate (Z.to_nat (num_third_last t)) 2
  ++ replicate (Z.to_nat (num_fourth_last t)) 3
  ++ seqZ (offset t) amount_to_go.

(** What a ticket holds, its number apart. *)
Definition content (card : BingoTicket) : Z * list Song :=
  (card_id card, card_tracks card).

(** *** [GameGenerator.generate_tickets_pdf]: the page counter *)

(** [rows] is [self.options.rows]. *)
Definition cards_per_page (rows : Z) : Z :=
  if rows =? 2 then 4 else if rows >? 3 then 2 else 3.

(** The [for count, card in enumerate(cards, start=1)] loop from [count]
    on, as far as the page counter goes: every ticket with the [page] that
    its label [game_id / T<ticket_number> / P<page>] names.  After a ticket
    whose [count] is a multiple of [cards_per_page] comes the page break,
    and [page] is stepped. *)
Fixpoint label_pages (cards_per_page count page : Z) (cards : list BingoTicket)
  : list (BingoTicket * Z) :=
  match cards with
  | [] => []
  | card :: rest =>
      (card, page) ::
      label_pages cards_per_page (count + 1)
        (if negb (count mod cards_per_page =? 0) then page else page + 1) rest
  end.

Definition ticket_pages (rows : Z) (cards : list BingoTicket) : list (BingoTicket * Z) :=
  label_pages (cards_per_page rows) 1 1 cards.

(** * Properties *)

(** ** Float arithmetic *)

Lemma round_error (y : Q) :
  (inject_Z (Py.round y) - y <= 1 # 2)%Q /\ (y - inject_Z (Py.round y) <= 1 # 2)%Q.
Proof.
  unfold Py.round.
  pose proof (Qfloor_le y) as Hlo. pose proof (Qlt_floor y) as Hhi.
  rewrite inject_Z_plus in Hhi. change (inject_Z 1) with 1%Q in Hhi.
  destruct (Qcompare (y - inject_Z (Qfloor y)) (1 # 2)) eqn:Hc.
  - apply Qeq_alt in Hc. destruct (Z.even (Qfloor y)).
    + split; lra.
    + rewrite inject_Z_plus. change (inject_Z 1) with 1%Q. split; lra.
  - apply Qlt_alt in Hc. split; lra.
  - apply Qgt_alt in Hc. rewrite inject_Z_plus. change (inject_Z 1) with 1%Q.
    split; lra.
Qed.

Lemma round_comp (x y : Q) : (x == y)%Q -> Py.round x = Py.round y.
Proof.
  intros H. unfold Py.round. rewrite (Qfloor_comp _ _ H).
  assert (Hc : Qcompare (x - inject_Z (Qfloor y)) (1 # 2)
               = Qcompare (y - inject_Z (Qfloor y)) (1 # 2)).
  { apply Qcompare_comp; [rewrite H |]; reflexivity. }
  rewrite Hc. reflexivity.
Qed.

Lemma round_inject_Z (m : Z) : Py.round (inject_Z m) = m.
Proof.
  unfold Py.round. rewrite Qfloor_Z.
  assert (Hc : Qcompare (inject_Z m - inject_Z m) (1 # 2) = Lt).
  { rewrite <- Qlt_alt. lra. }
  rewrite Hc. reflexivity.
Qed.

Lemma round_sign (y : Q) : (y <= 0)%Q -> Py.round y <= 0.
Proof.
  intros Hy. destruct (round_error y) as [Hhi _].
  assert (H : (inject_Z (Py.round y) < inject_Z 1)%Q)
    by (change (inject_Z 1) with 1%Q; lra).
  rewrite <- Zlt_Qlt in H. lia.
Qed.

Lemma round_nonneg (y : Q) : (0 <= y)%Q -> 0 <= Py.round y.
Proof.
  intros Hy. destruct (round_error y) as [_ Hlo].
  assert (H : (inject_Z (-1) < inject_Z (Py.round y))%Q)
    by (change (inject_Z (-1)) with (-1 # 1)%Q; lra).
  rewrite <- Zlt_Qlt in H. lia.
Qed.

Lemma two_power_pos (k : Z) : (0 < 2 ^ k)%Q.
Proof. apply Qpower_0_lt. reflexivity. Qed.

Lemma Qdiv_inject_le (A B n : Z) (d : positive) :
  0 <= A <= n -> Z.pos d <= B -> (inject_Z A / inject_Z B <= n # d)%Q.
Proof.
  intros HA HB. destruct B as [| p | p]; try lia.
  unfold Qle, Qdiv, Qmult, Qinv, inject_Z. cbn. nia.
Qed.

(** [Py.ilog2] does not overestimate. *)
Lemma ilog2_le (x : Q) : (0 < x)%Q -> (2 ^ Py.ilog2 x <= x)%Q.
Proof.
  intros Hx. unfold Py.ilog2.
  set (e := Z.log2 (Qnum x) - Z.log2 (Z.pos (Qden x))).
  destruct (Qle_bool (2 ^ e) x) eqn:Hb.
  - by apply Qle_bool_iff.
  - destruct x as [n d]. cbn [Qnum Qden] in e.
    assert (Hn : 0 < n) by (unfold Qlt in Hx; cbn in Hx; lia).
    replace (e - 1) with (Z.log2 n - (Z.log2 (Z.pos d) + 1)) by (unfold e; lia).
    rewrite Qpower_minus by discriminate.
    change (2 : Q)%Q with (inject_Z 2).
    pose proof (Z.log2_nonneg n). pose proof (Z.log2_nonneg (Z.pos d)).
    rewrite <- !Zpower_Qpower by lia.
    pose proof (Z.log2_spec n Hn). pose proof (Z.log2_spec (Z.pos d) ltac:(lia)).
    apply Qdiv_inject_le; [lia |].
    replace (Z.log2 (Z.pos d) + 1) with (Z.succ (Z.log2 (Z.pos d))) by lia. lia.
Qed.

Lemma binary64_error (x : Q) :
  (Qabs (Py.binary64 x - x) <= Qabs x * 2 ^ (-53) + 2 ^ (-1075))%Q.
Proof.
  assert (Hbound : (0 <= Qabs x * 2 ^ (-53) + 2 ^ (-1075))%Q).
  { pose proof (Qabs_nonneg x). pose proof (two_power_pos (-53)).
    pose proof (two_power_pos (-1075)).
    assert (0 <= Qabs x * 2 ^ (-53))%Q by (apply Qmult_le_0_compat; lra). lra. }
  unfold Py.binary64. destruct (Qeq_bool x 0) eqn:H0.
  - apply Qeq_bool_iff in H0. apply Qabs_Qle_condition.
    revert Hbound. generalize (Qabs x * 2 ^ (-53) + 2 ^ (-1075))%Q. intros b Hb.
    split; lra.
  - apply Qeq_bool_neq in H0.
    assert (Hx : (0 < Qabs x)%Q).
    { destruct (Qlt_le_dec 0 (Qabs x)) as [? | Hle]; [done |].
      exfalso. apply H0. apply Qabs_Qle_condition in Hle. lra. }
    set (i := Py.ilog2 (Qabs x)).
    pose proof (ilog2_le (Qabs x) Hx) as Hi. fold i in Hi.
    set (k := Z.max (i - 52) (-1074)).
    pose proof (two_power_pos k) as Hp.
    destruct (round_error (x / 2 ^ k)) as [Hhi Hlo].
    set (r := inject_Z (Py.round (x / 2 ^ k))) in *.
    assert (Hxy : (x == x / 2 ^ k * 2 ^ k)%Q) by (field; lra).
    assert (Hhalf : (2 ^ k * (1 # 2) <= Qabs x * 2 ^ (-53) + 2 ^ (-1075))%Q).
    { pose proof (two_power_pos (-1075)). pose proof (two_power_pos (-53)).
      pose proof (Qabs_nonneg x).
      assert (0 <= Qabs x * 2 ^ (-53))%Q by (apply Qmult_le_0_compat; lra).
      unfold k. destruct (Z.max_spec (i - 52) (-1074)) as [[_ ->] | [_ ->]].
      - assert (Heq : (2 ^ (-1074) * (1 # 2) == 2 ^ (-1075))%Q) by reflexivity.
        lra.
      - assert (Heq : (2 ^ (i - 52) * (1 # 2) == 2 ^ i * 2 ^ (-53))%Q).
        { replace (i - 52) with (i + -52) by lia.
          rewrite Qpower_plus by discriminate.
          assert (Hc : (2 ^ (-52) * (1 # 2) == 2 ^ (-53))%Q) by reflexivity.
          rewrite <- Hc. ring. }
        assert (2 ^ i * 2 ^ (-53) <= Qabs x * 2 ^ (-53))%Q
          by (apply Qmult_le_compat_r; lra).
        lra. }
    assert (H1 : ((r - x / 2 ^ k) * 2 ^ k <= (1 # 2) * 2 ^ k)%Q)
      by (apply Qmult_le_compat_r; lra).
    assert (H2 : ((x / 2 ^ k - r) * 2 ^ k <= (1 # 2) * 2 ^ k)%Q)
      by (apply Qmult_le_compat_r; lra).
    apply Qabs_Qle_condition.
    revert Hhalf. generalize (Qabs x * 2 ^ (-53) + 2 ^ (-1075))%Q. intros b Hb.
    revert Hxy H1 H2. generalize (x / 2 ^ k)%Q. intros y Hxy H1 H2.
    revert Hp Hb Hxy H1 H2. generalize (2 ^ k)%Q. intros p Hp Hb Hxy H1 H2.
    split; nra.
Qed.

Lemma binary64_nonneg (x : Q) : (0 <= x)%Q -> (0 <= Py.binary64 x)%Q.
Proof.
  intros Hx. unfold Py.binary64. destruct (Qeq_bool x 0); [lra |].
  set (k := Z.max _ _). pose proof (two_power_pos k) as Hp.
  apply Qmult_le_0_compat; [| lra].
  change 0%Q with (inject_Z 0). rewrite <- Zle_Qle. apply round_nonneg.
  apply Qle_shift_div_l; [done | lra].
Qed.

Lemma binary64_nonpos (x : Q) : (x <= 0)%Q -> (Py.binary64 x <= 0)%Q.
Proof.
  intros Hx. unfold Py.binary64. destruct (Qeq_bool x 0); [lra |].
  set (k := Z.max _ _). pose proof (two_power_pos k) as Hp.
  assert (Hr : Py.round (x / 2 ^ k) <= 0).
  { apply round_sign. apply Qle_shift_div_r; [done | lra]. }
  rewrite Zle_Qle in Hr. change (inject_Z 0) with 0%Q in Hr.
  revert Hr. generalize (inject_Z (Py.round (x / 2 ^ k))). intros r Hr.
  revert Hp. generalize (2 ^ k)%Q. intros p Hp. nra.
Qed.

(** A dyadic number with a numerator below [2^53] is a binary64 number. *)
Lemma binary64_exact (x : Q) (n j : Z) :
  0 <= j <= 1074 -> Z.abs n < 2 ^ 53 ->
  (x == inject_Z n / 2 ^ j)%Q ->
  (Py.binary64 x == x)%Q.
Proof.
  intros Hj Hn Hx. unfold Py.binary64. destruct (Qeq_bool x 0) eqn:H0.
  { apply Qeq_bool_iff in H0. by rewrite H0. }
  apply Qeq_bool_neq in H0.
  assert (Hpos : (0 < Qabs x)%Q).
  { destruct (Qlt_le_dec 0 (Qabs x)) as [? | Hle]; [done |].
    exfalso. apply H0. apply Qabs_Qle_condition in Hle. lra. }
  set (i := Py.ilog2 (Qabs x)).
  pose proof (ilog2_le (Qabs x) Hpos) as Hi. fold i in Hi.
  pose proof (two_power_pos j) as Hpj.
  assert (Hlt : (Qabs x < 2 ^ (53 - j))%Q).
  { rewrite Hx. unfold Qdiv. rewrite Qabs_Qmult.
    rewrite (Qabs_pos (/ 2 ^ j)) by (apply Qlt_le_weak, Qinv_lt_0_compat, Hpj).
    rewrite Qpower_minus by discriminate. unfold Qdiv.
    apply Qmult_lt_compat_r; [apply Qinv_lt_0_compat, Hpj |].
    change (2 : Q)%Q with (inject_Z 2). rewrite <- Zpower_Qpower by lia.
    change (Qabs (inject_Z n)) with (inject_Z (Z.abs n)). rewrite <- Zlt_Qlt. exact Hn. }
  assert (Hi53 : i < 53 - j).
  { apply (Qpower_lt_compat_l_inv 2); [| reflexivity].
    eapply Qle_lt_trans; [exact Hi | exact Hlt]. }
  set (k := Z.max (i - 52) (-1074)).
  assert (Hk : k <= - j) by (unfold k; lia).
  pose proof (two_power_pos k) as Hp.
  assert (Hy : (x / 2 ^ k == inject_Z (n * 2 ^ (- j - k)))%Q).
  { rewrite Hx, inject_Z_mult, Zpower_Qpower by lia.
    change (inject_Z 2) with (2 : Q)%Q.
    replace (- j - k) with (- j + - k) by lia.
    rewrite Qpower_plus by discriminate. rewrite !Qpower_opp.
    field. split; lra. }
  rewrite (round_comp _ _ Hy), round_inject_Z, <- Hy.
  field. lra.
Qed.

(** A coarse form of the error bound, for linear arithmetic. *)
Lemma binary64_near (x : Q) :
  (0 <= x)%Q ->
  (0 <= Py.binary64 x)%Q
  /\ (x * (999 # 1000) - (1 # 1000) <= Py.binary64 x)%Q
  /\ (Py.binary64 x <= x * (1001 # 1000) + (1 # 1000))%Q.
Proof.
  intros Hx. split; [by apply binary64_nonneg |].
  pose proof (binary64_error x) as Herr.
  rewrite (Qabs_pos x) in Herr by done.
  apply Qabs_Qle_condition in Herr.
  assert (Hc1 : (2 ^ (-53) == 1 # 9007199254740992)%Q) by reflexivity.
  assert (Hc2 : (2 ^ (-1075) <= 1 # 1000)%Q) by (vm_compute; discriminate).
  rewrite Hc1 in Herr.
  revert Herr Hc2. generalize (2 ^ (-1075))%Q. intros eps Herr Hc2.
  split; lra.
Qed.

Lemma int_bounds (x : Q) :
  (0 <= x)%Q -> 0 <= Py.int x /\ (inject_Z (Py.int x) <= x)%Q.
Proof.
  intros Hx. unfold Py.int. destruct x as [n dn]. cbn [Qnum Qden].
  assert (Hn : 0 <= n) by (unfold Qle in Hx; cbn in Hx; lia).
  rewrite Z.quot_div_nonneg by lia.
  split; [apply Z.div_pos; lia | apply (Qfloor_le (n # dn))].
Qed.

(** ** Option checking *)

Lemma round_Qmake (n : Z) (d : positive) :
  Py.round (n # d) =
  let f := n / Z.pos d in
  match 2 * (n - f * Z.pos d) ?= Z.pos d with
  | Lt => f
  | Gt => f + 1
  | Eq => if Z.even f then f else f + 1
  end.
Proof.
  unfold Py.round, Qfloor, Qcompare, Qminus, Qplus, Qopp, inject_Z.
  cbn [Qnum Qden].
  replace ((n * 1 + - (n / Z.pos d) * Z.pos d) * 2)
    with (2 * (n - n / Z.pos d * Z.pos d)) by lia.
  replace (1 * Z.pos (d * 1)) with (Z.pos d) by lia.
  reflexivity.
Qed.

Lemma min_songs_value (s : Z) :
  ((3 # 2) * inject_Z s + (1 # 2))%Q = ((6 * s + 2) # 4).
Proof.
  unfold Qplus, Qmult, inject_Z; cbn [Qnum Qden].
  f_equal; lia.
Qed.

Lemma round_min_songs (s : Z) :
  Py.round ((3 # 2) * inject_Z s + (1 # 2)) =
  if decide (s mod 4 = 0) then 3 * s / 2 else (3 * s + 2) / 2.
Proof.
  rewrite min_songs_value, round_Qmake. cbv zeta.
  assert (Hcases : s mod 4 = 0 \/ s mod 4 = 1 \/ s mod 4 = 2 \/ s mod 4 = 3)
    by (Z.div_mod_to_equations; lia).
  destruct Hcases as [H | [H | [H | H]]].
  - rewrite decide_True by assumption.
    assert (Hf : (6 * s + 2) / 4 = 3 * (s / 4) * 2) by (Z.div_mod_to_equations; lia).
    rewrite Hf.
    replace (2 * (6 * s + 2 - 3 * (s / 4) * 2 * 4)) with 4
      by (Z.div_mod_to_equations; lia).
    cbn [Z.compare Pos.compare Pos.compare_cont].
    rewrite Z.even_mul, Bool.orb_true_r. Z.div_mod_to_equations; lia.
  - rewrite decide_False by lia.
    assert (Hf : (6 * s + 2) / 4 = (3 * s + 2) / 2) by (Z.div_mod_to_equations; lia).
    rewrite Hf.
    replace (2 * (6 * s + 2 - (3 * s + 2) / 2 * 4)) with 0
      by (Z.div_mod_to_equations; lia).
    reflexivity.
  - rewrite decide_False by lia.
    assert (Hf : (6 * s + 2) / 4 = 2 * (3 * (s / 4) + 1) + 1)
      by (Z.div_mod_to_equations; lia).
    rewrite Hf.
    replace (2 * (6 * s + 2 - (2 * (3 * (s / 4) + 1) + 1) * 4)) with 4
      by (Z.div_mod_to_equations; lia).
    cbn [Z.compare Pos.compare Pos.compare_cont].
    rewrite Z.add_comm, Z.even_add_mul_2. cbn [Z.even].
    Z.div_mod_to_equations; lia.
  - rewrite decide_False by lia.
    assert (Hf : (6 * s + 2) / 4 = (3 * s + 2) / 2) by (Z.div_mod_to_equations; lia).
    rewrite Hf.
    replace (2 * (6 * s + 2 - (3 * s + 2) / 2 * 4)) with 0
      by (Z.div_mod_to_equations; lia).
    reflexivity.
Qed.

Lemma ceil_min_songs (s : Z) :
  Py.ceil ((3 # 2) * inject_Z s + (1 # 2)) = (3 * s + 2) / 2.
Proof.
  rewrite min_songs_value.
  unfold Py.ceil, Qceiling, Qfloor, Qopp; cbn [Qnum Qden].
  Z.div_mod_to_equations; lia.
Qed.

(** Below [2^51] songs per ticket the float arithmetic of [min_songs] is
    exact. *)
Lemma min_songs_exact (options : Options) :
  Z.abs (songs_per_ticket options) < 2 ^ 51 ->
  min_songs options
  = Py.round ((3 # 2) * inject_Z (songs_per_ticket options) + (1 # 2)).
Proof.
  intros Hs. unfold min_songs, Py.fadd, Py.fmul, Py.float.
  generalize dependent (songs_per_ticket options). intros s Hs.
  apply round_comp.
  assert (H1 : (Py.binary64 (inject_Z s) == inject_Z s)%Q).
  { apply (binary64_exact _ s 0); [lia | lia | field]. }
  assert (H2 : (Py.binary64 ((3 # 2) * Py.binary64 (inject_Z s))
                == (3 # 2) * inject_Z s)%Q).
  { rewrite <- H1 at 2. apply (binary64_exact _ (3 * s) 1); [lia | lia |].
    rewrite H1, inject_Z_mult. change (inject_Z 3) with 3%Q. field. }
  rewrite <- H2.
  apply (binary64_exact _ (3 * s + 1) 1); [lia | lia |].
  rewrite H2, inject_Z_plus, inject_Z_mult.
  change (inject_Z 3) with 3%Q. change (inject_Z 1) with 1%Q. field.
Qed.

Lemma combinations_error (total select : Z) (e : exn) :
  combinations total select = Raise e ->
  e = ValueError FactorialNegative \/ e = ZeroDivisionError \/ e = OverflowError.
Proof.
  unfold combinations, Py.factorial, Py.int_truediv.
  repeat (case_match; cbn [obind]); intros [= <-]; auto.
Qed.

(** C8, as the code has it.  In BINGO mode, with a game id and a song list
    that are not empty, [check_options] raises "At least .. songs are
    required" exactly when the number of songs is below
    [int(round(1.5 * songs_per_ticket + 0.5))].  Python rounds ties to the
    even integer, so this minimum is [ceil(1.5 * songs_per_ticket + 0.5)]
    only when [songs_per_ticket] is not a multiple of 4, and one less
    ([1.5 * songs_per_ticket]) when it is.  (The number of songs per ticket
    is taken below [2^51], where these floats are exact.) *)
Theorem check_options_too_few_songs
    (PRIME_NUMBERS : list Z) (QUIZ_COUNTDOWN_POSITIONS : gmap string (Z * Z))
    (options : Options) (songs : list Song) :
  mode options = BINGO ->
  game_id options <> "" ->
  songs <> [] ->
  Z.abs (songs_per_ticket options) < 2 ^ 51 ->
  ((exists m, check_options PRIME_NUMBERS QUIZ_COUNTDOWN_POSITIONS options songs
              = Raise (ValueError (TooFewSongs m)))
   <-> Z.of_nat (length songs) < min_songs options)
  /\ min_songs options =
     (let c := Py.ceil ((3 # 2) * inject_Z (songs_per_ticket options) + (1 # 2)) in
      if decide (songs_per_ticket options mod 4 = 0) then c - 1 else c).
Proof.
  intros Hmode Hid Hsongs Hrange. split.
  - unfold check_options.
    destruct (Z.of_nat (length songs) =? 0) eqn:Hlen.
    { destruct songs; [done | simpl in Hlen; lia]. }
    rewrite decide_False by (rewrite Hmode; discriminate).
    rewrite decide_False by (rewrite Hmode; tauto).
    rewrite decide_False by assumption.
    destruct (Z.of_nat (length songs) <? min_songs options) eqn:Hmin.
    + split; [lia | eauto].
    + split; [| lia].
      intros [m Hm].
      destruct (_ >? MAX_SONGS _); [discriminate |].
      destruct (_ <? MIN_CARDS); [discriminate |].
      destruct (combinations _ _) as [max_cards | e |] eqn:Hc; cbn [obind] in Hm.
      * destruct (_ >? max_cards); discriminate.
      * injection Hm as ->.
        apply combinations_error in Hc as [? | [? | ?]]; discriminate.
      * discriminate.
  - rewrite min_songs_exact, round_min_songs, ceil_min_songs by assumption. cbv zeta.
    case_decide; [| reflexivity]. Z.div_mod_to_equations; lia.
Qed.

Lemma check_options_too_few_songs_witness :
  let options := {| mode := BINGO; game_id := "1"; number_of_cards := 15;
                    songs_per_ticket := 4; page_order := false |} in
  ((exists m, check_options example_primes ∅ options (take 5 example_songs)
              = Raise (ValueError (TooFewSongs m)))
   <-> Z.of_nat (length (take 5 example_songs)) < min_songs options)
  /\ min_songs options = 6.
Proof.
  intros options.
  destruct (check_options_too_few_songs example_primes ∅ options (take 5 example_songs))
    as [H1 H2]; [reflexivity | discriminate | discriminate | reflexivity |].
  split; [exact H1 | exact H2].
Defined.

(** C8 as stated fails: with 4 songs per ticket the claimed minimum is
    [ceil(6.5) = 7], yet a pool of 6 songs passes every check. *)
Lemma check_options_accepts_six_songs_for_four :
  let options := {| mode := BINGO; game_id := "1"; number_of_cards := 15;
                    songs_per_ticket := 4; page_order := false |} in
  let songs := take 6 example_songs in
  Z.of_nat (length songs)
    < Py.ceil ((3 # 2) * inject_Z (songs_per_ticket options) + (1 # 2))
  /\ check_options example_primes ∅ options songs = Done tt.
Proof. split; [vm_compute; reflexivity | vm_compute; reflexivity]. Qed.

(** C10.  In QUIZ mode [check_options] raises exactly when the song list is
    empty or longer than the quiz countdown table; its outcome is a function
    of the number of songs alone, so the game id, the number of songs per
    ticket and the number of tickets are not looked at.  In every mode other
    than BINGO the checks on them are never reached. *)
Theorem check_options_quiz
    (PRIME_NUMBERS : list Z) (QUIZ_COUNTDOWN_POSITIONS : gmap string (Z * Z))
    (options : Options) (songs : list Song) :
  mode options = QUIZ ->
  let max_songs := Z.of_nat (size QUIZ_COUNTDOWN_POSITIONS) in
  (raises (check_options PRIME_NUMBERS QUIZ_COUNTDOWN_POSITIONS options songs)
   <-> songs = [] \/ Z.of_nat (length songs) > max_songs)
  /\ check_options PRIME_NUMBERS QUIZ_COUNTDOWN_POSITIONS options songs =
     (if decide (songs = []) then Raise (ValueError SongListEmpty)
      else if decide (Z.of_nat (length songs) > max_songs)
           then Raise (ValueError (QuizTooManySongs max_songs))
           else Done tt)
  /\ (forall other e,
        mode other <> BINGO ->
        check_options PRIME_NUMBERS QUIZ_COUNTDOWN_POSITIONS other songs = Raise e ->
        e = ValueError SongListEmpty \/ e = ValueError (QuizTooManySongs max_songs)
        \/ e = ValueError InvalidMode).
Proof.
  intros Hmode max_songs.
  assert (Heq : check_options PRIME_NUMBERS QUIZ_COUNTDOWN_POSITIONS options songs =
     (if decide (songs = []) then Raise (ValueError SongListEmpty)
      else if decide (Z.of_nat (length songs) > max_songs)
           then Raise (ValueError (QuizTooManySongs max_songs))
           else Done tt)).
  { unfold check_options. fold max_songs.
    destruct songs as [| song songs].
    - reflexivity.
    - rewrite (decide_False (P := song :: songs = [])) by discriminate.
      replace (Z.of_nat (length (song :: songs)) =? 0) with false
        by (symmetry; apply Z.eqb_neq; simpl; lia).
      rewrite decide_True by assumption.
      destruct (Z.gtb_spec (Z.of_nat (length (song :: songs))) max_songs).
      + rewrite decide_True by lia. reflexivity.
      + rewrite decide_False by lia. reflexivity. }
  split; [| split; [exact Heq |]].
  - rewrite Heq. unfold raises.
    destruct (decide (songs = [])) as [Hnil | Hcons]; [split; eauto |].
    destruct (decide (Z.of_nat (length songs) > max_songs)) as [Hgt | Hle].
    + split; eauto.
    + split; [intros [e He]; discriminate |].
      intros [Hnil | Hgt]; [contradiction | lia].
  - intros other e Hother. unfold check_options. fold max_songs.
    destruct (_ =? 0); [intros [= <-]; auto |].
    destruct (decide (mode other = QUIZ)).
    + destruct (_ >? _); [intros [= <-]; auto | discriminate].
    + rewrite decide_True by assumption. intros [= <-]; auto.
Qed.

Lemma check_options_quiz_witness :
  let options := {| mode := QUIZ; game_id := ""; number_of_cards := 0;
                    songs_per_ticket := 15; page_order := false |} in
  check_options example_primes {[ "1" := (0, 1000); "2" := (1000, 2000) ]}
    options (take 2 example_songs) = Done tt
  /\ raises (check_options example_primes {[ "1" := (0, 1000); "2" := (1000, 2000) ]}
               options (take 3 example_songs)).
Proof.
  intros options. split.
  - destruct (check_options_quiz example_primes
                {[ "1" := (0, 1000); "2" := (1000, 2000) ]}
                options (take 2 example_songs) eq_refl) as (_ & H & _).
    rewrite H. reflexivity.
  - apply (check_options_quiz example_primes
             {[ "1" := (0, 1000); "2" := (1000, 2000) ]}
             options (take 3 example_songs) eq_refl).
    right. vm_compute. reflexivity.
Defined.

Lemma pascal_row_length (n : nat) : length (pascal_row n) = S n.
Proof.
  induction n as [| n IH]; [reflexivity |].
  cbn [pascal_row]. rewrite length_zip_with, length_app. cbn [length]. lia.
Qed.

Lemma binomial_beyond (total select : Z) :
  0 <= total -> total < select -> binomial total select = 0.
Proof.
  intros Htotal Hselect. unfold binomial.
  replace (total <? 0) with false by (symmetry; apply Z.ltb_ge; lia).
  replace (select <? 0) with false by (symmetry; apply Z.ltb_ge; lia).
  cbn [orb]. apply nth_overflow. rewrite pascal_row_length. lia.
Qed.

Lemma combinations_beyond (total select : Z) :
  total < select -> combinations total select = Done 0.
Proof.
  intros H. unfold combinations.
  replace (select >? total) with true by (symmetry; apply Z.gtb_lt; lia).
  reflexivity.
Qed.

(** With fewer than 57 songs every quotient of factorials that
    [combinations] forms is a whole number that the float division delivers
    exactly. *)
Lemma combinations_below_57 (total select : Z) :
  0 <= total < 57 -> 0 <= select ->
  combinations total select = Done (binomial total select).
Proof.
  intros Htotal Hselect.
  destruct (decide (total < select)) as [Hlt | Hge].
  { rewrite combinations_beyond, binomial_beyond by lia. reflexivity. }
  assert (Hall : forallb (fun total =>
                   forallb (agrees_with_binomial total) (seq 0 (S total)))
                   (seq 0 57) = true) by (vm_compute; reflexivity).
  rewrite forallb_forall in Hall.
  specialize (Hall (Z.to_nat total)).
  rewrite forallb_forall in Hall.
  specialize (Hall ltac:(apply in_seq; lia) (Z.to_nat select) ltac:(apply in_seq; lia)).
  unfold agrees_with_binomial in Hall.
  rewrite !Z2Nat.id in Hall by lia.
  destruct (combinations total select) as [c | |]; [| discriminate ..].
  apply Z.eqb_eq in Hall. by rewrite Hall.
Qed.

(** C7, at the inputs the specification lists and at one where the code
    departs from it.  [combinations] returns 0 when [select > total], and
    the binomial coefficient whenever there are fewer than 57 songs.  But it
    divides the factorials as floats, and with 57 songs and 25 per ticket
    the quotient, an odd number above [2^53], is rounded to its even
    neighbour. *)
Theorem combinations_rounds_the_quotient :
  combinations 17 15 = Done 136
  /\ combinations 5 10 = Done 0
  /\ combinations 0 0 = Done 1
  /\ (forall total select, total < select -> combinations total select = Done 0)
  /\ (forall total select,
        0 <= total < 57 -> 0 <= select ->
        combinations total select = Done (binomial total select))
  /\ binomial 57 25 = 9929472283517787
  /\ combinations 57 25 = Done 9929472283517788.
Proof.
  split; [vm_compute; reflexivity |].
  split; [vm_compute; reflexivity |].
  split; [vm_compute; reflexivity |].
  split; [exact combinations_beyond |].
  split; [exact combinations_below_57 |].
  split; vm_compute; reflexivity.
Qed.

(** ** The win-point calculator *)

Lemma ref_ids_take_mono (r : Z) (tracks : list Song) (q p : nat) :
  (q <= p)%nat -> r ∈ ref_ids (take q tracks) -> r ∈ ref_ids (take p tracks).
Proof.
  intros Hqp Hin. unfold ref_ids in *.
  apply list_elem_of_fmap in Hin as (song & -> & Hsong).
  apply list_elem_of_fmap_2.
  apply elem_of_take in Hsong as (i & Hi & Hlt).
  apply elem_of_take. exists i. split; [done | lia].
Qed.

Lemma first_position_take (r : Z) (tracks : list Song) (p : nat) :
  r ∈ ref_ids (take p tracks) ->
  exists i, first_position r tracks = Some i /\ (1 <= i <= p)%nat.
Proof.
  revert p. induction tracks as [| song rest IH]; intros p Hin.
  - rewrite take_nil in Hin. inversion Hin.
  - destruct p as [| p]; [inversion Hin |].
    cbn [first_position]. case_decide as Hr.
    + exists 1%nat. split; [reflexivity | lia].
    + cbn in Hin. apply elem_of_cons in Hin as [-> | Hin]; [done |].
      destruct (IH p Hin) as (i & -> & Hi).
      exists (S i). split; [reflexivity | lia].
Qed.

Lemma first_position_after (r : Z) (tracks : list Song) (q i : nat) :
  r ∉ ref_ids (take q tracks) ->
  first_position r tracks = Some i ->
  (q < i)%nat.
Proof.
  revert q i. induction tracks as [| song rest IH]; intros q i Hout Hi.
  - discriminate.
  - cbn [first_position] in Hi. destruct q as [| q].
    + case_decide; [injection Hi as <-; lia |].
      destruct (first_position r rest); [injection Hi as <-; lia | discriminate].
    + cbn in Hout. apply not_elem_of_cons in Hout as [Hne Hout].
      rewrite decide_False in Hi by congruence.
      destruct (first_position r rest) as [j |] eqn:Hj; [| discriminate].
      injection Hi as <-. specialize (IH q j Hout eq_refl). lia.
Qed.

Lemma last_pending (ids : gset Z) (r : Z) :
  ids ∖ {[ r ]} = ∅ -> forall x, x ∈ ids -> x = r.
Proof.
  intros Hempty x Hx. destruct (decide (x = r)) as [| Hne]; [done |].
  assert (Hin : x ∈ ids ∖ {[ r ]})
    by (apply elem_of_difference; split; [done | by apply not_elem_of_singleton]).
  rewrite Hempty in Hin. by apply not_elem_of_empty in Hin.
Qed.

Lemma scan_tracks_nothing_pending (tracks : list Song) (count : Z) (st : scan) :
  card_track_ids st = ∅ ->
  card_track_ids (scan_tracks tracks count st) = ∅
  /\ last_song (scan_tracks tracks count st) = last_song st.
Proof.
  intros Hst. destruct tracks as [| song rest]; [done |].
  cbn [scan_tracks].
  rewrite (decide_False (P := ref_id song ∈ card_track_ids st))
    by (rewrite Hst; apply not_elem_of_empty).
  cbn [card_track_ids]. rewrite decide_True by assumption. done.
Qed.

(** While something is pending and everything pending is still to come, the
    scan ends at the first prefix that holds all of it. *)
Lemma scan_tracks_covered (tracks : list Song) (count : Z) (st : scan) :
  card_track_ids st <> ∅ ->
  (forall x, x ∈ card_track_ids st -> x ∈ ref_ids tracks) ->
  exists m : nat,
    (1 <= m <= length tracks)%nat
    /\ scan_tracks tracks count st =
       {| last_song := count + Z.of_nat m - 1;
          card_track_ids := ∅;
          visited := visited st + m |}
    /\ (forall x, x ∈ card_track_ids st -> x ∈ ref_ids (take m tracks))
    /\ (exists x, x ∈ card_track_ids st /\ x ∉ ref_ids (take (m - 1) tracks)).
Proof.
  revert count st. induction tracks as [| song rest IH]; intros count st Hne Hcov.
  - apply set_choose_L in Hne as [x Hx]. specialize (Hcov x Hx). inversion Hcov.
  - cbn [scan_tracks].
    remember (if decide (ref_id song ∈ card_track_ids st) then _ else _)
      as st1 eqn:Hst1.
    assert (Hids1 : card_track_ids st1 = card_track_ids st ∖ {[ ref_id song ]}).
    { rewrite Hst1. case_decide; cbn [card_track_ids]; [done | set_solver]. }
    assert (Hvis1 : visited st1 = S (visited st)).
    { rewrite Hst1. case_decide; reflexivity. }
    assert (Hlast1 : ref_id song ∈ card_track_ids st -> last_song st1 = count).
    { intros Hin. rewrite Hst1, decide_True by assumption. reflexivity. }
    clear Hst1. case_decide as Hbreak.
    + exists 1%nat. cbn [length take]. split; [lia |].
      rewrite Hids1 in Hbreak.
      pose proof (last_pending _ _ Hbreak) as Honly.
      apply set_choose_L in Hne as [x Hx].
      split; [| split].
      * assert (Hin : ref_id song ∈ card_track_ids st)
          by (rewrite <- (Honly x Hx); exact Hx).
        destruct st1 as [l1 ids1 v1]; cbn in *.
        rewrite (Hlast1 Hin), Hids1, Hbreak, Hvis1. f_equal; lia.
      * intros y Hy. rewrite (Honly y Hy). cbn. apply list_elem_of_here.
      * exists x. split; [done |]. cbn. apply not_elem_of_nil.
    + destruct (IH (count + 1) st1) as (m & Hm & Hscan & Hall & (x & Hx & Hout)).
      * assumption.
      * intros x Hx. rewrite Hids1 in Hx.
        assert (Hin : x ∈ ref_ids (song :: rest)) by (apply Hcov; set_solver).
        cbn in Hin. set_solver.
      * exists (S m). cbn [length]. split; [lia |]. split; [| split].
        -- rewrite Hscan, Hvis1. f_equal; lia.
        -- intros y Hy. cbn [take]. cbn.
           destruct (decide (y = ref_id song)) as [-> | Hneq];
             [apply list_elem_of_here |].
           apply elem_of_cons. right. apply Hall. rewrite Hids1. set_solver.
        -- exists x. rewrite Hids1 in Hx. split; [set_solver |].
           replace (S m - 1)%nat with (S (m - 1)) by lia.
           cbn [take]. cbn. set_solver.
Qed.

(** While something pending never comes, the scan runs to the end of the
    play order and leaves exactly the ids that do not occur in it. *)
Lemma scan_tracks_uncovered (tracks : list Song) (count : Z) (st : scan) :
  (exists x, x ∈ card_track_ids st /\ x ∉ ref_ids tracks) ->
  card_track_ids (scan_tracks tracks count st) =
  card_track_ids st ∖ list_to_set (ref_ids tracks).
Proof.
  revert count st. induction tracks as [| song rest IH]; intros count st (x & Hx & Hout).
  - cbn. set_solver.
  - cbn [scan_tracks].
    remember (if decide (ref_id song ∈ card_track_ids st) then _ else _)
      as st1 eqn:Hst1.
    assert (Hids1 : card_track_ids st1 = card_track_ids st ∖ {[ ref_id song ]}).
    { rewrite Hst1. case_decide; cbn [card_track_ids]; [done | set_solver]. }
    clear Hst1. cbn in Hout. apply not_elem_of_cons in Hout as [Hne Hout].
    rewrite decide_False by (rewrite Hids1; set_solver).
    rewrite IH by (exists x; rewrite Hids1; set_solver).
    rewrite Hids1. cbn. set_solver.
Qed.

(** C3.  For a ticket with at least one song, all of whose songs occur in
    the play order, [get_when_ticket_wins] returns the least [p >= 1] such
    that every song of the ticket is among the first [p] entries; [p] is the
    largest of the positions at which the songs of the ticket first occur,
    and the scan visits exactly the first [p] entries. *)
Theorem get_when_ticket_wins_earliest (tracks : list Song) (ticket : BingoTicket) :
  card_tracks ticket <> [] ->
  (forall song, song ∈ card_tracks ticket -> ref_id song ∈ ref_ids tracks) ->
  exists p : nat,
    get_when_ticket_wins tracks ticket = Done (Z.of_nat p)
    /\ (1 <= p <= length tracks)%nat
    /\ (forall song, song ∈ card_tracks ticket -> ref_id song ∈ ref_ids (take p tracks))
    /\ (forall q, (q < p)%nat ->
          exists song, song ∈ card_tracks ticket /\ ref_id song ∉ ref_ids (take q tracks))
    /\ (exists song, song ∈ card_tracks ticket
                     /\ first_position (ref_id song) tracks = Some p)
    /\ (forall song, song ∈ card_tracks ticket ->
          exists i, first_position (ref_id song) tracks = Some i /\ (i <= p)%nat)
    /\ visited (scan_ticket tracks ticket) = p.
Proof.
  intros Hsongs Hcov.
  set (ids := list_to_set (ref_ids (card_tracks ticket)) : gset Z).
  assert (Hids : forall x, x ∈ ids <-> exists song, song ∈ card_tracks ticket /\ x = ref_id song).
  { intros x. unfold ids, ref_ids. rewrite elem_of_list_to_set, list_elem_of_fmap.
    naive_solver. }
  destruct (scan_tracks_covered tracks 1
              {| last_song := -1; card_track_ids := ids; visited := 0 |})
    as (p & Hp & Hscan & Hall & (x & Hx & Hout)).
  { cbn. destruct (card_tracks ticket) as [| song songs] eqn:Hct; [done |].
    intros Hempty.
    assert (Hin : ref_id song ∈ ids) by (apply Hids; exists song; split; [left | done]).
    rewrite Hempty in Hin. by apply not_elem_of_empty in Hin. }
  { cbn. intros x Hx. apply Hids in Hx as (song & Hsong & ->). by apply Hcov. }
  cbn in Hall, Hx.
  assert (Hfirst : forall song, song ∈ card_tracks ticket ->
            ref_id song ∈ ref_ids (take p tracks)).
  { intros song Hsong. apply Hall, Hids. eauto. }
  apply Hids in Hx as (worst & Hworst & ->).
  exists p. repeat split.
  - unfold get_when_ticket_wins, scan_ticket. fold ids. rewrite Hscan. cbn.
    f_equal. lia.
  - lia.
  - lia.
  - exact Hfirst.
  - intros q Hq. exists worst. split; [done |].
    intros Hin. apply Hout. apply (ref_ids_take_mono _ _ q); [lia | done].
  - exists worst. split; [done |].
    destruct (first_position_take _ _ _ (Hfirst worst Hworst)) as (i & Hi & Hle).
    pose proof (first_position_after _ _ _ _ Hout Hi). rewrite Hi. f_equal. lia.
  - intros song Hsong.
    destruct (first_position_take _ _ _ (Hfirst song Hsong)) as (i & Hi & Hle).
    exists i. split; [done | lia].
  - unfold scan_ticket. fold ids. rewrite Hscan. reflexivity.
Qed.

Lemma get_when_ticket_wins_earliest_witness :
  exists p : nat,
    get_when_ticket_wins example_songs
      {| card_id := 35; card_tracks := reverse (take 2 (drop 2 example_songs));
         ticket_number := None |} = Done (Z.of_nat p)
    /\ p = 4%nat.
Proof.
  destruct (get_when_ticket_wins_earliest example_songs
              {| card_id := 35;
                 card_tracks := reverse (take 2 (drop 2 example_songs));
                 ticket_number := None |}) as (p & Hp & _).
  - discriminate.
  - intros song Hsong. apply list_elem_of_In in Hsong. vm_compute in Hsong.
    destruct Hsong as [<- | [<- | []]]; apply list_elem_of_In; vm_compute;
      repeat (first [left; reflexivity | right]).
  - exists p. split; [exact Hp |].
    assert (H4 : get_when_ticket_wins example_songs
                   {| card_id := 35;
                      card_tracks := reverse (take 2 (drop 2 example_songs));
                      ticket_number := None |} = Done 4)
      by (vm_compute; reflexivity).
    rewrite H4 in Hp. injection Hp as Hp. lia.
Defined.

(** C4.  [get_when_ticket_wins] raises exactly when some song of the ticket
    occurs nowhere in the play order, and the error then names the ref_ids
    that are missing.  The function is a function of its two arguments and
    changes nothing but its own pending set. *)
Theorem get_when_ticket_wins_raises (tracks : list Song) (ticket : BingoTicket) :
  (raises (get_when_ticket_wins tracks ticket)
   <-> exists song, song ∈ card_tracks ticket /\ ref_id song ∉ ref_ids tracks)
  /\ (forall e, get_when_ticket_wins tracks ticket = Raise e ->
        e = ValueError (TicketNeverWins
              (list_to_set (ref_ids (card_tracks ticket))
                 ∖ list_to_set (ref_ids tracks)))).
Proof.
  set (ids := list_to_set (ref_ids (card_tracks ticket)) : gset Z).
  assert (Hids : forall x, x ∈ ids <-> exists song, song ∈ card_tracks ticket /\ x = ref_id song).
  { intros x. unfold ids, ref_ids. rewrite elem_of_list_to_set, list_elem_of_fmap.
    naive_solver. }
  set (st0 := {| last_song := -1; card_track_ids := ids; visited := 0 |}).
  destruct (decide (Forall (fun song => ref_id song ∈ ref_ids tracks) (card_tracks ticket)))
    as [Hall | Hsome].
  - (* every song occurs: the scan empties the pending set *)
    rewrite Forall_forall in Hall.
    assert (Hdone : card_track_ids (scan_tracks tracks 1 st0) = ∅).
    { destruct (decide (ids = ∅)) as [Hempty | Hne].
      - by apply scan_tracks_nothing_pending.
      - destruct (scan_tracks_covered tracks 1 st0) as (m & _ & -> & _); [done | | done].
        intros x Hx. apply Hids in Hx as (song & Hsong & ->). by apply Hall. }
    unfold get_when_ticket_wins, scan_ticket. fold ids st0.
    rewrite decide_True by assumption. split; [split |].
    + intros [e He]. discriminate.
    + intros (song & Hsong & Hout). exfalso. by apply Hout, Hall.
    + intros e He. discriminate.
  - (* some song never occurs: the scan runs out with it pending *)
    apply not_Forall_Exists in Hsome; [| intros song; apply _].
    apply Exists_exists in Hsome as (song & Hsong & Hout).
    assert (Hleft : card_track_ids (scan_tracks tracks 1 st0)
                    = ids ∖ list_to_set (ref_ids tracks)).
    { apply (scan_tracks_uncovered tracks 1 st0).
      exists (ref_id song). split; [apply Hids; eauto | done]. }
    assert (Hne : card_track_ids (scan_tracks tracks 1 st0) <> ∅).
    { rewrite Hleft. intros Hempty.
      assert (Hin : ref_id song ∈ ids ∖ list_to_set (ref_ids tracks)).
      { apply elem_of_difference. split; [apply Hids; eauto |].
        by rewrite elem_of_list_to_set. }
      rewrite Hempty in Hin. by apply not_elem_of_empty in Hin. }
    unfold get_when_ticket_wins, scan_ticket. fold ids st0.
    rewrite decide_False by assumption. rewrite Hleft. split; [split |].
    + intros _. eauto.
    + intros _. unfold raises. eauto.
    + intros e [= <-]. reflexivity.
Qed.

(** C9.  A ticket without songs "wins" at [-1], whatever the play order:
    [get_when_ticket_wins] neither raises nor returns a position of the
    play order. *)
Theorem get_when_ticket_wins_empty_ticket (tracks : list Song) (ticket : BingoTicket) :
  card_tracks ticket = [] ->
  get_when_ticket_wins tracks ticket = Done (-1)
  /\ ~ (1 <= -1 <= Z.of_nat (length tracks)).
Proof.
  intros Hempty. split; [| lia].
  unfold get_when_ticket_wins, scan_ticket. rewrite Hempty. cbn [ref_ids fmap list_fmap].
  destruct (scan_tracks_nothing_pending tracks 1
              {| last_song := -1; card_track_ids := list_to_set []; visited := 0 |})
    as [Hids Hlast]; [reflexivity |].
  rewrite decide_True by assumption. rewrite Hlast. reflexivity.
Qed.

Lemma get_when_ticket_wins_empty_ticket_witness :
  get_when_ticket_wins example_songs
    {| card_id := 1; card_tracks := []; ticket_number := None |} = Done (-1)
  /\ get_when_ticket_wins []
       {| card_id := 1; card_tracks := []; ticket_number := None |} = Done (-1).
Proof.
  split.
  - apply (get_when_ticket_wins_empty_ticket example_songs
             {| card_id := 1; card_tracks := []; ticket_number := None |} eq_refl).
  - apply (get_when_ticket_wins_empty_ticket []
             {| card_id := 1; card_tracks := []; ticket_number := None |} eq_refl).
Defined.

(** ** The page sequencer *)

Lemma interleave_Permutation {A : Type} (first_third second_third third_third : list A) :
  (length second_third <= length first_third)%nat ->
  (length third_third <= length first_third)%nat ->
  interleave first_third second_third third_third
    ≡ₚ first_third ++ second_third ++ third_third.
Proof.
  revert second_third third_third.
  induction first_third as [| c1 band1 IH]; intros band2 band3 H2 H3.
  - destruct band2, band3; simpl in *; try lia. reflexivity.
  - destruct band2 as [| c2 band2], band3 as [| c3 band3]; simpl in *;
      rewrite IH by (simpl; lia); simpl; apply Permutation_skip;
      rewrite <- ?Permutation_middle; reflexivity.
Qed.

Lemma clamp_index_inside (n i : Z) :
  0 <= i <= n -> Py.clamp_index n i = Z.to_nat i.
Proof.
  intros Hi. unfold Py.clamp_index.
  destruct (Z.ltb_spec i 0); [lia |]. f_equal. lia.
Qed.

(** [math.ceil] and [math.floor] of [number_of_cards / 3]. *)
Lemma third_ceil_floor (n : Z) :
  Py.ceil (inject_Z n / 3) = (n + 2) / 3 /\ Py.floor (inject_Z n / 3) = n / 3.
Proof.
  unfold Py.ceil, Py.floor, Qceiling, Qfloor, Qdiv, Qmult, Qinv, Qopp, inject_Z.
  cbn [Qnum Qden]. replace (n * 1) with n by lia. cbn [Pos.mul].
  split; [Z.div_mod_to_equations; lia | reflexivity].
Qed.

Lemma Qfloor_ceiling_between (y : Q) (q : Z) :
  (inject_Z q < y)%Q -> (y < inject_Z (q + 1))%Q ->
  Qfloor y = q /\ Qceiling y = q + 1.
Proof.
  intros Hlo Hhi.
  pose proof (Qfloor_le y) as H1. pose proof (Qlt_floor y) as H2.
  pose proof (Qle_ceiling y) as H3. pose proof (Qceiling_lt y) as H4.
  assert (H5 : (inject_Z (Qfloor y) < inject_Z (q + 1))%Q) by lra.
  assert (H6 : (inject_Z q < inject_Z (Qfloor y + 1))%Q) by lra.
  assert (H7 : (inject_Z q < inject_Z (Qceiling y))%Q) by lra.
  assert (H8 : (inject_Z (Qceiling y - 1) < inject_Z (q + 1))%Q) by lra.
  rewrite <- Zlt_Qlt in H5, H6, H7, H8. lia.
Qed.

(** Below [2^50] tickets the float [number_of_cards / 3] has the ceiling and
    the floor of the exact quotient. *)
Lemma truediv_third (n : Z) :
  0 <= n < 2 ^ 50 ->
  Py.ceil (Py.truediv n 3) = Py.ceil (inject_Z n / 3)
  /\ Py.floor (Py.truediv n 3) = Py.floor (inject_Z n / 3).
Proof.
  intros Hn. unfold Py.truediv, Py.ceil, Py.floor.
  change (inject_Z 3) with 3%Q.
  destruct (Z.eq_dec (n mod 3) 0) as [H0 | H0].
  - assert (Hx : (Py.binary64 (inject_Z n / 3) == inject_Z n / 3)%Q).
    { apply (binary64_exact _ (n / 3) 0); [lia | | ].
      - apply Z.abs_lt. split; [| apply Z.div_lt_upper_bound]; Z.div_mod_to_equations; lia.
      - replace n with (3 * (n / 3)) at 1 by (Z.div_mod_to_equations; lia).
        rewrite inject_Z_mult. change (inject_Z 3) with 3%Q. field. }
    split; [apply Qceiling_comp | apply Qfloor_comp]; exact Hx.
  - assert (Hr : exists q, n = 3 * q + 1 \/ n = 3 * q + 2)
      by (exists (n / 3); Z.div_mod_to_equations; lia).
    destruct Hr as [q Hr].
    set (x := (inject_Z n / 3)%Q).
    assert (Hq : (inject_Z q + (1 # 3) <= x)%Q /\ (x <= inject_Z q + (2 # 3))%Q).
    { destruct Hr as [Hr | Hr].
      - assert (Hxq : (x == inject_Z q + (1 # 3))%Q).
        { unfold x. rewrite Hr, inject_Z_plus, inject_Z_mult.
          change (inject_Z 3) with 3%Q. change (inject_Z 1) with 1%Q. field. }
        split; lra.
      - assert (Hxq : (x == inject_Z q + (2 # 3))%Q).
        { unfold x. rewrite Hr, inject_Z_plus, inject_Z_mult.
          change (inject_Z 3) with 3%Q. change (inject_Z 2) with 2%Q. field. }
        split; lra. }
    assert (Hx : (0 <= x)%Q /\ (x <= inject_Z (2 ^ 50))%Q).
    { assert (H1 : (inject_Z 0 <= inject_Z n)%Q) by (rewrite <- Zle_Qle; lia).
      assert (H2 : (inject_Z n <= inject_Z (2 ^ 50))%Q) by (rewrite <- Zle_Qle; lia).
      change (inject_Z 0) with 0%Q in H1.
      assert (Hxn : (x * 3 == inject_Z n)%Q) by (unfold x; field).
      split; lra. }
    pose proof (binary64_error x) as Herr.
    rewrite (Qabs_pos x) in Herr by tauto.
    apply Qabs_Qle_condition in Herr.
    assert (Hc1 : (2 ^ (-53) == 1 # 9007199254740992)%Q) by reflexivity.
    assert (Hc2 : (2 ^ (-1075) <= 1 # 8)%Q) by (vm_compute; discriminate).
    assert (Hc3 : (inject_Z (2 ^ 50) == 1125899906842624)%Q) by reflexivity.
    rewrite Hc1 in Herr. rewrite Hc3 in Hx.
    revert Herr Hc2. generalize (2 ^ (-1075))%Q. intros eps Herr Hc2.
    assert (Hlo : (inject_Z q < Py.binary64 x)%Q) by lra.
    assert (Hhi : (Py.binary64 x < inject_Z (q + 1))%Q).
    { rewrite inject_Z_plus. change (inject_Z 1) with 1%Q. lra. }
    assert (Hlo' : (inject_Z q < x)%Q) by lra.
    assert (Hhi' : (x < inject_Z (q + 1))%Q).
    { rewrite inject_Z_plus. change (inject_Z 1) with 1%Q. lra. }
    destruct (Qfloor_ceiling_between _ _ Hlo Hhi) as [-> ->].
    destruct (Qfloor_ceiling_between _ _ Hlo' Hhi') as [-> ->].
    done.
Qed.

(** The bound is there for a reason: at [3 * 2^52 + 1] tickets the float
    quotient is a whole number, one below the ceiling of the third. *)
Lemma truediv_third_beyond :
  Py.ceil (Py.truediv (3 * 2 ^ 52 + 1) 3) = 2 ^ 52
  /\ Py.ceil (inject_Z (3 * 2 ^ 52 + 1) / 3) = 2 ^ 52 + 1.
Proof. split; vm_compute; reflexivity. Qed.

Lemma truediv_third_nonneg (n : Z) :
  0 <= n -> 0 <= Py.ceil (Py.truediv n 3) /\ 0 <= Py.floor (Py.truediv n 3).
Proof.
  intros Hn. unfold Py.truediv, Py.ceil, Py.floor.
  assert (Hx : (0 <= Py.binary64 (inject_Z n / inject_Z 3))%Q).
  { apply binary64_nonneg. apply Qle_shift_div_l; [reflexivity |].
    rewrite Qmult_0_l. change 0%Q with (inject_Z 0). rewrite <- Zle_Qle. lia. }
  pose proof (Qle_ceiling (Py.binary64 (inject_Z n / inject_Z 3))) as Hc.
  pose proof (Qlt_floor (Py.binary64 (inject_Z n / inject_Z 3))) as Hf.
  assert (H1 : (inject_Z (-1) < inject_Z (Qceiling (Py.binary64 (inject_Z n / inject_Z 3))))%Q)
    by (change (inject_Z (-1)) with (-1 # 1)%Q; lra).
  assert (H2 : (inject_Z 0
                < inject_Z (Qfloor (Py.binary64 (inject_Z n / inject_Z 3)) + 1))%Q)
    by (change (inject_Z 0) with 0%Q; lra).
  rewrite <- Zlt_Qlt in H1, H2. lia.
Qed.

(** The three bands of [sort_cards_by_page] for a list of [number_of_cards]
    tickets. *)
Lemma sort_cards_by_page_bands (options : Options) (cards : list BingoTicket) :
  Z.of_nat (length cards) = number_of_cards options ->
  number_of_cards options < 2 ^ 50 ->
  let noc3c := Z.to_nat (Py.ceil (inject_Z (number_of_cards options) / 3)) in
  let noc3f := Z.to_nat (Py.floor (inject_Z (number_of_cards options) / 3)) in
  sort_cards_by_page options cards =
  interleave (take noc3c cards) (take noc3f (drop noc3c cards))
             (drop (noc3c + noc3f) cards).
Proof.
  intros Hlen Hrange noc3c noc3f. unfold sort_cards_by_page, Py.slice.
  destruct (truediv_third (number_of_cards options)) as [-> ->]; [lia |].
  destruct (third_ceil_floor (number_of_cards options)) as [Hc Hf].
  fold noc3c noc3f in |- *.
  assert (H0 : 0 <= number_of_cards options) by lia.
  assert (Hc' : Py.ceil (inject_Z (number_of_cards options) / 3) = Z.of_nat noc3c)
    by (subst noc3c; rewrite Hc; Z.div_mod_to_equations; lia).
  assert (Hf' : Py.floor (inject_Z (number_of_cards options) / 3) = Z.of_nat noc3f)
    by (subst noc3f; rewrite Hf; Z.div_mod_to_equations; lia).
  assert (Hsum : Z.of_nat noc3c + Z.of_nat noc3f <= number_of_cards options).
  { rewrite <- Hc', <- Hf', Hc, Hf. Z.div_mod_to_equations; lia. }
  rewrite Hc', Hf', Hlen.
  rewrite !clamp_index_inside by lia.
  change (Z.to_nat 0) with 0%nat. rewrite Nat.sub_0_r, drop_0, !Nat2Z.id.
  replace (Z.to_nat (Z.of_nat noc3c + Z.of_nat noc3f)) with (noc3c + noc3f)%nat by lia.
  replace (noc3c + noc3f - noc3c)%nat with noc3f by lia.
  replace (Z.to_nat (number_of_cards options) - (noc3c + noc3f))%nat
    with (length (drop (noc3c + noc3f) cards))
    by (rewrite length_drop; lia).
  rewrite firstn_all. reflexivity.
Qed.

Lemma interleave_lookup {A : Type} (first_third second_third third_third : list A) (i : nat) :
  (i < length first_third)%nat ->
  (i < length second_third)%nat ->
  (i < length third_third)%nat ->
  interleave first_third second_third third_third !! (3 * i)%nat = first_third !! i
  /\ interleave first_third second_third third_third !! (3 * i + 1)%nat = second_third !! i
  /\ interleave first_third second_third third_third !! (3 * i + 2)%nat = third_third !! i.
Proof.
  revert first_third second_third third_third.
  induction i as [| i IH]; intros [| c1 band1] [| c2 band2] [| c3 band3] H1 H2 H3;
    simpl in H1, H2, H3; try lia.
  - repeat split.
  - replace (3 * S i)%nat with (S (S (S (3 * i)))) by lia.
    cbn [interleave Nat.add lookup list_lookup].
    apply IH; lia.
Qed.

(** C6.  On a list of [number_of_cards] tickets, [sort_cards_by_page] cuts
    the list into three contiguous bands of [ceil(T/3)], [floor(T/3)] and
    the remaining tickets and deals them out in turn: it returns a
    permutation of its input, the tickets themselves (and so their numbers)
    unchanged; during the first [floor(T/3)] rounds every round takes one
    ticket of each band; nine tickets numbered 1..9 come out as
    1,4,7,2,5,8,3,6,9.  (A list of tickets has fewer than [2^50] entries;
    there the float [T / 3] has the ceiling and the floor of the exact
    third.) *)
Theorem sort_cards_by_page_permutation (options : Options) (cards : list BingoTicket) :
  Z.of_nat (length cards) = number_of_cards options ->
  number_of_cards options < 2 ^ 50 ->
  let T := number_of_cards options in
  let noc3c := Py.ceil (inject_Z T / 3) in
  let noc3f := Py.floor (inject_Z T / 3) in
  sort_cards_by_page options cards ≡ₚ cards
  /\ ticket_number <$> sort_cards_by_page options cards ≡ₚ ticket_number <$> cards
  /\ (exists band1 band2 band3,
        cards = band1 ++ band2 ++ band3
        /\ Z.of_nat (length band1) = noc3c
        /\ Z.of_nat (length band2) = noc3f
        /\ Z.of_nat (length band3) = T - noc3c - noc3f
        /\ sort_cards_by_page options cards = interleave band1 band2 band3)
  /\ (forall i : nat, Z.of_nat i < noc3f ->
        sort_cards_by_page options cards !! (3 * i)%nat = cards !! i
        /\ sort_cards_by_page options cards !! (3 * i + 1)%nat
           = cards !! (Z.to_nat noc3c + i)%nat
        /\ sort_cards_by_page options cards !! (3 * i + 2)%nat
           = cards !! (Z.to_nat noc3c + Z.to_nat noc3f + i)%nat)
  /\ (T = 9 ->
      ticket_number <$> cards = Some <$> [1; 2; 3; 4; 5; 6; 7; 8; 9] ->
      ticket_number <$> sort_cards_by_page options cards
        = Some <$> [1; 4; 7; 2; 5; 8; 3; 6; 9]).
Proof.
  intros Hlen Hrange T noc3c noc3f.
  pose proof (sort_cards_by_page_bands options cards Hlen Hrange) as Hbands.
  cbv zeta in Hbands. fold T noc3c noc3f in Hbands.
  destruct (third_ceil_floor T) as [Hc Hf]. fold noc3c noc3f in Hc, Hf.
  assert (H0 : 0 <= T) by (subst T; lia).
  assert (Hc3 : 0 <= noc3c <= T) by (rewrite Hc; Z.div_mod_to_equations; lia).
  assert (Hf3 : 0 <= noc3f <= noc3c) by (rewrite Hc, Hf; Z.div_mod_to_equations; lia).
  assert (Hr3 : noc3f <= T - noc3c - noc3f <= noc3c)
    by (rewrite Hc, Hf; Z.div_mod_to_equations; lia).
  set (band1 := take (Z.to_nat noc3c) cards) in *.
  set (band2 := take (Z.to_nat noc3f) (drop (Z.to_nat noc3c) cards)) in *.
  set (band3 := drop (Z.to_nat noc3c + Z.to_nat noc3f) cards) in *.
  assert (Hl1 : Z.of_nat (length band1) = noc3c)
    by (subst band1; rewrite length_take; lia).
  assert (Hl2 : Z.of_nat (length band2) = noc3f)
    by (subst band2; rewrite length_take, length_drop; lia).
  assert (Hl3 : Z.of_nat (length band3) = T - noc3c - noc3f)
    by (subst band3; rewrite length_drop; lia).
  assert (Hsplit : cards = band1 ++ band2 ++ band3).
  { subst band1 band2 band3.
    rewrite <- drop_drop, take_drop, take_drop. reflexivity. }
  assert (Hperm : sort_cards_by_page options cards ≡ₚ cards).
  { rewrite Hbands. transitivity (band1 ++ band2 ++ band3).
    - apply interleave_Permutation; lia.
    - rewrite <- Hsplit. reflexivity. }
  split; [exact Hperm |].
  split; [by rewrite Hperm |].
  split; [exists band1, band2, band3; by repeat split |].
  split.
  - intros i Hi. rewrite Hbands.
    destruct (interleave_lookup band1 band2 band3 i) as (E1 & E2 & E3); [lia .. |].
    rewrite E1, E2, E3. subst band1 band2 band3. repeat split.
    + apply lookup_take_lt. lia.
    + rewrite lookup_take_lt by lia. apply lookup_drop.
    + apply lookup_drop.
  - intros H9 Hnum. rewrite Hbands. subst band1 band2 band3 noc3c noc3f.
    rewrite H9. fold T in Hlen. rewrite H9 in Hlen.
    clear -Hlen Hnum.
    do 9 (destruct cards as [| ? cards]; [simpl in Hlen; lia |]).
    destruct cards; [| simpl in Hlen; lia].
    change (Z.to_nat (Py.ceil (inject_Z 9 / 3))) with 3%nat.
    change (Z.to_nat (Py.floor (inject_Z 9 / 3))) with 3%nat.
    cbn in Hnum |- *. congruence.
Qed.

Lemma sort_cards_by_page_permutation_witness :
  let options := {| mode := BINGO; game_id := "1"; number_of_cards := 9;
                    songs_per_ticket := 3; page_order := true |} in
  let cards := number_cards (replicate 9 new_ticket) in
  sort_cards_by_page options cards ≡ₚ cards
  /\ ticket_number <$> sort_cards_by_page options cards
     = Some <$> [1; 4; 7; 2; 5; 8; 3; 6; 9].
Proof.
  intros options cards.
  destruct (sort_cards_by_page_permutation options cards eq_refl eq_refl)
    as (Hperm & _ & _ & _ & Hnine).
  split; [exact Hperm | apply Hnine; reflexivity].
Defined.

(** ** The generator: what a completed run establishes *)

Lemma bind_Done {A B : Type} (c : Gen A) (k : A -> Gen B) (g g' : GameGenerator) (b : B) :
  bind c k g = Done (b, g') ->
  exists a g1, c g = Done (a, g1) /\ k a g1 = Done (b, g').
Proof.
  unfold bind. destruct (c g) as [[a g1] | e |]; [eauto | discriminate | discriminate].
Qed.

Lemma ret_Done {A : Type} (a b : A) (g g' : GameGenerator) :
  ret a g = Done (b, g') -> a = b /\ g = g'.
Proof. unfold ret. intros [= -> ->]. done. Qed.

Lemma lift_Done {A : Type} (o : outcome A) (a : A) (g g' : GameGenerator) :
  lift o g = Done (a, g') -> o = Done a /\ g = g'.
Proof. unfold lift. destruct o; cbn; [intros [= -> ->]; done | discriminate ..]. Qed.

(** Peel the first step off a run that is known to have returned. *)
Ltac step_run H x g Hx :=
  apply bind_Done in H as (x & g & Hx & H).

Lemma randbelow_Done (n : Z) (g g' : GameGenerator) (r : Z) :
  randbelow n g = Done (r, g') ->
  used_card_ids g' = used_card_ids g /\ 0 <= r < n.
Proof.
  unfold randbelow. destruct (Z.leb_spec n 0); [discriminate |].
  destruct (secrets_entropy g); [discriminate |].
  intros [= <- <-]. split; [reflexivity | by apply Z.mod_pos_bound].
Qed.

Lemma random_randbelow_Done (n : Z) (g g' : GameGenerator) (r : Z) :
  random_randbelow n g = Done (r, g') ->
  used_card_ids g' = used_card_ids g.
Proof.
  unfold random_randbelow. destruct (random_entropy g); [discriminate |].
  by intros [= <- <-].
Qed.

Lemma randrange_Done (start stop : Z) (g g' : GameGenerator) (r : Z) :
  randrange start stop g = Done (r, g') ->
  used_card_ids g' = used_card_ids g /\ start <= r < stop.
Proof.
  unfold randrange. intros H. step_run H x g1 Hx.
  apply randbelow_Done in Hx as [Hused Hx].
  apply ret_Done in H as [<- <-]. split; [done | lia].
Qed.

Lemma pick_index_Done (fuel : nat) (n : Z) (picked : gset Z)
    (g g' : GameGenerator) (index : Z) :
  pick_index fuel n picked g = Done (index, g') ->
  used_card_ids g' = used_card_ids g /\ (index ∉ picked) /\ 0 <= index < n.
Proof.
  revert g. induction fuel as [| fuel IH]; intros g H; [discriminate |].
  cbn [pick_index] in H. step_run H x g1 Hx.
  apply randbelow_Done in Hx as [Hused Hx].
  case_decide.
  - apply IH in H as (-> & ? & ?). done.
  - apply ret_Done in H as [<- <-]. done.
Qed.

(** What one pass of the composer's loop does: it extends the ticket by the
    song at an index not drawn before; a ticket that is complete is accepted
    and its key registered if the key is new, and otherwise the whole draw
    is dropped and the composer starts again from the empty ticket. *)
Lemma select_step_Done (songs : list Song) (num_tracks : Z) (picked : gset Z)
    (card : BingoTicket) (g g' : GameGenerator)
    (valid : bool) (picked' : gset Z) (card' : BingoTicket) :
  select_step songs num_tracks picked card g = Done (valid, picked', card', g') ->
  exists index song,
    (index ∉ picked) /\ 0 <= index /\ songs !! Z.to_nat index = Some song /\
    let key := card_id card * song_id song in
    let complete := Z.of_nat (length (card_tracks card ++ [song])) = num_tracks in
    (complete /\ key ∈ used_card_ids g
     /\ valid = false /\ picked' = ∅ /\ card_id card' = 1 /\ card_tracks card' = []
     /\ used_card_ids g' = used_card_ids g)
    \/ (complete /\ (key ∉ used_card_ids g)
        /\ valid = true /\ picked' = picked ∪ {[ index ]} /\ card_id card' = key
        /\ card_tracks card' = card_tracks card ++ [song]
        /\ used_card_ids g' = used_card_ids g ∪ {[ key ]})
    \/ (~ complete
        /\ valid = false /\ picked' = picked ∪ {[ index ]} /\ card_id card' = key
        /\ card_tracks card' = card_tracks card ++ [song]
        /\ used_card_ids g' = used_card_ids g).
Proof.
  unfold select_step. intros H. step_run H index g1 Hindex.
  unfold with_fuel in Hindex. apply pick_index_Done in Hindex as (Hused & Hnew & Hrange).
  destruct (songs !! Z.to_nat index) as [song |] eqn:Hsong; [| discriminate].
  exists index, song. split; [done |]. split; [lia |]. split; [done |].
  cbn [card_tracks card_id] in H. cbv zeta.
  destruct (Z.eqb_spec (Z.of_nat (length (card_tracks card ++ [song]))) num_tracks)
    as [Hfull | Hpart].
  - step_run H used g2 Hget. injection Hget as <- <-.
    case_decide as Hdup.
    + apply ret_Done in H as [[= <- <- <-] <-].
      rewrite Hused in Hdup. left. done.
    + step_run H u g3 Hadd. injection Hadd as _ <-.
      apply ret_Done in H as [[= <- <- <-] <-].
      rewrite Hused in Hdup. right. left. cbn. rewrite Hused. done.
  - apply ret_Done in H as [[= <- <- <-] <-]. right. right. done.
Qed.

Lemma key_of_app (songs : list Song) (song : Song) :
  key_of (songs ++ [song]) = key_of songs * song_id song.
Proof. unfold key_of. by rewrite fold_left_app. Qed.

(** Drawing one more index keeps the ticket in step with the indices. *)
Lemma drawn_from_snoc (songs : list Song) (idxs : list Z) (card card' : BingoTicket)
    (index : Z) (song : Song) :
  drawn_from songs idxs card ->
  index ∉ idxs -> 0 <= index -> songs !! Z.to_nat index = Some song ->
  card_id card' = card_id card * song_id song ->
  card_tracks card' = card_tracks card ++ [song] ->
  drawn_from songs (idxs ++ [index]) card'.
Proof.
  intros (Hnd & Hpos & Hall & Hkey) Hnew Hindex Hsong Hid Htracks.
  split; [| split; [| split]].
  - apply NoDup_app. split; [done |]. split; [| apply NoDup_singleton].
    intros i Hi ->%list_elem_of_singleton. done.
  - intros i [Hi | ->%list_elem_of_singleton]%elem_of_app; [by apply Hpos | done].
  - rewrite Htracks. apply Forall2_app; [done |]. by constructor.
  - rewrite Hid, Htracks, key_of_app, Hkey. done.
Qed.

Lemma select_loop_Done (fuel : nat) (songs : list Song) (num_tracks : Z)
    (idxs : list Z) (card card' : BingoTicket) (g g' : GameGenerator) :
  drawn_from songs idxs card ->
  select_loop false fuel songs num_tracks (list_to_set idxs) card g = Done (card', g') ->
  (card_id card' ∉ used_card_ids g)
  /\ used_card_ids g' = used_card_ids g ∪ {[ card_id card' ]}
  /\ well_composed songs num_tracks card'.
Proof.
  revert idxs card g. induction fuel as [| fuel IH]; intros idxs card g Hdrawn H;
    [discriminate |].
  cbn [select_loop] in H. step_run H r g1 Hstep.
  destruct r as [[valid picked1] card1].
  apply select_step_Done in Hstep
    as (index & song & Hnew & Hindex & Hsong & Hcases).
  cbv zeta in Hcases.
  rewrite elem_of_list_to_set in Hnew.
  assert (Hpicked : list_to_set idxs ∪ {[ index ]} = list_to_set (idxs ++ [index])
                    :> gset Z).
  { rewrite list_to_set_app_L. cbn. set_solver. }
  destruct Hcases as [(_ & _ & -> & -> & Hid & Htracks & Hused)
                     | [(Hfull & Hout & -> & _ & Hid & Htracks & Hused)
                       | (_ & -> & -> & Hid & Htracks & Hused)]].
  - (* the draw is dropped *)
    apply (IH []) in H as (Hfresh & Hfin & Hwell).
    + rewrite Hused in Hfresh, Hfin. done.
    + split; [apply NoDup_nil_2 |]. split; [by intros ? ?%elem_of_nil |].
      rewrite Htracks, Hid. split; [constructor | reflexivity].
  - (* the ticket is accepted *)
    apply ret_Done in H as [<- <-]. rewrite Hid. split; [done |]. split; [done |].
    split; [by rewrite Htracks |].
    split; [rewrite Htracks; by destruct (card_tracks card) |].
    exists (idxs ++ [index]). by apply (drawn_from_snoc _ _ card _ _ song).
  - (* the ticket grows *)
    rewrite Hpicked in H. apply IH in H as (Hfresh & Hfin & Hwell).
    + rewrite Hused in Hfresh, Hfin. done.
    + by apply (drawn_from_snoc _ _ card _ _ song).
Qed.

Lemma select_songs_for_ticket_Done (songs : list Song) (card card' : BingoTicket)
    (num_tracks : Z) (g g' : GameGenerator) :
  select_songs_for_ticket false songs card num_tracks g = Done (card', g') ->
  (card_id card' ∉ used_card_ids g)
  /\ used_card_ids g' = used_card_ids g ∪ {[ card_id card' ]}
  /\ well_composed songs num_tracks card'.
Proof.
  unfold select_songs_for_ticket, with_fuel.
  apply (select_loop_Done _ _ _ []).
  split; [apply NoDup_nil_2 |]. split; [by intros ? ?%elem_of_nil |].
  split; [constructor | reflexivity].
Qed.

Section GenerateAtPoint.

Variable options : Options.
Variable tracks : list Song.
Variable from_end : Z.

(** One pass of the loop of [generate_at_point]: the composer registers the
    key of a new ticket; if the ticket wins at the point asked for it is
    appended and its key stays registered, otherwise the pass removes the
    key again and the used-key set is what it was before the pass. *)
Lemma generate_step_Done (count : Z) (cards : list BingoTicket)
    (g g' : GameGenerator) (r : option (Z * list BingoTicket)) :
  generate_step options false tracks from_end count cards g = Done (r, g') ->
  exists card g_mid win_point,
    select_songs_for_ticket false tracks new_ticket (songs_per_ticket options) g
      = Done (card, g_mid)
    /\ (card_id card ∉ used_card_ids g)
    /\ card_id card ∈ used_card_ids g_mid
    /\ well_composed tracks (songs_per_ticket options) card
    /\ get_when_ticket_wins tracks card = Done win_point
    /\ ((win_point <> Z.of_nat (length tracks) - from_end
         /\ r = Some (count, cards)
         /\ (card_id card ∉ used_card_ids g')
         /\ used_card_ids g' = used_card_ids g)
        \/ (win_point = Z.of_nat (length tracks) - from_end
            /\ r = Some (count + 1, cards ++ [card])
            /\ card_id card ∈ used_card_ids g'
            /\ used_card_ids g' = used_card_ids g ∪ {[ card_id card ]})).
Proof.
  unfold generate_step. intros H. step_run H card g1 Hcard.
  pose proof Hcard as Hsel.
  apply select_songs_for_ticket_Done in Hcard as (Hfresh & Hused & Hwell).
  step_run H win_point g2 Hwin. apply lift_Done in Hwin as [Hwin <-].
  exists card, g1, win_point.
  assert (Hreg : card_id card ∈ used_card_ids g1) by (rewrite Hused; set_solver).
  do 5 (split; [done |]).
  destruct (Z.eqb_spec win_point (Z.of_nat (length tracks) - from_end)) as [Heq | Hne];
    cbn [negb] in H.
  - apply ret_Done in H as [<- <-]. right. done.
  - step_run H u g3 Hrm. apply ret_Done in H as [<- <-]. left.
    unfold remove_used in Hrm. case_decide; [| discriminate].
    injection Hrm as _ <-. cbn. rewrite Hused.
    split; [done |]. split; [done |]. split; set_solver.
Qed.

Lemma generate_loop_Done (fuel : nat) (amount count : Z) (cards res : list BingoTicket)
    (g g' : GameGenerator) :
  generate_loop options false fuel tracks amount from_end count cards g = Done (res, g') ->
  exists new,
    res = cards ++ new
    /\ Z.of_nat (length new) = Z.max 0 (amount - count)
    /\ NoDup (card_id <$> new)
    /\ (forall card, card ∈ new -> accepted_at options tracks from_end g card)
    /\ used_card_ids g' = used_card_ids g ∪ list_to_set (card_id <$> new).
Proof.
  revert count cards g. induction fuel as [| fuel IH]; intros count cards g H.
  - cbn [generate_loop] in H. destruct (Z.ltb_spec count amount); [discriminate |].
    apply ret_Done in H as [<- <-]. exists []. rewrite app_nil_r. cbn.
    split; [done |]. split; [lia |]. split; [apply NoDup_nil_2 |].
    split; [by intros ? ?%elem_of_nil | set_solver].
  - cbn [generate_loop] in H. destruct (Z.ltb_spec count amount) as [Hlt | Hge].
    + step_run H r g1 Hstep.
      apply generate_step_Done in Hstep
        as (card & g_mid & win_point & _ & Hfresh & _ & Hwell & Hwin
            & [(_ & -> & _ & Hused) | (-> & -> & _ & Hused)]).
      * apply IH in H as (new & -> & Hlen & Hnd & Hall & Hfin).
        exists new. unfold accepted_at in *. rewrite Hused in Hall, Hfin. done.
      * apply IH in H as (new & -> & Hlen & Hnd & Hall & Hfin).
        exists (card :: new). rewrite <- app_assoc. split; [done |].
        split; [cbn [length]; lia |]. split; [| split].
        -- cbn. apply NoDup_cons. split; [| done].
           intros (c & Hid & Hc)%list_elem_of_fmap.
           destruct (Hall c Hc) as [Hout _]. apply Hout. rewrite Hused, <- Hid.
           set_solver.
        -- intros c [-> | Hc]%elem_of_cons; [done |].
           destruct (Hall c Hc) as (Hout & Hw & Hc'). split; [| done].
           rewrite Hused in Hout. set_solver.
        -- rewrite Hfin, Hused. cbn. set_solver.
    + apply ret_Done in H as [<- <-]. exists []. rewrite app_nil_r. cbn.
      split; [done |]. split; [lia |]. split; [apply NoDup_nil_2 |].
      split; [by intros ? ?%elem_of_nil | set_solver].
Qed.

Lemma generate_at_point_Done (amount : Z) (cards : list BingoTicket)
    (g g' : GameGenerator) :
  generate_at_point options false tracks amount from_end g = Done (cards, g') ->
  Z.of_nat (length cards) = Z.max 0 amount
  /\ NoDup (card_id <$> cards)
  /\ (forall card, card ∈ cards -> accepted_at options tracks from_end g card)
  /\ used_card_ids g' = used_card_ids g ∪ list_to_set (card_id <$> cards).
Proof.
  unfold generate_at_point, with_fuel. intros H.
  apply generate_loop_Done in H as (new & -> & Hlen & Hrest).
  rewrite Z.sub_0_r in Hlen. done.
Qed.

End GenerateAtPoint.

(** *** Lists: [insert], [swap], [enumerate] *)

Lemma py_insert_Permutation {A : Type} (i : Z) (x : A) (l : list A) :
  Py.insert i x l ≡ₚ x :: l.
Proof.
  unfold Py.insert. rewrite <- Permutation_middle, take_drop. reflexivity.
Qed.

Lemma py_insert_length {A : Type} (i : Z) (x : A) (l : list A) :
  length (Py.insert i x l) = S (length l).
Proof. by rewrite py_insert_Permutation. Qed.

Lemma list_insert_Permutation {A : Type} (l : list A) (i : nat) (a b : A) :
  l !! i = Some a -> <[i := b]> l ≡ₚ b :: delete i l.
Proof.
  intros Hi. pose proof (lookup_lt_Some _ _ _ Hi) as Hlt.
  rewrite insert_take_drop by done. rewrite delete_take_drop.
  symmetry. apply Permutation_middle.
Qed.

Lemma swap_Permutation {A : Type} (i j : nat) (x : list A) : swap i j x ≡ₚ x.
Proof.
  unfold swap.
  destruct (x !! i) as [a |] eqn:Hi; [| reflexivity].
  destruct (x !! j) as [b |] eqn:Hj; [| reflexivity].
  destruct (decide (i = j)) as [-> | Hne].
  - rewrite list_insert_insert_eq. rewrite list_insert_id; [reflexivity | done].
  - assert (Hj' : <[i := b]> x !! j = Some b) by (by rewrite list_lookup_insert_ne).
    rewrite (list_insert_Permutation _ j b a Hj').
    transitivity (a :: delete i x); [| symmetry; by apply delete_Permutation].
    apply Permutation_skip.
    apply (Permutation_cons_inv (a := b)).
    transitivity (<[i := b]> x); [symmetry; by apply delete_Permutation |].
    by apply (list_insert_Permutation _ _ a).
Qed.

Lemma shuffle_from_Done {A : Type} (i : nat) (x x' : list A) (g g' : GameGenerator) :
  shuffle_from i x g = Done (x', g') ->
  x' ≡ₚ x /\ used_card_ids g' = used_card_ids g.
Proof.
  revert x g. induction i as [| i IH]; intros x g H.
  - apply ret_Done in H as [<- <-]. done.
  - cbn [shuffle_from] in H. step_run H j g1 Hj.
    apply random_randbelow_Done in Hj as Hused.
    apply IH in H as [-> ->]. split; [apply swap_Permutation | done].
Qed.

Lemma number_cards_length (cards : list BingoTicket) :
  length (number_cards cards) = length cards.
Proof. apply length_imap. Qed.

Lemma number_cards_keys (cards : list BingoTicket) :
  card_id <$> number_cards cards = card_id <$> cards.
Proof.
  unfold number_cards. apply list_eq. intros i.
  rewrite !list_lookup_fmap, list_lookup_imap. by destruct (cards !! i).
Qed.

Lemma number_cards_numbers (cards : list BingoTicket) :
  ticket_number <$> number_cards cards = Some <$> seqZ 1 (Z.of_nat (length cards)).
Proof.
  unfold number_cards. apply list_eq. intros i.
  rewrite !list_lookup_fmap, list_lookup_imap.
  destruct (cards !! i) as [card |] eqn:Hi.
  - rewrite lookup_seqZ_lt by (apply lookup_lt_Some in Hi; lia).
    cbn. do 2 f_equal. lia.
  - rewrite lookup_seqZ_ge by (apply lookup_ge_None in Hi; lia). done.
Qed.

(** *** The used-key set and the tickets laid out so far *)

Lemma registered_Permutation (cards cards' : list BingoTicket) (g g' : GameGenerator) :
  cards' ≡ₚ cards -> used_card_ids g' = used_card_ids g ->
  registered cards g -> registered cards' g'.
Proof.
  intros Hperm Hused [Hnd Hin]. split.
  - by rewrite Hperm.
  - intros card Hcard. rewrite Hused. apply Hin. by rewrite <- Hperm.
Qed.

(** Tickets fresh from [generate_at_point] join the registered ones. *)
Lemma registered_app (cards new : list BingoTicket) (g g' : GameGenerator) :
  registered cards g ->
  NoDup (card_id <$> new) ->
  (forall card, card ∈ new -> card_id card ∉ used_card_ids g) ->
  used_card_ids g' = used_card_ids g ∪ list_to_set (card_id <$> new) ->
  registered (cards ++ new) g'.
Proof.
  intros [Hnd Hin] Hnew Hfresh Hused. split.
  - rewrite fmap_app. apply NoDup_app. split; [done |]. split; [| done].
    intros k (c & -> & Hc)%list_elem_of_fmap (c' & Hk & Hc')%list_elem_of_fmap.
    apply (Hfresh c' Hc'). rewrite <- Hk. by apply Hin.
  - intros card Hcard. rewrite Hused. apply elem_of_app in Hcard as [Hcard | Hcard].
    + apply elem_of_union_l. by apply Hin.
    + apply elem_of_union_r, elem_of_list_to_set, list_elem_of_fmap_2, Hcard.
Qed.

Section Scheduler.

Variable options : Options.
Variable tracks : list Song.

Lemma insert_loop_Done (todo : nat) (point num_cards num_on_last : Z)
    (increment start_point : Q) (cards cards' : list BingoTicket)
    (g g' : GameGenerator) :
  registered cards g ->
  insert_loop options false todo tracks point num_cards num_on_last
    increment start_point cards g = Done (cards', g') ->
  registered cards' g' /\ length cards' = (length cards + todo)%nat.
Proof.
  revert start_point cards g.
  induction todo as [| todo IH]; intros start_point cards g Hreg H.
  - apply ret_Done in H as [<- <-]. split; [done | lia].
  - cbn [insert_loop] in H. step_run H rand_point g1 Hrand.
    apply randrange_Done in Hrand as [Hused1 _].
    step_run H new g2 Hnew.
    apply generate_at_point_Done in Hnew as (Hlen & Hnd & Hall & Hused2).
    destruct new as [| card new]; [discriminate |].
    destruct new; [| cbn in Hlen; lia].
    apply IH in H as [Hreg' Hlen'].
    + split; [done |]. rewrite Hlen', py_insert_length. lia.
    + apply (registered_Permutation (cards ++ [card]) _ g2 g2);
        [| done |].
      * rewrite py_insert_Permutation. apply Permutation_cons_append.
      * apply (registered_app cards [card] g1 g2); [| done | | done].
        -- by apply (registered_Permutation cards cards g g1).
        -- intros c Hc. by destruct (Hall c Hc).
Qed.

Lemma insert_random_cards_Done (point num_cards num_on_last : Z)
    (cards cards' : list BingoTicket) (g g' : GameGenerator) :
  registered cards g ->
  or_keep (negb (num_cards =? 0)) cards
    (insert_random_cards options false tracks cards point num_cards num_on_last) g
    = Done (cards', g') ->
  registered cards' g' /\ length cards' = (length cards + Z.to_nat num_cards)%nat.
Proof.
  intros Hreg H. unfold or_keep, insert_random_cards in H.
  destruct (Z.eqb_spec num_cards 0) as [-> | Hne]; cbn [negb] in H.
  - apply ret_Done in H as [<- <-]. split; [done | cbn; lia].
  - by apply insert_loop_Done in H.
Qed.

Lemma good_cards_loop_Done (todo : nat) (offset : Z)
    (cards good : list BingoTicket) (r : option (list BingoTicket))
    (g g' : GameGenerator) :
  registered (cards ++ good) g ->
  good_cards_loop options false todo tracks offset good g = Done (r, g') ->
  exists good',
    r = Some good' /\ registered (cards ++ good') g'
    /\ length good' = (length good + todo)%nat.
Proof.
  revert offset good g. induction todo as [| todo IH]; intros offset good g Hreg H.
  - apply ret_Done in H as [<- <-]. exists good. split; [done |]. split; [done | lia].
  - cbn [good_cards_loop] in H. step_run H new g1 Hnew.
    apply generate_at_point_Done in Hnew as (Hlen & Hnd & Hall & Hused).
    apply IH in H as (good' & -> & Hreg' & Hlen').
    + exists good'. split; [done |]. split; [done |].
      rewrite Hlen', length_app. lia.
    + rewrite app_assoc. apply (registered_app _ new g g1); try done.
      intros card Hcard. by destruct (Hall card Hcard).
Qed.

Lemma place_good_cards_Done (good_cards : list BingoTicket) (increment start_point : Q)
    (cards cards' : list BingoTicket) (aborted : bool) (g g' : GameGenerator) :
  place_good_cards options false good_cards increment start_point cards g
    = Done (aborted, cards', g') ->
  aborted = false
  /\ cards' ≡ₚ good_cards ++ cards
  /\ used_card_ids g' = used_card_ids g
  /\ (good_cards <> [] ->
      Py.ceil start_point < Py.ceil (Py.fadd start_point increment)).
Proof.
  revert start_point cards g.
  induction good_cards as [| card good_cards IH]; intros start_point cards g H.
  - apply ret_Done in H as [[= <- <-] <-]. done.
  - cbn [place_good_cards] in H. step_run H rand_point g1 Hrand.
    apply randrange_Done in Hrand as [Hused1 Hrange].
    apply IH in H as (-> & Hperm & Hused & _).
    split; [done |]. split; [| split; [congruence | intros _; lia]].
    rewrite Hperm, py_insert_Permutation. cbn. symmetry. apply Permutation_middle.
Qed.

End Scheduler.

(** *** The tier counts *)

(** A product by the decay rate [0.65]. *)
Lemma fmul_decay (x : Q) :
  (0 <= x)%Q ->
  (0 <= Py.fmul x (Py.binary64 (13 # 20)))%Q
  /\ (x * (649 # 1000) - (1 # 1000) <= Py.fmul x (Py.binary64 (13 # 20)))%Q
  /\ (Py.fmul x (Py.binary64 (13 # 20)) <= x * (652 # 1000) + (1 # 1000))%Q.
Proof.
  intros Hx. unfold Py.fmul.
  assert (Hd1 : (13 # 20 <= Py.binary64 (13 # 20))%Q) by (vm_compute; discriminate).
  assert (Hd2 : (Py.binary64 (13 # 20) <= 651 # 1000)%Q) by (vm_compute; discriminate).
  revert Hd1 Hd2. generalize (Py.binary64 (13 # 20)). intros d Hd1 Hd2.
  assert (Hp : (0 <= x * d)%Q) by nra.
  destruct (binary64_near (x * d) Hp) as (H0 & Hlo & Hhi).
  assert (H1 : (x * (13 # 20) <= x * d)%Q) by nra.
  assert (H2 : (x * d <= x * (651 # 1000))%Q) by nra.
  split; [done |]. split; lra.
Qed.

Lemma fsub_near (x y : Q) :
  (y <= x)%Q ->
  (0 <= Py.fsub x y)%Q
  /\ ((x - y) * (999 # 1000) - (1 # 1000) <= Py.fsub x y)%Q
  /\ (Py.fsub x y <= (x - y) * (1001 # 1000) + (1 # 1000))%Q.
Proof. intros H. apply binary64_near. lra. Qed.

(** From [MIN_CARDS] tickets on, no tier count is negative and the four
    tiers together with the [amount_to_go] good cards make up the number of
    tickets asked for. *)
Lemma tier_counts_total (options : Options) :
  MIN_CARDS <= number_of_cards options ->
  let t := tier_counts options in
  0 <= num_on_last t /\ 0 <= num_second_last t /\ 0 <= num_third_last t
  /\ 0 <= num_fourth_last t
  /\ num_on_last t + num_second_last t + num_third_last t + num_fourth_last t
     + amount_to_go = number_of_cards options.
Proof.
  unfold MIN_CARDS, tier_counts, amount_to_go.
  generalize (number_of_cards options) as T. intros T HT. cbv zeta.
  set (d := Py.binary64 (13 # 20)).
  set (noc := Py.float T).
  set (a := Py.fmul noc d).
  set (s1 := Py.fsub noc a).
  set (b := Py.fmul s1 d).
  set (s2 := Py.fsub s1 b).
  set (c := Py.fmul s2 d).
  set (s3 := Py.fsub s2 c).
  set (e := Py.fmul s3 d).
  assert (HTq : (15 <= inject_Z T)%Q).
  { change 15%Q with (inject_Z 15). rewrite <- Zle_Qle. lia. }
  destruct (binary64_near (inject_Z T)) as (Hn0 & Hn1 & Hn2); [lra |].
  fold (Py.float T) in Hn0, Hn1, Hn2. fold noc in Hn0, Hn1, Hn2.
  destruct (fmul_decay noc Hn0) as (Ha0 & Ha1 & Ha2). fold d a in Ha0, Ha1, Ha2.
  destruct (fsub_near noc a) as (Hs10 & Hs11 & Hs12); [lra |]. fold s1 in Hs10, Hs11, Hs12.
  destruct (fmul_decay s1 Hs10) as (Hb0 & Hb1 & Hb2). fold d b in Hb0, Hb1, Hb2.
  destruct (fsub_near s1 b) as (Hs20 & Hs21 & Hs22); [lra |]. fold s2 in Hs20, Hs21, Hs22.
  destruct (fmul_decay s2 Hs20) as (Hc0 & Hc1 & Hc2). fold d c in Hc0, Hc1, Hc2.
  destruct (fsub_near s2 c) as (Hs30 & Hs31 & Hs32); [lra |]. fold s3 in Hs30, Hs31, Hs32.
  destruct (fmul_decay s3 Hs30) as (He0 & He1 & He2). fold d e in He0, He1, He2.
  destruct (int_bounds b Hb0) as [HB0 HB]. destruct (int_bounds c Hc0) as [HC0 HC].
  destruct (int_bounds e He0) as [HE0 HE].
  assert (Hsum : Py.int b + Py.int c + Py.int e + 5 <= T).
  { rewrite Zle_Qle, !inject_Z_plus. change (inject_Z 5) with 5%Q. lra. }
  clearbody a b c e. clear -HT HB0 HC0 HE0 Hsum.
  cbn [num_on_last num_second_last num_third_last num_fourth_last].
  repeat match goal with
         | |- context [ ?a =? ?b ] => destruct (Z.eqb_spec a b)
         | |- context [ ?a <? ?b ] => destruct (Z.ltb_spec a b)
         | |- context [ ?a >? ?b ] => destruct (Z.gtb_spec a b)
         end; cbn [orb]; lia.
Qed.

Lemma interleave_submseteq {A : Type} (first_third second_third third_third : list A) :
  interleave first_third second_third third_third
    ⊆+ first_third ++ second_third ++ third_third.
Proof.
  revert second_third third_third.
  induction first_third as [| c1 band1 IH]; intros band2 band3.
  - apply submseteq_nil_l.
  - destruct band2 as [| c2 band2], band3 as [| c3 band3]; simpl;
      rewrite <- ?Permutation_middle; repeat apply submseteq_skip; apply IH.
Qed.

Lemma consecutive_slices {A : Type} (l : list A) (a b : nat) :
  (a <= b)%nat ->
  take a l ++ take (b - a) (drop a l) ++ take (length l - b) (drop b l) = l.
Proof.
  intros Hab.
  rewrite (take_ge (drop b l)) by (rewrite length_drop; lia).
  replace (drop b l) with (drop (b - a) (drop a l))
    by (rewrite drop_drop; f_equal; lia).
  by rewrite !take_drop.
Qed.

(** Whatever the length of the list, [sort_cards_by_page] never hands out a
    ticket twice. *)
Lemma sort_cards_by_page_submseteq (options : Options) (cards : list BingoTicket) :
  0 <= number_of_cards options ->
  sort_cards_by_page options cards ⊆+ cards.
Proof.
  intros HT. unfold sort_cards_by_page, Py.slice.
  destruct (truediv_third_nonneg (number_of_cards options) HT) as [Hc Hf].
  set (n := Z.of_nat (length cards)).
  set (c := Py.ceil (Py.truediv (number_of_cards options) 3)) in *.
  set (f := Py.floor (Py.truediv (number_of_cards options) 3)) in *.
  etransitivity; [apply interleave_submseteq |].
  replace (Py.clamp_index n 0) with 0%nat by (unfold Py.clamp_index; cbn; lia).
  replace (Py.clamp_index n n) with (length cards)
    by (unfold Py.clamp_index; destruct (Z.ltb_spec n 0); lia).
  rewrite Nat.sub_0_r, drop_0.
  rewrite consecutive_slices; [done |].
  unfold Py.clamp_index.
  destruct (Z.ltb_spec c 0), (Z.ltb_spec (c + f) 0); lia.
Qed.

(** On a list of [number_of_cards] tickets nothing is lost either. *)
Lemma sort_cards_by_page_Permutation (options : Options) (cards : list BingoTicket) :
  Z.of_nat (length cards) = number_of_cards options ->
  number_of_cards options < 2 ^ 50 ->
  sort_cards_by_page options cards ≡ₚ cards.
Proof.
  intros Hlen Hrange. rewrite (sort_cards_by_page_bands options cards Hlen Hrange).
  destruct (third_ceil_floor (number_of_cards options)) as [-> ->].
  set (c := Z.to_nat ((number_of_cards options + 2) / 3)).
  set (f := Z.to_nat (number_of_cards options / 3)).
  assert (Hc : (f <= c <= length cards)%nat)
    by (subst c f; split; Z.div_mod_to_equations; lia).
  assert (Hr : (length cards - (c + f) <= c)%nat)
    by (subst c f; Z.div_mod_to_equations; lia).
  rewrite interleave_Permutation
    by (rewrite ?length_take, ?length_drop; lia).
  rewrite <- drop_drop, !take_drop. reflexivity.
Qed.

(** *** The scheduler as a whole *)

(** The first window in which a good card is placed is empty unless tickets
    were asked for. *)
Lemma first_window (T : Z) :
  T <= 0 ->
  Py.ceil (Py.fadd 0 (Py.fdiv (Py.float T) (Py.float amount_to_go))) <= Py.ceil 0.
Proof.
  intros HT. unfold Py.fadd, Py.fdiv, Py.float.
  assert (H1 : (Py.binary64 (inject_Z T) <= 0)%Q).
  { apply binary64_nonpos. change 0%Q with (inject_Z 0). rewrite <- Zle_Qle. lia. }
  assert (H4 : (0 < Py.binary64 (inject_Z amount_to_go))%Q) by reflexivity.
  set (x := Py.binary64 (inject_Z T)) in *.
  set (y := Py.binary64 (inject_Z amount_to_go)) in *.
  assert (H2 : (Py.binary64 (x / y) <= 0)%Q).
  { apply binary64_nonpos. apply Qle_shift_div_r; [done | lra]. }
  assert (H3 : (Py.binary64 (0 + Py.binary64 (x / y)) <= 0)%Q).
  { apply binary64_nonpos. lra. }
  pose proof (Qceiling_lt (Py.binary64 (0 + Py.binary64 (x / y)))) as Hc.
  assert (H5 : (inject_Z (Qceiling (Py.binary64 (0 + Py.binary64 (x / y))) - 1)
                < inject_Z 0)%Q) by (change (inject_Z 0) with 0%Q; lra).
  rewrite <- Zlt_Qlt in H5. change (Py.ceil 0) with 0. unfold Py.ceil. lia.
Qed.

(** A run of [generate_all_cards] that returns has laid out one list of
    tickets with distinct keys, as many as the tiers and the good cards add
    up to, has numbered it, and has page-sorted it if asked to. *)
Lemma generate_all_cards_Done (options : Options) (tracks : list Song)
    (g g' : GameGenerator) (cards : list BingoTicket) :
  generate_all_cards options false tracks g = Done (cards, g') ->
  let t := tier_counts options in
  exists laid_out,
    NoDup (card_id <$> laid_out)
    /\ length laid_out =
       (Z.to_nat (num_on_last t) + Z.to_nat (num_second_last t)
        + Z.to_nat (num_third_last t) + Z.to_nat (num_fourth_last t)
        + Z.to_nat amount_to_go)%nat
    /\ 0 < number_of_cards options
    /\ cards = if page_order options
               then sort_cards_by_page options (number_cards laid_out)
               else number_cards laid_out.
Proof.
  intros H t. unfold generate_all_cards in H. fold t in H.
  step_run H u g0 Hclear. clear Hclear.
  step_run H cards1 g1 H1.
  apply generate_at_point_Done in H1 as (Hlen1 & Hnd1 & Hall1 & Hused1).
  assert (Hreg1 : registered cards1 g1).
  { apply (registered_app [] cards1 g0 g1); [| done | | done].
    - split; [apply NoDup_nil_2 | by intros ? ?%elem_of_nil].
    - intros card Hcard. by destruct (Hall1 card Hcard). }
  step_run H cards2 g2 H2. apply insert_random_cards_Done in H2 as [Hreg2 Hlen2]; [| done].
  step_run H cards3 g3 H3. apply insert_random_cards_Done in H3 as [Hreg3 Hlen3]; [| done].
  step_run H cards4 g4 H4. apply insert_random_cards_Done in H4 as [Hreg4 Hlen4]; [| done].
  step_run H good g5 H5.
  apply (good_cards_loop_Done options tracks _ _ cards4) in H5
    as (good_cards & -> & Hreg5 & Hlen5); [| by rewrite app_nil_r].
  step_run H shuffled g6 H6. unfold shuffle in H6.
  apply shuffle_from_Done in H6 as [Hshuffle Hused6].
  step_run H r g7 H7. destruct r as [aborted cards5].
  apply place_good_cards_Done in H7 as (-> & Hplace & Hused7 & Hwindow).
  exists cards5.
  assert (Hperm : cards5 ≡ₚ cards4 ++ good_cards).
  { rewrite Hplace, Hshuffle. apply Permutation_app_comm. }
  split; [| split; [| split]].
  - destruct Hreg5 as [Hnd5 _]. by rewrite Hperm.
  - rewrite Hperm, length_app, Hlen5, Hlen4, Hlen3, Hlen2. cbn [length]. lia.
  - assert (Hne : shuffled <> []).
    { intros ->. apply Permutation_nil_l in Hshuffle. subst good_cards.
      cbn in Hlen5. unfold amount_to_go in Hlen5. cbn in Hlen5. lia. }
    specialize (Hwindow Hne).
    destruct (Z.lt_ge_cases 0 (number_of_cards options)) as [| HT]; [done |].
    apply first_window in HT. lia.
  - destruct (page_order options); by apply ret_Done in H as [<- _].
Qed.


(** *** A ticket cannot win before it has been played in full *)

Lemma get_when_ticket_wins_Done (tracks : list Song) (ticket : BingoTicket) (p : Z) :
  get_when_ticket_wins tracks ticket = Done p ->
  card_tracks ticket <> [] ->
  exists m : nat,
    p = Z.of_nat m /\ (1 <= m <= length tracks)%nat
    /\ forall song, song ∈ card_tracks ticket -> ref_id song ∈ ref_ids (take m tracks).
Proof.
  intros H Hsongs.
  set (ids := list_to_set (ref_ids (card_tracks ticket)) : gset Z).
  assert (Hids : forall x, x ∈ ids <-> exists song, song ∈ card_tracks ticket /\ x = ref_id song).
  { intros x. unfold ids, ref_ids. rewrite elem_of_list_to_set, list_elem_of_fmap.
    naive_solver. }
  set (st0 := {| last_song := -1; card_track_ids := ids; visited := 0 |}).
  unfold get_when_ticket_wins, scan_ticket in H. fold ids st0 in H.
  destruct (decide (Forall (fun song => ref_id song ∈ ref_ids tracks) (card_tracks ticket)))
    as [Hall | Hsome].
  - rewrite Forall_forall in Hall.
    destruct (scan_tracks_covered tracks 1 st0) as (m & Hm & Hscan & Hcov & _).
    + cbn. destruct (card_tracks ticket) as [| song songs] eqn:Hct; [done |].
      intros Hempty.
      assert (Hin : ref_id song ∈ ids) by (apply Hids; exists song; split; [left | done]).
      rewrite Hempty in Hin. by apply not_elem_of_empty in Hin.
    + cbn. intros x Hx. apply Hids in Hx as (song & Hsong & ->). by apply Hall.
    + rewrite Hscan in H. cbn [card_track_ids last_song] in H.
      rewrite decide_True in H by done. injection H as <-.
      exists m. split; [lia |]. split; [done |].
      intros song Hsong. apply Hcov. cbn. apply Hids. eauto.
  - exfalso.
    apply not_Forall_Exists in Hsome; [| intros song; apply _].
    apply Exists_exists in Hsome as (song & Hsong & Hout).
    assert (Hleft : card_track_ids (scan_tracks tracks 1 st0)
                    = ids ∖ list_to_set (ref_ids tracks)).
    { apply (scan_tracks_uncovered tracks 1 st0).
      exists (ref_id song). split; [apply Hids; eauto | done]. }
    rewrite decide_False in H; [discriminate |].
    rewrite Hleft. intros Hempty.
    assert (Hin : ref_id song ∈ ids ∖ list_to_set (ref_ids tracks)).
    { apply elem_of_difference. split; [apply Hids; eauto |].
      by rewrite elem_of_list_to_set. }
    rewrite Hempty in Hin. by apply not_elem_of_empty in Hin.
Qed.

(** Songs drawn at distinct indices of a play order without repeated
    ref_ids have distinct ref_ids. *)
Lemma drawn_from_distinct (songs : list Song) (idxs : list Z) (card : BingoTicket) :
  NoDup (ref_ids songs) ->
  drawn_from songs idxs card ->
  NoDup (ref_ids (card_tracks card)).
Proof.
  intros Hsongs (Hnd & Hpos & Hall & _).
  induction Hall as [| i song idxs' tracks' Hi Hall IH]; [apply NoDup_nil_2 |].
  apply NoDup_cons in Hnd as [Hnew Hnd].
  cbn. apply NoDup_cons. split.
  - intros (song' & Heq & Hsong')%list_elem_of_fmap.
    apply list_elem_of_lookup in Hsong' as [k Hk].
    destruct (Forall2_lookup_r _ _ _ _ _ Hall Hk) as (j & Hj & Hlook).
    assert (Hij : Z.to_nat i = Z.to_nat j).
    { apply (NoDup_lookup (ref_ids songs) _ _ (ref_id song)); [done | |].
      - unfold ref_ids. by rewrite list_lookup_fmap, Hi.
      - unfold ref_ids. by rewrite list_lookup_fmap, Hlook, Heq. }
    apply Hnew.
    assert (Hjin : j ∈ idxs') by (eapply list_elem_of_lookup_2, Hj).
    assert (0 <= i) by (apply Hpos; left).
    assert (0 <= j) by (apply Hpos; by right).
    replace i with j by lia. done.
  - apply IH; [done |]. intros k Hk. apply Hpos. by right.
Qed.

Lemma win_point_room (tracks : list Song) (num_tracks : Z) (card : BingoTicket) (p : Z) :
  NoDup (ref_ids tracks) ->
  well_composed tracks num_tracks card ->
  get_when_ticket_wins tracks card = Done p ->
  num_tracks <= p.
Proof.
  intros Htracks (Hlen & Hne & idxs & Hdrawn) Hwin.
  apply get_when_ticket_wins_Done in Hwin as (m & -> & Hm & Hcov); [| done].
  pose proof (drawn_from_distinct _ _ _ Htracks Hdrawn) as Hnd.
  assert (Hsub : ref_ids (card_tracks card) ⊆+ ref_ids (take m tracks)).
  { apply NoDup_submseteq; [done |].
    intros x (song & -> & Hsong)%list_elem_of_fmap. by apply Hcov. }
  apply submseteq_length in Hsub. unfold ref_ids in Hsub.
  rewrite !length_fmap, length_take in Hsub. lia.
Qed.

Section Room.

Variable options : Options.
Variable tracks : list Song.
Hypothesis tracks_distinct : NoDup (ref_ids tracks).

Lemma generate_at_point_room (amount from_end : Z) (cards : list BingoTicket)
    (g g' : GameGenerator) :
  generate_at_point options false tracks amount from_end g = Done (cards, g') ->
  0 < amount ->
  songs_per_ticket options <= Z.of_nat (length tracks) - from_end.
Proof.
  intros H Hamount.
  apply generate_at_point_Done in H as (Hlen & _ & Hall & _).
  destruct cards as [| card cards]; [cbn in Hlen; lia |].
  destruct (Hall card) as (_ & Hwin & Hwell); [left |].
  by apply (win_point_room tracks _ card).
Qed.

Lemma good_cards_loop_room (todo : nat) (offset : Z) (good : list BingoTicket)
    (r : option (list BingoTicket)) (g g' : GameGenerator) :
  good_cards_loop options false todo tracks offset good g = Done (r, g') ->
  (0 < todo)%nat ->
  songs_per_ticket options
    <= Z.of_nat (length tracks) - (offset + Z.of_nat todo - 1).
Proof.
  revert offset good g. induction todo as [| todo IH]; intros offset good g H Htodo;
    [lia |].
  cbn [good_cards_loop] in H. step_run H new g1 Hnew.
  destruct todo as [| todo].
  - apply generate_at_point_room in Hnew; lia.
  - apply IH in H; lia.
Qed.

(** [generate_all_cards] cannot return unless the last of the good cards has
    room to win: it must win [offset + 3] songs before the end, and no
    sooner than after [songs_per_ticket] songs. *)
Lemma generate_all_cards_room (cards : list BingoTicket) (g g' : GameGenerator) :
  generate_all_cards options false tracks g = Done (cards, g') ->
  songs_per_ticket options + offset (tier_counts options) + 3
    <= Z.of_nat (length tracks).
Proof.
  intros H. unfold generate_all_cards in H.
  step_run H u g0 Hclear. step_run H cards1 g1 H1. step_run H cards2 g2 H2.
  step_run H cards3 g3 H3. step_run H cards4 g4 H4. step_run H good g5 H5.
  apply good_cards_loop_room in H5; [| unfold amount_to_go; cbn; lia].
  change (Z.of_nat (Z.to_nat amount_to_go)) with 4 in H5. lia.
Qed.

End Room.


(** *** Favourable draws make the run return *)

Lemma pick_index_hit (fuel : nat) (n : Z) (picked : gset Z) (used : gset Z)
    (i : Z) (entropy random : list Z) :
  0 <= i < n -> i ∉ picked ->
  pick_index (S fuel) n picked
    {| used_card_ids := used; secrets_entropy := i :: entropy; random_entropy := random |}
  = Done (i, {| used_card_ids := used; secrets_entropy := entropy;
                random_entropy := random |}).
Proof.
  intros Hi Hnew. cbn [pick_index]. unfold bind, randbelow. cbn [secrets_entropy].
  destruct (Z.leb_spec n 0); [lia |].
  rewrite Z.mod_small by lia. cbn. by rewrite decide_False.
Qed.

Lemma songs_at_snoc (songs : list Song) (idxs : list Z) (i : Z) (song : Song) :
  songs !! Z.to_nat i = Some song ->
  songs_at songs (idxs ++ [i]) = songs_at songs idxs ++ [song].
Proof. intros Hi. unfold songs_at. rewrite omap_app. cbn. by rewrite Hi. Qed.

Section Hit.

Variable songs : list Song.
Variable num_tracks : Z.
Variable number : option Z.

(** The composer on a draw of pairwise distinct indices that completes a
    ticket with a new key: it takes them one by one and hands over the
    ticket. *)
Lemma select_loop_hit (idxs taken : list Z) (fuel : nat) (card : BingoTicket)
    (used : gset Z) (entropy random : list Z) :
  (length idxs <= fuel)%nat ->
  idxs <> [] ->
  NoDup (taken ++ idxs) ->
  Forall (fun i => 0 <= i < Z.of_nat (length songs)) idxs ->
  card_tracks card = songs_at songs taken ->
  card_id card = key_of (songs_at songs taken) ->
  ticket_number card = number ->
  Z.of_nat (length (songs_at songs taken) + length idxs) = num_tracks ->
  key_of (songs_at songs (taken ++ idxs)) ∉ used ->
  select_loop false fuel songs num_tracks (list_to_set taken) card
    {| used_card_ids := used; secrets_entropy := idxs ++ entropy;
       random_entropy := random |}
  = Done ({| card_id := key_of (songs_at songs (taken ++ idxs));
             card_tracks := songs_at songs (taken ++ idxs);
             ticket_number := number |},
          {| used_card_ids := used ∪ {[ key_of (songs_at songs (taken ++ idxs)) ]};
             secrets_entropy := entropy; random_entropy := random |}).
Proof.
  revert taken fuel card.
  induction idxs as [| i idxs IH];
    intros taken fuel card Hfuel Hne Hnd Hrange Htracks Hid Hnum Hlen Hkey; [done |].
  destruct fuel as [| fuel]; [cbn in Hfuel; lia |].
  apply Forall_cons in Hrange as [Hi Hrange].
  destruct (lookup_lt_is_Some_2 songs (Z.to_nat i)) as [song Hsong]; [lia |].
  assert (Hnew : i ∉ (list_to_set taken : gset Z)).
  { rewrite elem_of_list_to_set. apply NoDup_app in Hnd as (_ & Hdisj & _).
    intros Hin. apply (Hdisj i Hin). left. }
  assert (Hsnoc : songs_at songs (taken ++ [i]) = songs_at songs taken ++ [song])
    by (by apply songs_at_snoc).
  assert (Hpicked : list_to_set taken ∪ {[ i ]} = list_to_set (taken ++ [i]) :> gset Z).
  { rewrite list_to_set_app_L. cbn. set_solver. }
  cbn [select_loop]. unfold bind at 1. unfold select_step, bind at 1, with_fuel.
  cbn [secrets_entropy app]. rewrite pick_index_hit by done. rewrite Hsong.
  cbn [card_tracks card_id]. rewrite Htracks, Hid, <- Hsnoc, <- key_of_app, <- Hsnoc.
  destruct idxs as [| i' idxs].
  - (* the last index: the ticket is complete *)
    rewrite Hsnoc, length_app. cbn [length] in Hlen |- *.
    replace (Z.of_nat (length (songs_at songs taken) + 1) =? num_tracks) with true
      by (symmetry; apply Z.eqb_eq; lia).
    unfold bind, get_used, add_used, ret. cbn [used_card_ids].
    rewrite <- Hsnoc. rewrite decide_False by done.
    cbn. rewrite Hnum. reflexivity.
  - (* more indices to come *)
    rewrite Hsnoc, length_app. cbn [length] in Hlen |- *.
    replace (Z.of_nat (length (songs_at songs taken) + 1) =? num_tracks) with false
      by (symmetry; apply Z.eqb_neq; lia).
    unfold ret at 1. rewrite Hpicked, <- Hsnoc.
    rewrite (IH (taken ++ [i]) fuel); rewrite <- ?app_assoc; cbn [app]; try done.
    + cbn [length] in Hfuel |- *. lia.
    + rewrite Hsnoc, length_app. cbn [length] in Hlen |- *. lia.
Qed.

End Hit.

Lemma concat_length_ge {A : Type} (ls : list (list A)) :
  Forall (fun l => l <> []) ls -> (length ls <= length (concat ls))%nat.
Proof.
  induction 1 as [| l ls Hl _ IH]; [done |].
  cbn. rewrite length_app. destruct l; [done |]. cbn. lia.
Qed.

Section Favourable.

Variable options : Options.
Variable tracks : list Song.
Variable from_end : Z.

Lemma generate_loop_hit (draws : list (list Z)) (fuel : nat) (count : Z)
    (cards : list BingoTicket) (used : gset Z) (entropy random : list Z) :
  (length draws <= fuel)%nat ->
  favourable options tracks from_end used draws ->
  generate_loop options false fuel tracks (count + Z.of_nat (length draws)) from_end
    count cards
    {| used_card_ids := used; secrets_entropy := concat draws ++ entropy;
       random_entropy := random |}
  = Done (cards ++ (ticket_at tracks <$> draws),
          {| used_card_ids := used ∪ list_to_set (card_id <$> (ticket_at tracks <$> draws));
             secrets_entropy := entropy; random_entropy := random |}).
Proof.
  revert fuel count cards used.
  induction draws as [| idxs draws IH]; intros fuel count cards used Hfuel (Hall & Hnd & Hnew).
  - cbn [length concat app fmap list_fmap]. rewrite Z.add_0_r, app_nil_r.
    assert (Hused : used ∪ list_to_set [] = used :> gset Z) by set_solver.
    rewrite Hused.
    destruct fuel; cbn [generate_loop]; rewrite Z.ltb_irrefl; reflexivity.
  - destruct fuel as [| fuel]; [cbn in Hfuel; lia |].
    apply Forall_cons in Hall as [(Hne & Hdistinct & Hrange & Hlen & Hwin) Hall].
    cbn [fmap list_fmap] in Hnd. apply NoDup_cons in Hnd as [Hfresh Hnd].
    cbn [generate_loop length concat].
    replace (count <? count + Z.of_nat (S (length draws))) with true
      by (symmetry; apply Z.ltb_lt; lia).
    unfold bind at 1. unfold generate_step, bind at 1.
    unfold select_songs_for_ticket, with_fuel. cbn [secrets_entropy].
    rewrite <- app_assoc.
    rewrite (select_loop_hit tracks (songs_per_ticket options) None idxs []);
      try done.
    + change (key_of (songs_at tracks ([] ++ idxs))) with (card_id (ticket_at tracks idxs)).
      change {| card_id := card_id (ticket_at tracks idxs);
                card_tracks := songs_at tracks ([] ++ idxs);
                ticket_number := None |} with (ticket_at tracks idxs).
      unfold bind at 1, lift. rewrite Hwin. cbn [obind].
      rewrite Z.eqb_refl. cbn [negb]. unfold ret at 1.
      replace (count + Z.of_nat (S (length draws)))
        with (count + 1 + Z.of_nat (length draws)) by lia.
      rewrite IH.
      * rewrite <- app_assoc. cbn [fmap list_fmap app list_to_set].
        by rewrite (assoc_L (∪)).
      * cbn [length] in Hfuel. lia.
      * split; [done |]. split; [done |].
        intros idxs' Hin. rewrite not_elem_of_union. split.
        -- apply Hnew. by right.
        -- intros Heq%elem_of_singleton. apply Hfresh. rewrite <- Heq.
           by apply list_elem_of_fmap_2, list_elem_of_fmap_2.
    + rewrite length_app. lia.
    + rewrite app_nil_l. apply Hnew. left.
Qed.

(** On favourable draws [generate_at_point] returns, after exactly these
    draws, the tickets that they make. *)
Lemma generate_at_point_hit (draws : list (list Z)) (used : gset Z)
    (entropy random : list Z) :
  favourable options tracks from_end used draws ->
  generate_at_point options false tracks (Z.of_nat (length draws)) from_end
    {| used_card_ids := used; secrets_entropy := concat draws ++ entropy;
       random_entropy := random |}
  = Done (ticket_at tracks <$> draws,
          {| used_card_ids := used ∪ list_to_set (card_id <$> (ticket_at tracks <$> draws));
             secrets_entropy := entropy; random_entropy := random |}).
Proof.
  intros Hfav. unfold generate_at_point, with_fuel. cbn [secrets_entropy].
  rewrite <- (Z.add_0_l (Z.of_nat (length draws))).
  rewrite generate_loop_hit; [done | | done].
  rewrite length_app. destruct Hfav as (Hall & _).
  assert (Hne : Forall (fun l : list Z => l <> []) draws)
    by (eapply Forall_impl; [exact Hall | by intros ? (? & _)]).
  pose proof (concat_length_ge draws Hne). lia.
Qed.

End Favourable.

(** *** Rejected draws leave no trace *)

Section Retry.

Variable options : Options.
Variable tracks : list Song.
Variable from_end : Z.

(** A pass of the loop on a draw whose ticket is rejected: the draw is
    consumed and nothing else has changed. *)
Lemma generate_loop_miss (idxs : list Z) (fuel : nat) (amount count : Z)
    (cards : list BingoTicket) (used : gset Z) (entropy random : list Z) :
  count < amount ->
  rejected options tracks from_end used idxs ->
  generate_loop options false (S fuel) tracks amount from_end count cards
    {| used_card_ids := used; secrets_entropy := idxs ++ entropy;
       random_entropy := random |}
  = generate_loop options false fuel tracks amount from_end count cards
      {| used_card_ids := used; secrets_entropy := entropy; random_entropy := random |}.
Proof.
  intros Hcount (Hne & Hdistinct & Hrange & Hlen & Hfresh & p & Hwin & Hp).
  cbn [generate_loop].
  replace (count <? amount) with true by (symmetry; apply Z.ltb_lt; lia).
  unfold bind at 1. unfold generate_step, bind at 1.
  unfold select_songs_for_ticket, with_fuel. cbn [secrets_entropy].
  rewrite (select_loop_hit tracks (songs_per_ticket options) None idxs []); try done.
  - change (key_of (songs_at tracks ([] ++ idxs))) with (card_id (ticket_at tracks idxs)).
    change {| card_id := card_id (ticket_at tracks idxs);
              card_tracks := songs_at tracks ([] ++ idxs);
              ticket_number := None |} with (ticket_at tracks idxs).
    unfold bind at 1, lift. rewrite Hwin. cbn [obind].
    replace (p =? Z.of_nat (length tracks) - from_end) with false
      by (symmetry; apply Z.eqb_neq; lia).
    cbn [negb]. unfold bind at 1, remove_used. cbn [used_card_ids].
    rewrite decide_True by set_solver.
    unfold ret at 1. cbn [secrets_entropy random_entropy].
    replace ((used ∪ {[card_id (ticket_at tracks idxs)]}) ∖ {[card_id (ticket_at tracks idxs)]})
      with used by set_solver.
    reflexivity.
  - rewrite length_app. lia.
Qed.

Lemma generate_loop_misses (misses : list (list Z)) (fuel : nat) (amount count : Z)
    (cards : list BingoTicket) (used : gset Z) (entropy random : list Z) :
  count < amount ->
  Forall (rejected options tracks from_end used) misses ->
  generate_loop options false (length misses + fuel) tracks amount from_end count cards
    {| used_card_ids := used; secrets_entropy := concat misses ++ entropy;
       random_entropy := random |}
  = generate_loop options false fuel tracks amount from_end count cards
      {| used_card_ids := used; secrets_entropy := entropy; random_entropy := random |}.
Proof.
  intros Hcount. induction 1 as [| idxs misses Hidxs _ IH]; [done |].
  cbn [length concat Nat.add]. rewrite <- app_assoc.
  rewrite generate_loop_miss by done. exact IH.
Qed.

(** A pass of the loop on a draw whose ticket is accepted. *)
Lemma generate_loop_hit_step (idxs : list Z) (fuel : nat) (amount count : Z)
    (cards : list BingoTicket) (used : gset Z) (entropy random : list Z) :
  count < amount ->
  idxs <> [] -> NoDup idxs ->
  Forall (fun i => 0 <= i < Z.of_nat (length tracks)) idxs ->
  Z.of_nat (length idxs) = songs_per_ticket options ->
  get_when_ticket_wins tracks (ticket_at tracks idxs)
    = Done (Z.of_nat (length tracks) - from_end) ->
  card_id (ticket_at tracks idxs) ∉ used ->
  generate_loop options false (S fuel) tracks amount from_end count cards
    {| used_card_ids := used; secrets_entropy := idxs ++ entropy;
       random_entropy := random |}
  = generate_loop options false fuel tracks amount from_end (count + 1)
      (cards ++ [ticket_at tracks idxs])
      {| used_card_ids := used ∪ {[ card_id (ticket_at tracks idxs) ]};
         secrets_entropy := entropy; random_entropy := random |}.
Proof.
  intros Hcount Hne Hdistinct Hrange Hlen Hwin Hfresh.
  cbn [generate_loop].
  replace (count <? amount) with true by (symmetry; apply Z.ltb_lt; lia).
  unfold bind at 1. unfold generate_step, bind at 1.
  unfold select_songs_for_ticket, with_fuel. cbn [secrets_entropy].
  rewrite (select_loop_hit tracks (songs_per_ticket options) None idxs []); try done.
  - change (key_of (songs_at tracks ([] ++ idxs))) with (card_id (ticket_at tracks idxs)).
    change {| card_id := card_id (ticket_at tracks idxs);
              card_tracks := songs_at tracks ([] ++ idxs);
              ticket_number := None |} with (ticket_at tracks idxs).
    unfold bind at 1, lift. rewrite Hwin. cbn [obind].
    rewrite Z.eqb_refl. cbn [negb]. reflexivity.
  - rewrite length_app. lia.
Qed.

Lemma rejected_nonempty (used : gset Z) (misses : list (list Z)) :
  Forall (rejected options tracks from_end used) misses ->
  (length misses <= length (concat misses))%nat.
Proof.
  intros H. apply concat_length_ge.
  eapply Forall_impl; [exact H | by intros ? (? & _)].
Qed.

Lemma generate_loop_rounds (rounds : list (list (list Z) * list Z)) (fuel : nat)
    (count : Z) (cards : list BingoTicket) (used : gset Z) (entropy random : list Z) :
  (length (draws_of rounds) <= fuel)%nat ->
  favourable options tracks from_end used (snd <$> rounds) ->
  Forall (fun round : list (list Z) * list Z =>
            Forall (rejected options tracks from_end
                      (used ∪ list_to_set (card_id <$> (ticket_at tracks <$> (snd <$> rounds)))))
                   round.1) rounds ->
  generate_loop options false fuel tracks (count + Z.of_nat (length rounds)) from_end
    count cards
    {| used_card_ids := used; secrets_entropy := draws_of rounds ++ entropy;
       random_entropy := random |}
  = Done (cards ++ (ticket_at tracks <$> (snd <$> rounds)),
          {| used_card_ids :=
               used ∪ list_to_set (card_id <$> (ticket_at tracks <$> (snd <$> rounds)));
             secrets_entropy := entropy; random_entropy := random |}).
Proof.
  revert fuel count cards used.
  induction rounds as [| [misses hit] rounds IH];
    intros fuel count cards used Hfuel (Hall & Hnd & Hnew) Hmisses.
  - cbn [length fmap list_fmap draws_of concat app]. rewrite Z.add_0_r, app_nil_r.
    assert (Hused : used ∪ list_to_set [] = used :> gset Z) by set_solver.
    rewrite Hused.
    destruct fuel; cbn [generate_loop]; rewrite Z.ltb_irrefl; reflexivity.
  - cbn [fmap list_fmap snd] in Hall, Hnd, Hnew, Hmisses |- *.
    apply Forall_cons in Hall as [(Hne & Hdistinct & Hrange & Hlen & Hwin) Hall].
    apply NoDup_cons in Hnd as [Hfresh Hnd].
    apply Forall_cons in Hmisses as [Hfirst Hmisses]. cbn [fst] in Hfirst.
    set (key := card_id (ticket_at tracks hit)) in *.
    set (keys := list_to_set (card_id <$> (ticket_at tracks <$> (snd <$> rounds))) : gset Z)
      in *.
    assert (Hhere : Forall (rejected options tracks from_end used) misses).
    { eapply Forall_impl; [exact Hfirst |].
      intros idxs (? & ? & ? & ? & Hout & ?). repeat split; try done.
      cbn [list_to_set] in Hout. set_solver. }
    unfold draws_of in Hfuel |- *. cbn [fmap list_fmap concat fst snd] in Hfuel |- *.
    fold (draws_of rounds) in Hfuel |- *.
    rewrite !length_app in Hfuel.
    pose proof (rejected_nonempty used misses Hhere) as Hlm.
    assert (Hlh : (1 <= length hit)%nat) by (destruct hit; [done | cbn; lia]).
    replace fuel with (length misses + S (fuel - length misses - 1))%nat by lia.
    rewrite <- !app_assoc.
    rewrite generate_loop_misses; [| cbn [length]; lia | done].
    rewrite generate_loop_hit_step; try done; [| cbn [length]; lia | apply Hnew; left].
    fold key.
    replace (count + Z.of_nat (length ((misses, hit) :: rounds)))
      with (count + 1 + Z.of_nat (length rounds)) by (cbn [length]; lia).
    rewrite IH.
    + rewrite <- app_assoc. cbn [app list_to_set]. fold keys.
      by rewrite (assoc_L (∪)).
    + lia.
    + split; [done |]. split; [done |].
      intros idxs' Hin. rewrite not_elem_of_union. split.
      * apply Hnew. by right.
      * intros Heq%elem_of_singleton. apply Hfresh. rewrite <- Heq.
        by apply list_elem_of_fmap_2, list_elem_of_fmap_2.
    + eapply Forall_impl; [exact Hmisses |]. intros round Hround.
      eapply Forall_impl; [exact Hround |].
      intros idxs (? & ? & ? & ? & Hout & ?). repeat split; try done.
      intros Hin. apply Hout. cbn [list_to_set]. fold keys.
      by rewrite (assoc_L (∪)).
Qed.

(** [generate_at_point] returns as soon as the draws have composed the
    tickets asked for, whatever rejected tickets were drawn in between. *)
Lemma generate_at_point_rounds (rounds : list (list (list Z) * list Z))
    (used : gset Z) (entropy random : list Z) :
  favourable options tracks from_end used (snd <$> rounds) ->
  Forall (fun round : list (list Z) * list Z =>
            Forall (rejected options tracks from_end
                      (used ∪ list_to_set (card_id <$> (ticket_at tracks <$> (snd <$> rounds)))))
                   round.1) rounds ->
  generate_at_point options false tracks (Z.of_nat (length rounds)) from_end
    {| used_card_ids := used; secrets_entropy := draws_of rounds ++ entropy;
       random_entropy := random |}
  = Done (ticket_at tracks <$> (snd <$> rounds),
          {| used_card_ids :=
               used ∪ list_to_set (card_id <$> (ticket_at tracks <$> (snd <$> rounds)));
             secrets_entropy := entropy; random_entropy := random |}).
Proof.
  intros Hfav Hmisses. unfold generate_at_point, with_fuel. cbn [secrets_entropy].
  rewrite <- (Z.add_0_l (Z.of_nat (length rounds))).
  rewrite generate_loop_rounds; [done | | done | done].
  rewrite length_app. lia.
Qed.

End Retry.

(** *** The loops never want for fuel

    A loop that waits for a lucky draw consumes entropy on every pass, so
    the fuel that [with_fuel] hands it is never the limit: with any larger
    amount the run has the same outcome. *)

Lemma randbelow_consumes (n : Z) (g g' : GameGenerator) (r : Z) :
  randbelow n g = Done (r, g') -> S (entropy_left g') = entropy_left g.
Proof.
  unfold randbelow, entropy_left. destruct (n <=? 0); [discriminate |].
  destruct (secrets_entropy g); [discriminate |].
  by intros [= _ <-].
Qed.

Lemma pick_index_fuel (fuel fuel' : nat) (n : Z) (picked : gset Z) (g : GameGenerator) :
  (entropy_left g < fuel)%nat -> (entropy_left g < fuel')%nat ->
  pick_index fuel n picked g = pick_index fuel' n picked g.
Proof.
  revert fuel' g. induction fuel as [| fuel IH]; intros fuel' g Hf Hf'; [lia |].
  destruct fuel' as [| fuel']; [lia |].
  cbn [pick_index]. unfold bind.
  destruct (randbelow n g) as [[index g1] | e |] eqn:Hdraw; [| done | done].
  apply randbelow_consumes in Hdraw.
  case_decide; [apply IH; lia | done].
Qed.

Lemma pick_index_consumes (fuel : nat) (n : Z) (picked : gset Z)
    (g g' : GameGenerator) (index : Z) :
  pick_index fuel n picked g = Done (index, g') ->
  (entropy_left g' < entropy_left g)%nat.
Proof.
  revert g. induction fuel as [| fuel IH]; intros g H; [discriminate |].
  cbn [pick_index] in H. step_run H x g1 Hx.
  apply randbelow_consumes in Hx.
  case_decide.
  - apply IH in H. lia.
  - apply ret_Done in H as [_ <-]. lia.
Qed.

Lemma select_step_consumes (songs : list Song) (num_tracks : Z) (picked : gset Z)
    (card : BingoTicket) (g g' : GameGenerator) (r : bool * gset Z * BingoTicket) :
  select_step songs num_tracks picked card g = Done (r, g') ->
  (entropy_left g' < entropy_left g)%nat.
Proof.
  unfold select_step. intros H. step_run H index g1 Hindex.
  unfold with_fuel in Hindex. apply pick_index_consumes in Hindex.
  destruct (songs !! Z.to_nat index) as [song |]; [| discriminate].
  destruct (_ =? num_tracks).
  - step_run H used g2 Hget. injection Hget as _ <-.
    case_decide.
    + by apply ret_Done in H as [_ <-].
    + step_run H u g3 Hadd. injection Hadd as _ <-.
      by apply ret_Done in H as [_ <-].
  - by apply ret_Done in H as [_ <-].
Qed.

Lemma select_loop_fuel (abort : bool) (fuel fuel' : nat) (songs : list Song)
    (num_tracks : Z) (picked : gset Z) (card : BingoTicket) (g : GameGenerator) :
  (entropy_left g < fuel)%nat -> (entropy_left g < fuel')%nat ->
  select_loop abort fuel songs num_tracks picked card g
  = select_loop abort fuel' songs num_tracks picked card g.
Proof.
  revert fuel' picked card g.
  induction fuel as [| fuel IH]; intros fuel' picked card g Hf Hf'; [lia |].
  destruct fuel' as [| fuel']; [lia |].
  cbn [select_loop]. destruct abort; [done |]. unfold bind.
  destruct (select_step songs num_tracks picked card g) as [[r g1] | e |] eqn:Hstep;
    [| done | done].
  apply select_step_consumes in Hstep.
  destruct r as [[valid picked1] card1]. destruct valid; [done |].
  apply IH; lia.
Qed.

Lemma select_loop_consumes (fuel : nat) (songs : list Song)
    (num_tracks : Z) (picked : gset Z) (card card' : BingoTicket) (g g' : GameGenerator) :
  select_loop false fuel songs num_tracks picked card g = Done (card', g') ->
  (entropy_left g' < entropy_left g)%nat.
Proof.
  revert picked card g. induction fuel as [| fuel IH]; intros picked card g H;
    [discriminate |].
  cbn [select_loop] in H. step_run H r g1 Hstep.
  apply select_step_consumes in Hstep.
  destruct r as [[valid picked1] card1]. destruct valid.
  - apply ret_Done in H as [_ <-]. done.
  - apply IH in H. lia.
Qed.

Lemma generate_step_consumes (options : Options) (tracks : list Song) (from_end count : Z)
    (cards : list BingoTicket) (g g' : GameGenerator)
    (r : option (Z * list BingoTicket)) :
  generate_step options false tracks from_end count cards g = Done (r, g') ->
  (entropy_left g' < entropy_left g)%nat.
Proof.
  unfold generate_step. intros H. step_run H card g1 Hcard.
  unfold select_songs_for_ticket, with_fuel in Hcard.
  apply select_loop_consumes in Hcard.
  step_run H win_point g2 Hwin. apply lift_Done in Hwin as [_ <-].
  destruct (negb _).
  - step_run H u g3 Hrm. unfold remove_used in Hrm.
    case_decide; [| discriminate]. injection Hrm as _ <-.
    by apply ret_Done in H as [_ <-].
  - by apply ret_Done in H as [_ <-].
Qed.

Lemma generate_loop_fuel (options : Options) (fuel fuel' : nat) (tracks : list Song)
    (amount from_end count : Z) (cards : list BingoTicket) (g : GameGenerator) :
  (entropy_left g < fuel)%nat -> (entropy_left g < fuel')%nat ->
  generate_loop options false fuel tracks amount from_end count cards g
  = generate_loop options false fuel' tracks amount from_end count cards g.
Proof.
  revert fuel' count cards g.
  induction fuel as [| fuel IH]; intros fuel' count cards g Hf Hf'; [lia |].
  destruct fuel' as [| fuel']; [lia |].
  cbn [generate_loop]. destruct (count <? amount); [| done]. unfold bind.
  destruct (generate_step options false tracks from_end count cards g)
    as [[r g1] | e |] eqn:Hstep; [| done | done].
  apply generate_step_consumes in Hstep.
  destruct r as [[count1 cards1] |]; [| done].
  apply IH; lia.
Qed.

(** The outcome of [generate_at_point] is that of its loop with any amount
    of fuel beyond the entropy supplied: a run that ends in [Starved] has
    used up its entropy, not its fuel. *)
Lemma generate_at_point_fuel (options : Options) (fuel : nat) (tracks : list Song)
    (amount from_end : Z) (g : GameGenerator) :
  (entropy_left g < fuel)%nat ->
  generate_loop options false fuel tracks amount from_end 0 [] g
  = generate_at_point options false tracks amount from_end g.
Proof.
  intros Hf. unfold generate_at_point, with_fuel.
  apply generate_loop_fuel; [done | unfold entropy_left; lia].
Qed.

Lemma select_songs_for_ticket_fuel (abort : bool) (fuel : nat) (songs : list Song)
    (card : BingoTicket) (num_tracks : Z) (g : GameGenerator) :
  (entropy_left g < fuel)%nat ->
  select_loop abort fuel songs num_tracks ∅
    {| card_id := 1; card_tracks := []; ticket_number := ticket_number card |} g
  = select_songs_for_ticket abort songs card num_tracks g.
Proof.
  intros Hf. unfold select_songs_for_ticket, with_fuel.
  apply select_loop_fuel; [done | unfold entropy_left; lia].
Qed.

(** *** The scheduler, the composer and the targeted generator

    The claims about [generate_all_cards] and [generate_at_point]. *)

(** C1.  When [generate_all_cards] returns without abort, the keys of the
    tickets it returns are pairwise distinct.  The mechanism is in the
    composer: a pass that completes a ticket whose key is already in the
    used-key set accepts nothing, forgets the picked indices and the songs,
    resets the key to 1 and leaves the used-key set alone, so that the next
    passes draw the ticket afresh. *)
Theorem generate_all_cards_distinct_keys (options : Options) (tracks : list Song)
    (g g' : GameGenerator) (cards : list BingoTicket) :
  generate_all_cards options false tracks g = Done (cards, g') ->
  NoDup (card_id <$> cards)
  /\ (forall songs num_tracks picked card g0 g1 valid picked' card',
        select_step songs num_tracks picked card g0 = Done (valid, picked', card', g1) ->
        exists index song,
          songs !! Z.to_nat index = Some song
          /\ (Z.of_nat (length (card_tracks card ++ [song])) = num_tracks ->
              card_id card * song_id song ∈ used_card_ids g0 ->
              valid = false /\ picked' = ∅ /\ card_id card' = 1
              /\ card_tracks card' = []
              /\ used_card_ids g1 = used_card_ids g0)).
Proof.
  intros H. split.
  - apply generate_all_cards_Done in H as (laid_out & Hnd & _ & HT & ->).
    assert (Hnum : NoDup (card_id <$> number_cards laid_out))
      by (by rewrite number_cards_keys).
    destruct (page_order options); [| done].
    destruct (submseteq_Permutation _ _
                (sort_cards_by_page_submseteq options (number_cards laid_out) ltac:(lia)))
      as [rest Hrest].
    rewrite Hrest, fmap_app in Hnum. by apply NoDup_app in Hnum as [Hnum _].
  - intros songs num_tracks picked card g0 g1 valid picked' card' Hstep.
    apply select_step_Done in Hstep as (index & song & _ & _ & Hsong & Hcases).
    exists index, song. split; [done |]. intros Hfull Hin.
    destruct Hcases as [(_ & _ & Hdropped) | [(_ & Hout & _) | (Hpart & _)]];
      [exact Hdropped | done | done].
Qed.

Lemma generate_all_cards_distinct_keys_witness :
  exists cards g',
    generate_all_cards example_options false example_songs example_generator
      = Done (cards, g')
    /\ NoDup (card_id <$> cards).
Proof.
  destruct (generate_all_cards example_options false example_songs example_generator)
    as [[cards g'] | e |] eqn:Hrun.
  - exists cards, g'. split; [reflexivity |].
    apply (generate_all_cards_distinct_keys _ _ _ _ _ Hrun).
  - exfalso. vm_compute in Hrun. discriminate.
  - exfalso. vm_compute in Hrun. discriminate.
Defined.

(** For [number_of_cards >= MIN_CARDS], a run of [generate_all_cards]
    that returns without abort returns exactly [number_of_cards] tickets,
    and their ticket numbers are the integers [1 .. number_of_cards], each
    once: in this order without page sorting, as a permutation with it.
    The count rests on the tier arithmetic: after the decay products are
    truncated, the fourth tier folded away when it is 0 or 1, and the last
    tier corrected by the remainder, no tier is negative and the four tiers
    and the four good cards add up to [number_of_cards].  (The bound on the
    number of tickets is that of the page sequencer.) *)
Lemma generate_all_cards_numbered (options : Options) (tracks : list Song)
    (g g' : GameGenerator) (cards : list BingoTicket) :
  MIN_CARDS <= number_of_cards options < 2 ^ 50 ->
  generate_all_cards options false tracks g = Done (cards, g') ->
  let T := number_of_cards options in
  let t := tier_counts options in
  Z.of_nat (length cards) = T
  /\ ticket_number <$> cards ≡ₚ Some <$> seqZ 1 T
  /\ (page_order options = false -> ticket_number <$> cards = Some <$> seqZ 1 T)
  /\ NoDup (ticket_number <$> cards)
  /\ (0 <= num_on_last t /\ 0 <= num_second_last t /\ 0 <= num_third_last t
      /\ 0 <= num_fourth_last t
      /\ num_on_last t + num_second_last t + num_third_last t
         + num_fourth_last t + amount_to_go = T).
Proof.
  intros [Hmin Hmax] H T t.
  pose proof (tier_counts_total options Hmin) as Htiers. fold t T in Htiers.
  apply generate_all_cards_Done in H as (laid_out & _ & Hlen & _ & ->). fold t in Hlen.
  assert (HlenT : Z.of_nat (length (number_cards laid_out)) = T)
    by (rewrite number_cards_length, Hlen; unfold amount_to_go in *; lia).
  assert (Hnum : ticket_number <$> number_cards laid_out = Some <$> seqZ 1 T)
    by (rewrite number_cards_numbers, <- HlenT, number_cards_length; done).
  assert (Hperm : (if page_order options
                   then sort_cards_by_page options (number_cards laid_out)
                   else number_cards laid_out) ≡ₚ number_cards laid_out).
  { destruct (page_order options); [| done]. by apply sort_cards_by_page_Permutation. }
  split; [by rewrite Hperm |].
  split; [by rewrite Hperm, Hnum |].
  split; [by intros -> |].
  split; [| done].
  rewrite Hperm, Hnum. apply NoDup_fmap_2; [apply _ | apply NoDup_seqZ].
Qed.

Lemma generate_all_cards_numbered_example :
  exists cards g',
    generate_all_cards example_options false example_songs example_generator
      = Done (cards, g')
    /\ Z.of_nat (length cards) = 15
    /\ ticket_number <$> cards ≡ₚ Some <$> seqZ 1 15.
Proof.
  destruct (generate_all_cards example_options false example_songs example_generator)
    as [[cards g'] | e |] eqn:Hrun.
  - exists cards, g'. split; [reflexivity |].
    destruct (generate_all_cards_numbered example_options example_songs
                example_generator g' cards) as (Hlen & Hnum & _);
      [split; [discriminate | reflexivity] | exact Hrun |].
    split; [exact Hlen | exact Hnum].
  - exfalso. vm_compute in Hrun. discriminate.
  - exfalso. vm_compute in Hrun. discriminate.
Qed.

(** C2 at pools that [check_options] accepts.  With 15 tickets the good
    cards are to win 3, 4, 5 and 6 songs before the end.  For tickets of 9
    songs (3 columns by 3 rows) and the 14 songs that [check_options] asks
    for, that is at positions 11, 10, 9 and 8, and no ticket of 9 distinct
    songs wins before position 9; for tickets of 6 songs and a pool of 10
    it is at positions 7, 6, 5 and 4.  Whatever is drawn,
    [generate_all_cards] does not return: [generate_at_point] rejects every
    ticket and draws again.  In general a run returns only if the pool has
    [songs_per_ticket + offset + 3] songs or more. *)
Theorem generate_all_cards_stuck_on_accepted_pool :
  (check_options square_primes ∅ square_options square_songs = Done tt
   /\ MIN_CARDS <= number_of_cards square_options
   /\ NoDup (ref_ids square_songs)
   /\ forall g cards g',
        generate_all_cards square_options false square_songs g <> Done (cards, g'))
  /\ (check_options example_primes ∅ small_pool_options (take 10 example_songs) = Done tt
      /\ MIN_CARDS <= number_of_cards small_pool_options
      /\ NoDup (ref_ids (take 10 example_songs))
      /\ forall g cards g',
           generate_all_cards small_pool_options false (take 10 example_songs) g
           <> Done (cards, g'))
  /\ (forall options tracks g cards g',
        NoDup (ref_ids tracks) ->
        generate_all_cards options false tracks g = Done (cards, g') ->
        songs_per_ticket options + offset (tier_counts options) + 3
        <= Z.of_nat (length tracks)).
Proof.
  assert (Hroom : forall options tracks g cards g',
             NoDup (ref_ids tracks) ->
             generate_all_cards options false tracks g = Done (cards, g') ->
             songs_per_ticket options + offset (tier_counts options) + 3
             <= Z.of_nat (length tracks)).
  { intros options tracks g cards g' Hnd H.
    by apply (generate_all_cards_room options tracks Hnd) in H. }
  assert (Hsquare : NoDup (ref_ids square_songs)).
  { apply (@bool_decide_unpack _ (NoDup_dec _)). vm_compute. exact I. }
  assert (Hsmall : NoDup (ref_ids (take 10 example_songs))).
  { apply (@bool_decide_unpack _ (NoDup_dec _)). vm_compute. exact I. }
  split; [| split; [| exact Hroom]].
  - split; [vm_compute; reflexivity |].
    split; [vm_compute; discriminate |].
    split; [exact Hsquare |].
    intros g cards g' H. apply Hroom in H; [| exact Hsquare].
    vm_compute in H. by apply H.
  - split; [vm_compute; reflexivity |].
    split; [vm_compute; discriminate |].
    split; [exact Hsmall |].
    intros g cards g' H. apply Hroom in H; [| exact Hsmall].
    vm_compute in H. by apply H.
Qed.

(** C5, as the code has it.  A call of [generate_at_point] need not
    return.  When it does (without abort) it returns [amount] tickets (none
    if [amount] is negative), each of which wins at
    [len(tracks) - from_end], and the
    used-key set has grown by exactly the keys of the tickets returned.
    Pass by pass: the composer registers the key of the ticket it hands
    over; a ticket with the wrong win point is dropped and its key removed
    from the set, which is then as it was before the pass; a ticket with
    the right win point is appended and its key stays in the set.  The call
    returns as soon as the draws have composed the tickets asked for: on
    favourable draws it returns, after exactly these draws, the tickets
    that they make; and it does so too when before each of them tickets
    with another win point are drawn, which are rejected and leave no
    trace.  It returns a ticket only if one can win at the point asked
    for: on a play order of distinct songs, only if
    [songs_per_ticket <= len(tracks) - from_end]. *)
Theorem generate_at_point_accepts (options : Options) (tracks : list Song) (from_end : Z) :
  let target := Z.of_nat (length tracks) - from_end in
  (forall amount g g' cards,
     generate_at_point options false tracks amount from_end g = Done (cards, g') ->
     Z.of_nat (length cards) = Z.max 0 amount
     /\ (0 <= amount -> Z.of_nat (length cards) = amount)
     /\ (forall card, card ∈ cards -> get_when_ticket_wins tracks card = Done target)
     /\ (forall card, card ∈ cards -> card_id card ∈ used_card_ids g')
     /\ used_card_ids g' = used_card_ids g ∪ list_to_set (card_id <$> cards))
  /\ (forall count cards0 g0 g1 r,
        generate_step options false tracks from_end count cards0 g0 = Done (r, g1) ->
        exists card g_mid win_point,
          select_songs_for_ticket false tracks new_ticket (songs_per_ticket options) g0
            = Done (card, g_mid)
          /\ card_id card ∈ used_card_ids g_mid
          /\ get_when_ticket_wins tracks card = Done win_point
          /\ ((win_point <> target
               /\ r = Some (count, cards0)
               /\ (card_id card ∉ used_card_ids g1)
               /\ used_card_ids g1 = used_card_ids g0)
              \/ (win_point = target
                  /\ r = Some (count + 1, cards0 ++ [card])
                  /\ card_id card ∈ used_card_ids g1)))
  /\ (forall draws used entropy random,
        favourable options tracks from_end used draws ->
        generate_at_point options false tracks (Z.of_nat (length draws)) from_end
          {| used_card_ids := used; secrets_entropy := concat draws ++ entropy;
             random_entropy := random |}
        = Done (ticket_at tracks <$> draws,
                {| used_card_ids :=
                     used ∪ list_to_set (card_id <$> (ticket_at tracks <$> draws));
                   secrets_entropy := entropy; random_entropy := random |}))
  /\ (forall (rounds : list (list (list Z) * list Z)) used entropy random,
        let draws := snd <$> rounds in
        let keys := list_to_set (card_id <$> (ticket_at tracks <$> draws)) : gset Z in
        favourable options tracks from_end used draws ->
        Forall (fun round : list (list Z) * list Z =>
                  Forall (rejected options tracks from_end (used ∪ keys)) round.1)
               rounds ->
        generate_at_point options false tracks (Z.of_nat (length rounds)) from_end
          {| used_card_ids := used; secrets_entropy := draws_of rounds ++ entropy;
             random_entropy := random |}
        = Done (ticket_at tracks <$> draws,
                {| used_card_ids := used ∪ keys;
                   secrets_entropy := entropy; random_entropy := random |}))
  /\ (forall amount g g' cards,
        NoDup (ref_ids tracks) ->
        0 < amount ->
        generate_at_point options false tracks amount from_end g = Done (cards, g') ->
        songs_per_ticket options <= target).
Proof.
  intros target. split; [| split; [| split; [| split]]].
  - intros amount g g' cards H.
    apply generate_at_point_Done in H as (Hlen & Hnd & Hall & Hused).
    split; [done |]. split; [lia |].
    split; [intros card Hcard; by destruct (Hall card Hcard) as (_ & Hwin & _) |].
    split; [| done].
    intros card Hcard. rewrite Hused.
    apply elem_of_union_r, elem_of_list_to_set, list_elem_of_fmap_2, Hcard.
  - intros count cards0 g0 g1 r Hstep.
    apply generate_step_Done in Hstep
      as (card & g_mid & win_point & Hsel & _ & Hreg & _ & Hwin & Hcases).
    exists card, g_mid, win_point. do 3 (split; [done |]).
    destruct Hcases as [(? & ? & ? & ?) | (? & ? & ? & ?)]; [left | right]; done.
  - intros draws used entropy random Hfav. by apply generate_at_point_hit.
  - intros rounds used entropy random draws keys Hfav Hrejected.
    by apply generate_at_point_rounds.
  - intros amount g g' cards Hnd Hamount H.
    by apply (generate_at_point_room options tracks Hnd amount from_end cards g g').
Qed.

Lemma generate_at_point_accepts_witness :
  (exists cards g',
     generate_at_point example_options false example_songs 3 1 example_generator
       = Done (cards, g')
     /\ Z.of_nat (length cards) = 3
     /\ (forall card, card ∈ cards -> get_when_ticket_wins example_songs card = Done 11))
  /\ generate_at_point example_options false example_songs 2 1
       {| used_card_ids := ∅; secrets_entropy := [10; 0; 1; 3; 10; 2; 77];
          random_entropy := [] |}
     = Done (ticket_at example_songs <$> [[10; 0; 1]; [3; 10; 2]],
             {| used_card_ids := ∅ ∪ {[ 186 ]} ∪ {[ 1085 ]};
                secrets_entropy := [77]; random_entropy := [] |})
  /\ generate_at_point example_options false example_songs 2 1
       {| used_card_ids := ∅;
          secrets_entropy := [0; 1; 2; 10; 0; 1; 4; 5; 6; 0; 1; 2; 3; 10; 2; 77];
          random_entropy := [] |}
     = Done (ticket_at example_songs <$> [[10; 0; 1]; [3; 10; 2]],
             {| used_card_ids := ∅ ∪ {[ 186 ]} ∪ {[ 1085 ]};
                secrets_entropy := [77]; random_entropy := [] |}).
Proof.
  destruct (generate_at_point_accepts example_options example_songs 1)
    as (Hreturned & _ & Hreturns & Hretries & _).
  assert (Hfav : favourable example_options example_songs 1 ∅ [[10; 0; 1]; [3; 10; 2]]).
  { split; [| split].
    - repeat (apply Forall_cons; split); [| | apply Forall_nil_2].
      all: split; [discriminate |].
      all: split; [apply (@bool_decide_unpack _ (NoDup_dec _)); vm_compute; exact I |].
      all: split; [repeat (apply Forall_cons; split); cbn; try lia; apply Forall_nil_2 |].
      all: split; vm_compute; reflexivity.
    - apply (@bool_decide_unpack _ (NoDup_dec _)). vm_compute. exact I.
    - intros idxs _. apply not_elem_of_empty. }
  split; [| split].
  - destruct (generate_at_point example_options false example_songs 3 1 example_generator)
      as [[cards g'] | e |] eqn:Hrun.
    + exists cards, g'. split; [reflexivity |].
      destruct (Hreturned _ _ _ _ Hrun) as (_ & Hlen & Hwin & _).
      split; [apply Hlen; lia | exact Hwin].
    + exfalso. vm_compute in Hrun. discriminate.
    + exfalso. vm_compute in Hrun. discriminate.
  - exact (Hreturns [[10; 0; 1]; [3; 10; 2]] ∅ [77] [] Hfav).
  - refine (Hretries [([[0; 1; 2]], [10; 0; 1]); ([[4; 5; 6]; [0; 1; 2]], [3; 10; 2])]
              ∅ [77] [] Hfav _).
    + repeat (apply Forall_cons; split); try apply Forall_nil_2.
      all: split; [discriminate |].
      all: split; [apply (@bool_decide_unpack _ (NoDup_dec _)); vm_compute; exact I |].
      all: split; [repeat (apply Forall_cons; split); cbn; try lia; apply Forall_nil_2 |].
      all: split; [vm_compute; reflexivity |].
      all: split; [apply (@bool_decide_unpack _ _); vm_compute; exact I |].
      all: eexists; split; [vm_compute; reflexivity | discriminate].
Defined.

(** C5 as stated fails: the call does not always return [amount] tickets.
    On the 14 songs that [check_options] accepts for tickets of 9 songs, a
    ticket that wins 6 songs before the end would win at position 8, which
    no ticket of 9 different songs can: whatever is drawn, the call
    [generate_at_point(tracks, 1, 6)] rejects every ticket and never
    returns. *)
Lemma generate_at_point_never_returns :
  check_options square_primes ∅ square_options square_songs = Done tt
  /\ NoDup (ref_ids square_songs)
  /\ forall g cards g',
       generate_at_point square_options false square_songs 1 6 g <> Done (cards, g').
Proof.
  assert (Hsquare : NoDup (ref_ids square_songs)).
  { apply (@bool_decide_unpack _ (NoDup_dec _)). vm_compute. exact I. }
  split; [vm_compute; reflexivity |]. split; [exact Hsquare |].
  intros g cards g' H.
  apply (generate_at_point_room square_options square_songs Hsquare) in H; [| lia].
  vm_compute in H. by apply H.
Qed.
(** * Further properties *)

(** ** Subscripts *)

Lemma index_inside (n i : Z) :
  0 <= i < n -> PyList.index n i = Some (Z.to_nat i).
Proof.
  intros Hi. unfold PyList.index.
  destruct (Z.ltb_spec i 0); [lia |].
  destruct (Z.leb_spec 0 i); [| lia]. destruct (Z.ltb_spec i n); [| lia]. done.
Qed.

Lemma index_Some (n i : Z) (k : nat) :
  PyList.index n i = Some k -> (Z.of_nat k < n) /\ (- n <= i < n).
Proof.
  unfold PyList.index.
  destruct (Z.ltb_spec i 0);
    match goal with |- context [ (0 <=? ?a) && (?a <? n) ] =>
      destruct (Z.leb_spec 0 a); destruct (Z.ltb_spec a n) end;
    cbn; intros [= <-]; lia.
Qed.

Lemma getitem_inside {A : Type} (l : list A) (i : Z) :
  0 <= i < Z.of_nat (length l) ->
  exists a, PyList.getitem l i = Done a /\ l !! Z.to_nat i = Some a.
Proof.
  intros Hi. unfold PyList.getitem. rewrite index_inside by done.
  destruct (lookup_lt_is_Some_2 l (Z.to_nat i)) as [a Ha]; [lia |].
  rewrite Ha. eauto.
Qed.

Lemma setitem_inside {A : Type} (l : list A) (i : Z) (a : A) :
  0 <= i < Z.of_nat (length l) ->
  PyList.setitem l i a = Done (<[Z.to_nat i := a]> l).
Proof.
  intros Hi. unfold PyList.setitem. by rewrite index_inside.
Qed.

(** ** The colours of the boxes *)

Lemma land_1_parity (n : Z) :
  (Z.land n 1 =? 0) = Z.even n /\ (Z.land n 1 =? 1) = Z.odd n.
Proof.
  assert (H : Z.land n 1 = n mod 2) by (apply (Z.land_ones n 1); lia).
  rewrite H, Zmod_even, <- Z.negb_even. by destruct (Z.even n).
Qed.

Lemma box_colour_style_plain {Colour : Type} (palette : Palette Colour)
    (columns col row : Z) :
  colours palette = [] ->
  box_colour_style palette columns col row
  = Done (if Z.even (col + row) then box_alternate_bg palette
          else box_normal_bg palette).
Proof.
  intros Hplain. unfold box_colour_style. rewrite Hplain.
  destruct (land_1_parity col) as [-> ->]. destruct (land_1_parity row) as [-> ->].
  rewrite Z.even_add, <- !Z.negb_even.
  by destruct (Z.even col), (Z.even row).
Qed.

(** X1.  Without a list of colours in the palette [box_colour_style]
    chequers the ticket: a box has the alternate background exactly when
    its column and row add up to an even number (whatever their signs), so
    the boxes to the right of it and below it have the other background. *)
Theorem box_colour_style_chequered {Colour : Type} (palette : Palette Colour)
    (columns col row : Z) :
  colours palette = [] ->
  let this := if Z.even (col + row) then box_alternate_bg palette
              else box_normal_bg palette in
  let other := if Z.even (col + row) then box_normal_bg palette
               else box_alternate_bg palette in
  box_colour_style palette columns col row = Done this
  /\ box_colour_style palette columns (col + 1) row = Done other
  /\ box_colour_style palette columns col (row + 1) = Done other
  /\ box_colour_style palette columns (col + 1) (row + 1) = Done this.
Proof.
  intros Hplain this other. subst this other.
  rewrite !box_colour_style_plain by done.
  replace (col + 1 + row) with (col + row + 1) by lia.
  replace (col + (row + 1)) with (col + row + 1) by lia.
  replace (col + 1 + (row + 1)) with (col + row + 1 + 1) by lia.
  rewrite !(Z.even_add _ 1). cbn [Z.even].
  by destruct (Z.even (col + row)).
Qed.

Lemma box_colour_style_chequered_witness :
  let palette := {| colours := []; box_normal_bg := "white"; box_alternate_bg := "grey" |} in
  box_colour_style palette 5 2 1 = Done "white"
  /\ box_colour_style palette 5 3 1 = Done "grey"
  /\ box_colour_style palette 5 2 2 = Done "grey".
Proof.
  intros palette.
  destruct (box_colour_style_chequered palette 5 2 1 eq_refl) as (H1 & H2 & H3 & _).
  split; [exact H1 | split; [exact H2 | exact H3]].
Defined.

(** X2.  With a list of colours in the palette [box_colour_style] never
    raises: the box takes the colour at position
    [(col + row * columns) mod len(colours)], also for negative columns and
    rows.  Boxes whose numbers [col + row * columns] differ by a multiple of
    the number of colours have the same colour, so the colours repeat along
    a row with that period, and when the number of colours divides the
    number of columns every row is coloured like the first. *)
Theorem box_colour_style_cycles {Colour : Type} (palette : Palette Colour)
    (columns col row : Z) :
  colours palette <> [] ->
  let n := Z.of_nat (length (colours palette)) in
  exists colour,
    box_colour_style palette columns col row = Done colour
    /\ colours palette !! Z.to_nat ((col + row * columns) mod n) = Some colour
    /\ (forall col' row',
          (col' + row' * columns) mod n = (col + row * columns) mod n ->
          box_colour_style palette columns col' row' = Done colour)
    /\ box_colour_style palette columns (col + n) row = Done colour
    /\ (columns mod n = 0 ->
        forall row', box_colour_style palette columns col row' = Done colour).
Proof.
  intros Hcolours n.
  assert (Hn : 0 < n) by (subst n; destruct (colours palette); [done | cbn; lia]).
  assert (Hbox : forall col' row',
             box_colour_style palette columns col' row'
             = PyList.getitem (colours palette) ((col' + row' * columns) mod n)).
  { intros col' row'. unfold box_colour_style.
    destruct (colours palette) eqn:E; [done | reflexivity]. }
  destruct (getitem_inside (colours palette) ((col + row * columns) mod n))
    as (colour & Hget & Hlookup); [apply Z.mod_pos_bound, Hn |].
  exists colour. split; [by rewrite Hbox |]. split; [done |].
  assert (Hsame : forall col' row',
             (col' + row' * columns) mod n = (col + row * columns) mod n ->
             box_colour_style palette columns col' row' = Done colour).
  { intros col' row' Heq. by rewrite Hbox, Heq. }
  split; [exact Hsame |]. split.
  - apply Hsame. replace (col + n + row * columns) with (col + row * columns + 1 * n) by lia.
    apply Z.mod_add. lia.
  - intros Hdiv row'. apply Hsame.
    apply Z.mod_divide in Hdiv as [q Hq]; [| lia].
    replace (col + row' * columns) with (col + row * columns + ((row' - row) * q) * n)
      by (rewrite Hq; ring).
    apply Z.mod_add. lia.
Qed.

Lemma box_colour_style_cycles_witness :
  let palette := {| colours := ["red"; "green"; "blue"];
                    box_normal_bg := "white"; box_alternate_bg := "grey" |} in
  box_colour_style palette 5 4 1 = Done "red"
  /\ box_colour_style palette 5 (-2) 0 = Done "green".
Proof.
  intros palette.
  destruct (box_colour_style_cycles palette 5 4 1) as (colour & H1 & Hat & Hsame & _);
    [discriminate |].
  injection Hat as <-. split; [exact H1 |]. reflexivity.
Defined.

(** ** Song ids and ticket keys *)

Lemma assign_loop_Done (PRIME_NUMBERS : list Z) (index : Z) (songs : list Song) :
  0 <= index ->
  index + Z.of_nat (length songs) <= Z.of_nat (length PRIME_NUMBERS) ->
  exists songs',
    assign_loop PRIME_NUMBERS index songs = Done songs'
    /\ song_id <$> songs' = take (length songs) (drop (Z.to_nat index) PRIME_NUMBERS)
    /\ ref_ids songs' = ref_ids songs
    /\ title <$> songs' = title <$> songs.
Proof.
  revert index. induction songs as [| song rest IH]; intros index H0 Hlen.
  - exists []. done.
  - cbn [length] in Hlen. cbn [assign_loop].
    destruct (getitem_inside PRIME_NUMBERS index) as (prime & -> & Hprime); [lia |].
    destruct (IH (index + 1)) as (rest' & -> & Hids & Hrefs & Htitles); [lia | lia |].
    cbn [obind]. eexists. split; [reflexivity |].
    cbn [fmap list_fmap length]. unfold ref_ids in *. cbn [fmap list_fmap].
    fold (fmap (M:=list) song_id rest') (fmap (M:=list) ref_id rest')
         (fmap (M:=list) title rest') (fmap (M:=list) ref_id rest)
         (fmap (M:=list) title rest).
    rewrite Hids, Hrefs, Htitles. split; [| done].
    rewrite (drop_S _ _ _ Hprime). cbn [take].
    replace (Z.to_nat (index + 1)) with (S (Z.to_nat index)) by lia. done.
Qed.

Lemma check_options_bingo_Done (PRIME_NUMBERS : list Z)
    (QUIZ_COUNTDOWN_POSITIONS : gmap string (Z * Z))
    (options : Options) (songs : list Song) :
  mode options = BINGO ->
  check_options PRIME_NUMBERS QUIZ_COUNTDOWN_POSITIONS options songs = Done tt ->
  songs <> [] /\ game_id options <> ""
  /\ min_songs options <= Z.of_nat (length songs) <= Z.of_nat (length PRIME_NUMBERS)
  /\ MIN_CARDS <= number_of_cards options
  /\ exists max_cards,
       combinations (Z.of_nat (length songs)) (songs_per_ticket options) = Done max_cards
       /\ number_of_cards options <= max_cards.
Proof.
  intros Hmode. unfold check_options, MAX_SONGS.
  destruct (Z.eqb_spec (Z.of_nat (length songs)) 0); [discriminate |].
  rewrite decide_False by (rewrite Hmode; discriminate).
  rewrite decide_False by (rewrite Hmode; tauto).
  case_decide; [discriminate |].
  destruct (Z.ltb_spec (Z.of_nat (length songs)) (min_songs options)); [discriminate |].
  destruct (Z.gtb_spec (Z.of_nat (length songs)) (Z.of_nat (length PRIME_NUMBERS)));
    [discriminate |].
  destruct (Z.ltb_spec (number_of_cards options) MIN_CARDS); [discriminate |].
  destruct (combinations _ _) as [max_cards | |]; cbn [obind]; [| discriminate ..].
  destruct (Z.gtb_spec (number_of_cards options) max_cards); [discriminate |].
  intros _. split; [by destruct songs |]. split; [done |]. split; [lia |].
  split; [done |]. exists max_cards. split; [done | lia].
Qed.

(** X3.  [assign_song_ids] never raises.  With more songs than prime
    numbers it returns [False] and leaves the songs as they are; otherwise
    it returns [True] and has given the song at position [i] the prime at
    position [i], leaving the ref_ids and titles alone, so that the song
    ids are pairwise distinct when the prime numbers are.  It returns
    [True] on every song list that [check_options] has accepted for a game
    of bingo. *)
Theorem assign_song_ids_assigns (PRIME_NUMBERS : list Z) (songs : list Song) :
  ((length PRIME_NUMBERS < length songs)%nat ->
   assign_song_ids PRIME_NUMBERS songs = Done (false, songs))
  /\ ((length songs <= length PRIME_NUMBERS)%nat ->
      exists songs',
        assign_song_ids PRIME_NUMBERS songs = Done (true, songs')
        /\ song_id <$> songs' = take (length songs) PRIME_NUMBERS
        /\ ref_ids songs' = ref_ids songs
        /\ title <$> songs' = title <$> songs
        /\ (NoDup PRIME_NUMBERS -> NoDup (song_id <$> songs')))
  /\ (forall QUIZ_COUNTDOWN_POSITIONS options,
        mode options = BINGO ->
        check_options PRIME_NUMBERS QUIZ_COUNTDOWN_POSITIONS options songs = Done tt ->
        exists songs', assign_song_ids PRIME_NUMBERS songs = Done (true, songs')).
Proof.
  assert (Hfits : (length songs <= length PRIME_NUMBERS)%nat ->
      exists songs',
        assign_song_ids PRIME_NUMBERS songs = Done (true, songs')
        /\ song_id <$> songs' = take (length songs) PRIME_NUMBERS
        /\ ref_ids songs' = ref_ids songs
        /\ title <$> songs' = title <$> songs
        /\ (NoDup PRIME_NUMBERS -> NoDup (song_id <$> songs'))).
  { intros Hlen. unfold assign_song_ids.
    destruct (Z.gtb_spec (Z.of_nat (length songs)) (Z.of_nat (length PRIME_NUMBERS)));
      [lia |].
    destruct (assign_loop_Done PRIME_NUMBERS 0 songs) as (songs' & -> & Hids & Hrefs & Ht);
      [lia | lia |].
    exists songs'. split; [done |]. change (Z.to_nat 0) with 0%nat in Hids.
    rewrite drop_0 in Hids. repeat split; try done.
    intros Hnd. rewrite Hids. eapply sublist_NoDup; [done | apply sublist_take]. }
  split; [| split; [exact Hfits |]].
  - intros Hlen. unfold assign_song_ids.
    destruct (Z.gtb_spec (Z.of_nat (length songs)) (Z.of_nat (length PRIME_NUMBERS)));
      [done | lia].
  - intros QUIZ_COUNTDOWN_POSITIONS options Hmode Hcheck.
    apply check_options_bingo_Done in Hcheck as (_ & _ & Hlen & _); [| done].
    destruct Hfits as (songs' & H & _); [lia |]. eauto.
Qed.

Lemma is_prime_sound (n : Z) : is_prime n = true -> Z.prime n.
Proof.
  unfold is_prime. intros [Hn Hall]%andb_prop.
  apply Z.ltb_lt in Hn. split; [done |].
  intros d Hd Hdiv. rewrite forallb_forall in Hall.
  assert (Hin : In d (seqZ 2 (n - 2))).
  { apply list_elem_of_In, elem_of_seqZ. lia. }
  apply Hall in Hin. apply negb_true_iff, Z.eqb_neq in Hin.
  apply Hin. apply Z.mod_divide; [lia | done].
Qed.

Lemma key_of_from (songs : list Song) (key : Z) :
  fold_left (fun key song => key * song_id song) songs key = key * key_of songs.
Proof.
  unfold key_of. revert key. induction songs as [| song rest IH]; intros key.
  - cbn. lia.
  - cbn [fold_left]. rewrite IH, (IH (1 * song_id song)). lia.
Qed.

Lemma key_of_cons (song : Song) (songs : list Song) :
  key_of (song :: songs) = song_id song * key_of songs.
Proof.
  unfold key_of at 1. cbn [fold_left]. rewrite key_of_from. lia.
Qed.

Lemma key_of_Permutation (songs songs' : list Song) :
  songs ≡ₚ songs' -> key_of songs = key_of songs'.
Proof.
  induction 1 as [| song l l' _ IH | a b l | l1 l2 l3 _ IH1 _ IH2].
  - done.
  - by rewrite !key_of_cons, IH.
  - rewrite !key_of_cons. lia.
  - congruence.
Qed.

Lemma key_of_divides (song : Song) (songs : list Song) :
  song ∈ songs -> (song_id song | key_of songs).
Proof.
  induction songs as [| s rest IH]; intros Hin; [by apply elem_of_nil in Hin |].
  rewrite key_of_cons. apply elem_of_cons in Hin as [-> | Hin].
  - apply Z.divide_mul_l, Z.divide_refl.
  - apply Z.divide_mul_r, IH, Hin.
Qed.

Lemma prime_divides_key (p : Z) (songs : list Song) :
  Z.prime p -> (p | key_of songs) -> exists song, song ∈ songs /\ (p | song_id song).
Proof.
  intros Hp. induction songs as [| s rest IH]; intros Hdiv.
  - unfold key_of in Hdiv. cbn in Hdiv.
    destruct Hp as [Hp _]. apply Z.divide_1_r_nonneg in Hdiv; lia.
  - rewrite key_of_cons in Hdiv. apply Z.divide_prime_mul in Hdiv as [Hs | Hrest]; [| | done].
    + exists s. split; [left | done].
    + destruct (IH Hrest) as (song & Hin & Hsong). exists song. split; [by right | done].
Qed.

Lemma drawn_from_pool (songs : list Song) (idxs : list Z) (card : BingoTicket) :
  drawn_from songs idxs card ->
  (forall song, song ∈ card_tracks card -> song ∈ songs)
  /\ (NoDup (song_id <$> songs) -> NoDup (card_tracks card)).
Proof.
  intros (Hnd & Hpos & Hall & _). split.
  - intros song Hin. apply list_elem_of_lookup in Hin as [k Hk].
    destruct (Forall2_lookup_r _ _ _ _ _ Hall Hk) as (i & _ & Hi).
    by apply list_elem_of_lookup_2 in Hi.
  - intros Hids. apply NoDup_alt. intros k1 k2 song H1 H2.
    destruct (Forall2_lookup_r _ _ _ _ _ Hall H1) as (i1 & Hi1 & Hs1).
    destruct (Forall2_lookup_r _ _ _ _ _ Hall H2) as (i2 & Hi2 & Hs2).
    assert (Heq : Z.to_nat i1 = Z.to_nat i2).
    { apply (NoDup_lookup _ _ _ (song_id song) Hids);
        rewrite list_lookup_fmap; [by rewrite Hs1 | by rewrite Hs2]. }
    assert (i1 = i2).
    { pose proof (Hpos i1 (list_elem_of_lookup_2 _ _ _ Hi1)).
      pose proof (Hpos i2 (list_elem_of_lookup_2 _ _ _ Hi2)). lia. }
    subst i2. by apply (NoDup_lookup idxs k1 k2 i1).
Qed.

(** X4.  When the song ids of the pool are pairwise distinct primes, as
    [assign_song_ids] hands them out, the key of a ticket composed from the
    pool tells which songs are on it: two such tickets have the same key
    exactly when they hold the same songs, in whatever order. *)
Theorem ticket_key_identifies_songs (songs : list Song) (idxs idxs' : list Z)
    (card card' : BingoTicket) :
  Forall (fun song => Z.prime (song_id song)) songs ->
  NoDup (song_id <$> songs) ->
  drawn_from songs idxs card ->
  drawn_from songs idxs' card' ->
  card_id card = card_id card' <-> card_tracks card ≡ₚ card_tracks card'.
Proof.
  intros Hprime Hids Hcard Hcard'.
  destruct (drawn_from_pool _ _ _ Hcard) as [Hpool Hnd].
  destruct (drawn_from_pool _ _ _ Hcard') as [Hpool' Hnd'].
  destruct Hcard as (_ & _ & _ & Hkey). destruct Hcard' as (_ & _ & _ & Hkey').
  rewrite Hkey, Hkey'. split; [| apply key_of_Permutation].
  intros Heq.
  assert (Hsub : forall a b : list Song,
             (forall song, song ∈ a -> song ∈ songs) ->
             (forall song, song ∈ b -> song ∈ songs) ->
             key_of a = key_of b -> forall song, song ∈ a -> song ∈ b).
  { intros a b Ha Hb Hab song Hin.
    rewrite Forall_forall in Hprime.
    pose proof (key_of_divides song a Hin) as Hdiv. rewrite Hab in Hdiv.
    apply prime_divides_key in Hdiv as (other & Hother & Hdiv); [| apply Hprime, Ha, Hin].
    apply Z.divide_prime_prime in Hdiv; [| apply Hprime, Ha, Hin | apply Hprime, Hb, Hother].
    assert (song = other); [| by subst].
    destruct (list_elem_of_lookup_1 songs song (Ha song Hin)) as [i Hi].
    destruct (list_elem_of_lookup_1 songs other (Hb other Hother)) as [j Hj].
    assert (i = j).
    { apply (NoDup_lookup _ _ _ (song_id song) Hids);
        rewrite list_lookup_fmap; [by rewrite Hi | by rewrite Hj, Hdiv]. }
    subst j. congruence. }
  apply NoDup_Permutation; [by apply Hnd | by apply Hnd' |].
  intros song. split; [by apply Hsub | by apply Hsub].
Qed.

Lemma ticket_at_drawn_from (songs : list Song) (idxs : list Z) :
  NoDup idxs ->
  Forall (fun i => 0 <= i < Z.of_nat (length songs)) idxs ->
  drawn_from songs idxs (ticket_at songs idxs).
Proof.
  intros Hnd Hrange. split; [done |]. split.
  - intros i Hi. rewrite Forall_forall in Hrange. apply Hrange in Hi. lia.
  - split; [| reflexivity]. cbn [card_tracks ticket_at]. unfold songs_at.
    clear Hnd. induction Hrange as [| i idxs Hi _ IH]; [constructor |].
    cbn [omap list_omap].
    destruct (lookup_lt_is_Some_2 songs (Z.to_nat i)) as [song Hsong]; [lia |].
    rewrite Hsong. cbn. constructor; [done | exact IH].
Qed.

Lemma ticket_key_identifies_songs_witness :
  card_id (ticket_at example_songs [0; 1; 2]) = card_id (ticket_at example_songs [2; 0; 1])
  <-> card_tracks (ticket_at example_songs [0; 1; 2])
      ≡ₚ card_tracks (ticket_at example_songs [2; 0; 1]).
Proof.
  apply (ticket_key_identifies_songs example_songs [0; 1; 2] [2; 0; 1]).
  - repeat (apply Forall_cons; split; [apply is_prime_sound; vm_compute; reflexivity |]).
    apply Forall_nil_2.
  - apply (@bool_decide_unpack _ (NoDup_dec _)). vm_compute. exact I.
  - apply ticket_at_drawn_from.
    + apply (@bool_decide_unpack _ (NoDup_dec _)). vm_compute. exact I.
    + repeat (apply Forall_cons; split; [cbn; lia |]). apply Forall_nil_2.
  - apply ticket_at_drawn_from.
    + apply (@bool_decide_unpack _ (NoDup_dec _)). vm_compute. exact I.
    + repeat (apply Forall_cons; split; [cbn; lia |]). apply Forall_nil_2.
Defined.

(** ** The order of the tracks *)

(** A finer form of the error bound of a float operation. *)
Lemma binary64_tight (x : Q) :
  (0 <= x)%Q ->
  (0 <= Py.binary64 x)%Q
  /\ (x - x * (1 # 1000000) - (1 # 1000000) <= Py.binary64 x)%Q
  /\ (Py.binary64 x <= x + x * (1 # 1000000) + (1 # 1000000))%Q.
Proof.
  intros Hx. split; [by apply binary64_nonneg |].
  pose proof (binary64_error x) as Herr.
  rewrite (Qabs_pos x) in Herr by done.
  apply Qabs_Qle_condition in Herr.
  assert (Hc1 : (2 ^ (-53) == 1 # 9007199254740992)%Q) by reflexivity.
  assert (Hc2 : (2 ^ (-1075) <= 1 # 1000000)%Q) by (vm_compute; discriminate).
  rewrite Hc1 in Herr.
  revert Herr Hc2. generalize (2 ^ (-1075))%Q. intros eps Herr Hc2.
  split; lra.
Qed.

Lemma rand_float_draw (g : GameGenerator) (k : Z) (rest : list Z) :
  secrets_entropy g = k :: rest ->
  exists r,
    rand_float g
    = Done (r, {| used_card_ids := used_card_ids g; secrets_entropy := rest;
                  random_entropy := random_entropy g |})
    /\ r = Py.fdiv (Py.float (k mod 1000)) 1000
    /\ (0 <= r)%Q /\ (r <= 9991 # 10000)%Q.
Proof.
  intros He. unfold rand_float, bind, randbelow, ret. cbn [Z.leb Z.compare].
  rewrite He. eexists. split; [reflexivity |]. split; [reflexivity |].
  pose proof (Z.mod_pos_bound k 1000 ltac:(lia)) as Hrange.
  generalize dependent (k mod 1000). intros m Hm.
  unfold Py.fdiv, Py.float.
  assert (Hkq : (0 <= inject_Z m)%Q /\ (inject_Z m <= 999)%Q).
  { split; [change 0%Q with (inject_Z 0) | change 999%Q with (inject_Z 999)];
      rewrite <- Zle_Qle; lia. }
  destruct (binary64_tight (inject_Z m)) as (H0 & _ & Hhi); [tauto |].
  set (fk := Py.binary64 (inject_Z m)) in *.
  assert (Hdiv : (0 <= fk / 1000)%Q /\ (fk / 1000 <= 9990011 # 10000000)%Q).
  { assert (Hq : (fk / 1000 == fk * (1 # 1000))%Q) by (field).
    rewrite Hq. split; lra. }
  destruct (binary64_tight (fk / 1000)) as (Hr0 & _ & Hrhi); [tauto |].
  split; [done |]. lra.
Qed.

(** X5.  [rand_float] draws once from [secrets.randbelow(1000)] and
    returns a float that is not negative and below 1 (at most 0.9991): the
    [k] drawn, divided by 1000 in float arithmetic.  It raises nothing. *)
Theorem rand_float_below_one (g : GameGenerator) :
  (secrets_entropy g = [] -> rand_float g = Starved)
  /\ (forall k rest,
        secrets_entropy g = k :: rest ->
        exists r,
          rand_float g
          = Done (r, {| used_card_ids := used_card_ids g; secrets_entropy := rest;
                        random_entropy := random_entropy g |})
          /\ r = Py.fdiv (Py.float (k mod 1000)) 1000
          /\ (0 <= r)%Q /\ (r < 1)%Q
          /\ Py.int r = 0).
Proof.
  split.
  - intros He. unfold rand_float, bind, randbelow. cbn. by rewrite He.
  - intros k rest He.
    destruct (rand_float_draw g k rest He) as (r & Hrun & Hr & H0 & H1).
    exists r. split; [done |]. split; [done |]. split; [done |].
    split; [lra |].
    destruct (int_bounds r H0) as [Hi0 Hi].
    assert (Hlt : (inject_Z (Py.int r) < inject_Z 1)%Q)
      by (change (inject_Z 1) with 1%Q; lra).
    rewrite <- Zlt_Qlt in Hlt. lia.
Qed.

Lemma shuffle_index_inside (r : Q) (i : nat) :
  (0 <= r)%Q -> (r <= 9991 # 10000)%Q ->
  0 <= Py.int (Py.fmul r (Py.float (Z.of_nat i + 1))) <= Z.of_nat i.
Proof.
  intros H0 H1. unfold Py.fmul, Py.float.
  assert (Hn : (1 <= inject_Z (Z.of_nat i + 1))%Q).
  { change 1%Q with (inject_Z 1). rewrite <- Zle_Qle. lia. }
  destruct (binary64_tight (inject_Z (Z.of_nat i + 1))) as (Hf0 & Hflo & Hfhi); [lra |].
  set (n := inject_Z (Z.of_nat i + 1)) in *.
  set (f := Py.binary64 n) in *.
  assert (Hp : (0 <= r * f)%Q) by (apply Qmult_le_0_compat; lra).
  assert (Hp1 : (r * f <= (9991 # 10000) * f)%Q) by (apply Qmult_le_compat_r; lra).
  destruct (binary64_tight (r * f) Hp) as (Hj0 & _ & Hjhi).
  destruct (int_bounds _ Hj0) as [Hi0 Hi].
  split; [done |].
  assert (Hlt : (inject_Z (Py.int (Py.binary64 (r * f))) < n)%Q) by lra.
  unfold n in Hlt. rewrite <- Zlt_Qlt in Hlt. lia.
Qed.

Lemma swap_items_inside {A : Type} (i j : nat) (x : list A) :
  (i < length x)%nat -> (j < length x)%nat ->
  swap_items (Z.of_nat i) (Z.of_nat j) x = Done (swap i j x).
Proof.
  intros Hi Hj. unfold swap_items, swap.
  destruct (getitem_inside x (Z.of_nat j)) as (a & -> & Ha); [lia |].
  destruct (getitem_inside x (Z.of_nat i)) as (b & -> & Hb); [lia |].
  rewrite Nat2Z.id in Ha, Hb. rewrite Ha, Hb. cbn [obind].
  rewrite setitem_inside by lia. cbn [obind].
  rewrite setitem_inside by (rewrite length_insert; lia).
  by rewrite !Nat2Z.id.
Qed.

Lemma swap_length {A : Type} (i j : nat) (x : list A) : length (swap i j x) = length x.
Proof.
  unfold swap. destruct (x !! i), (x !! j); by rewrite ?length_insert.
Qed.

(** The loop of [random.shuffle] with [rand_float]: with [i] draws or more
    it runs to its end, on fewer it waits for a draw. *)
Lemma shuffle_random_from_runs {A : Type} (i : nat) (x : list A) (g : GameGenerator) :
  (i < length x)%nat ->
  (forall e, shuffle_random_from rand_float i x g <> Raise e)
  /\ ((i <= length (secrets_entropy g))%nat ->
      exists x',
        shuffle_random_from rand_float i x g
        = Done (x', {| used_card_ids := used_card_ids g;
                       secrets_entropy := drop i (secrets_entropy g);
                       random_entropy := random_entropy g |})
        /\ x' ≡ₚ x)
  /\ ((length (secrets_entropy g) < i)%nat ->
      shuffle_random_from rand_float i x g = Starved).
Proof.
  revert x g. induction i as [| i IH]; intros x g Hi.
  - cbn [shuffle_random_from]. unfold ret. split; [done |]. split; [| lia].
    intros _. exists x. rewrite drop_0. split; [by destruct g | done].
  - cbn [shuffle_random_from]. unfold bind, lift.
    destruct (secrets_entropy g) as [| k rest] eqn:He.
    + assert (Hnone : rand_float g = Starved).
      { unfold rand_float, bind, randbelow. cbn [Z.leb Z.compare]. by rewrite He. }
      rewrite Hnone. split; [done |]. split; [cbn; lia | done].
    + destruct (rand_float_draw g k rest He) as (r & Hrun & _ & H0 & H1').
      rewrite Hrun.
      destruct (shuffle_index_inside r (S i) H0 H1') as [Hj0 Hj].
      set (j := Py.int (Py.fmul r (Py.float (Z.of_nat (S i) + 1)))) in *.
      replace j with (Z.of_nat (Z.to_nat j)) by lia.
      rewrite swap_items_inside by lia. cbn [obind].
      set (g1 := {| used_card_ids := used_card_ids g; secrets_entropy := rest;
                    random_entropy := random_entropy g |}).
      destruct (IH (swap (S i) (Z.to_nat j) x) g1) as (Hnoraise & Hruns & Hstarves).
      { rewrite swap_length. lia. }
      split; [exact Hnoraise |]. split.
      * intros Hlen. cbn [length] in Hlen.
        destruct Hruns as (x' & -> & Hperm); [cbn; lia |].
        exists x'. cbn [drop]. split; [done |].
        rewrite Hperm. apply swap_Permutation.
      * intros Hlen. cbn [length] in Hlen. apply Hstarves. cbn. lia.
Qed.

(** X6.  On a list of songs that is not empty [gen_track_order] raises
    nothing, whatever is drawn: [random.shuffle] with [rand_float] never
    picks a position outside the list.  In a quiz it returns the songs in
    the order given and draws nothing.  Otherwise it draws [len - 1] times
    from [secrets.randbelow(1000)] and returns a permutation of the songs;
    the used-key set is not touched. *)
Theorem gen_track_order_shuffles (options : Options) (game_songs : list Song)
    (g : GameGenerator) :
  game_songs <> [] ->
  exists run,
    gen_track_order options game_songs = Asserted run
    /\ (forall e, run g <> Raise e)
    /\ (mode options = QUIZ -> run g = Done (game_songs, g))
    /\ (mode options <> QUIZ ->
        let draws := (length game_songs - 1)%nat in
        ((draws <= length (secrets_entropy g))%nat ->
         exists order,
           run g = Done (order, {| used_card_ids := used_card_ids g;
                                   secrets_entropy := drop draws (secrets_entropy g);
                                   random_entropy := random_entropy g |})
           /\ order ≡ₚ game_songs)
        /\ ((length (secrets_entropy g) < draws)%nat -> run g = Starved)).
Proof.
  intros Hsongs. unfold gen_track_order.
  destruct (Z.gtb_spec (Z.of_nat (length game_songs)) 0) as [Hlen | Hlen];
    [| destruct game_songs; [done | cbn in Hlen; lia]].
  eexists. split; [reflexivity |].
  destruct (decide (mode options = QUIZ)) as [Hquiz | Hbingo].
  - split; [done |]. split; [done |]. done.
  - destruct (shuffle_random_from_runs (length game_songs - 1) game_songs g)
      as (Hnoraise & Hruns & Hstarves); [lia |].
    split; [exact Hnoraise |]. split; [done |].
    intros _. cbv zeta. split; [exact Hruns | exact Hstarves].
Qed.

Lemma gen_track_order_shuffles_witness :
  exists run order g',
    gen_track_order example_options (take 5 example_songs) = Asserted run
    /\ run example_generator = Done (order, g')
    /\ order ≡ₚ take 5 example_songs
    /\ secrets_entropy g' = drop 4 (secrets_entropy example_generator).
Proof.
  destruct (gen_track_order_shuffles example_options (take 5 example_songs)
              example_generator) as (run & Hrun & _ & _ & Hshuffle); [discriminate |].
  destruct Hshuffle as [Hruns _]; [discriminate |].
  destruct Hruns as (order & Horder & Hperm); [vm_compute; lia |].
  exists run, order. eexists. split; [exact Hrun |]. split; [exact Horder |].
  split; [exact Hperm | reflexivity].
Defined.

(** ** Win points *)

Lemma ticket_ids_spec (card : BingoTicket) (x : Z) :
  x ∈ ticket_ids card <-> exists song, song ∈ card_tracks card /\ x = ref_id song.
Proof.
  unfold ticket_ids, ref_ids. rewrite elem_of_list_to_set, list_elem_of_fmap.
  naive_solver.
Qed.

Lemma ref_ids_take_all (r : Z) (tracks : list Song) (m : nat) :
  r ∈ ref_ids (take m tracks) -> r ∈ ref_ids tracks.
Proof.
  unfold ref_ids. rewrite !list_elem_of_fmap. intros (song & -> & Hin).
  exists song. split; [done |]. by apply (subseteq_take m).
Qed.

(** The win point of a ticket that wins: the least number of tracks that
    cover the ticket. *)
Lemma win_point_least (tracks : list Song) (ticket : BingoTicket) (p : Z) :
  card_tracks ticket <> [] ->
  get_when_ticket_wins tracks ticket = Done p ->
  exists m : nat,
    p = Z.of_nat m /\ (1 <= m <= length tracks)%nat
    /\ (forall x, x ∈ ticket_ids ticket -> x ∈ ref_ids (take m tracks))
    /\ (exists x, x ∈ ticket_ids ticket /\ x ∉ ref_ids (take (m - 1) tracks)).
Proof.
  intros Hsongs Hwin.
  destruct (get_when_ticket_wins_Done _ _ _ Hwin Hsongs) as (m0 & _ & _ & Hcov0).
  destruct (scan_tracks_covered tracks 1
              {| last_song := -1; card_track_ids := ticket_ids ticket; visited := 0 |})
    as (m & Hm & Hscan & Hall & Hlast).
  { cbn. destruct (card_tracks ticket) as [| song songs] eqn:Hct; [done |].
    intros Hempty.
    assert (Hin : ref_id song ∈ ticket_ids ticket).
    { apply ticket_ids_spec. exists song. rewrite Hct. split; [left | done]. }
    rewrite Hempty in Hin. by apply not_elem_of_empty in Hin. }
  { cbn. intros x Hx. apply ticket_ids_spec in Hx as (song & Hsong & ->).
    by apply (ref_ids_take_all _ _ m0), Hcov0. }
  exists m. cbn in Hall, Hlast. split; [| done].
  unfold get_when_ticket_wins, scan_ticket in Hwin.
  fold (ticket_ids ticket) in Hwin. rewrite Hscan in Hwin. cbn in Hwin.
  rewrite decide_True in Hwin by done. injection Hwin as <-. lia.
Qed.

Lemma size_list_to_set_le (l : list Z) : (size (list_to_set (C := gset Z) l) <= length l)%nat.
Proof.
  induction l as [| x l IH]; [by rewrite list_to_set_nil, size_empty |].
  rewrite list_to_set_cons, size_union_alt, size_singleton. cbn [length].
  assert (Hsub : list_to_set (C := gset Z) l ∖ {[x]} ⊆ list_to_set l) by set_solver.
  apply subseteq_size in Hsub. lia.
Qed.

(** X7.  The win point of a ticket with songs lies in the play order and
    is at least the number of different songs on the ticket: a ticket
    cannot win before as many tracks have been played as it has songs. *)
Theorem win_point_bounds (tracks : list Song) (ticket : BingoTicket) (p : Z) :
  card_tracks ticket <> [] ->
  get_when_ticket_wins tracks ticket = Done p ->
  1 <= p <= Z.of_nat (length tracks)
  /\ Z.of_nat (size (ticket_ids ticket)) <= p.
Proof.
  intros Hsongs Hwin.
  destruct (win_point_least _ _ _ Hsongs Hwin) as (m & -> & Hm & Hcov & _).
  split; [lia |].
  assert (Hsub : ticket_ids ticket ⊆ list_to_set (ref_ids (take m tracks))).
  { intros x Hx. apply elem_of_list_to_set, Hcov, Hx. }
  apply subseteq_size in Hsub.
  pose proof (size_list_to_set_le (ref_ids (take m tracks))) as Hle.
  assert (Hlen : (length (ref_ids (take m tracks)) <= m)%nat).
  { unfold ref_ids. rewrite length_fmap, length_take. lia. }
  lia.
Qed.

Lemma win_point_bounds_witness :
  1 <= 3 <= Z.of_nat (length example_songs)
  /\ Z.of_nat (size (ticket_ids (ticket_at example_songs [2; 0]))) <= 3.
Proof.
  apply (win_point_bounds example_songs (ticket_at example_songs [2; 0]) 3).
  - discriminate.
  - vm_compute. reflexivity.
Defined.

(** X8.  Songs added to a ticket never make it win sooner: when every
    song of one ticket is also on another and both win, the first wins no
    later than the second.  So the win point depends only on the set of
    songs on the ticket, not on their order or on repetitions. *)
Theorem win_point_monotone (tracks : list Song) (ticket more : BingoTicket) (p q : Z) :
  card_tracks ticket <> [] ->
  ticket_ids ticket ⊆ ticket_ids more ->
  get_when_ticket_wins tracks ticket = Done p ->
  get_when_ticket_wins tracks more = Done q ->
  p <= q
  /\ (ticket_ids ticket = ticket_ids more -> p = q).
Proof.
  intros Hsongs Hsub Hp Hq.
  assert (Hmore : card_tracks more <> []).
  { destruct (card_tracks ticket) as [| song songs] eqn:Hct; [done |].
    assert (Hin : ref_id song ∈ ticket_ids more).
    { apply Hsub, ticket_ids_spec. exists song. rewrite Hct. split; [left | done]. }
    apply ticket_ids_spec in Hin as (s & Hs & _). intros Hnil. rewrite Hnil in Hs.
    by apply elem_of_nil in Hs. }
  split.
  - destruct (win_point_least _ _ _ Hsongs Hp) as (m & -> & Hm & _ & (x & Hx & Hout)).
    destruct (win_point_least _ _ _ Hmore Hq) as (n & -> & Hn & Hcov & _).
    destruct (Nat.le_gt_cases m n) as [| Hlt]; [lia |]. exfalso.
    apply Hout. apply (ref_ids_take_mono _ _ n); [lia |]. apply Hcov, Hsub, Hx.
  - intros Heq. unfold get_when_ticket_wins, scan_ticket in Hp, Hq.
    fold (ticket_ids ticket) in Hp. fold (ticket_ids more) in Hq.
    rewrite Heq in Hp. congruence.
Qed.

Lemma win_point_monotone_witness :
  3 <= 5
  /\ (ticket_ids (ticket_at example_songs [2; 0])
      = ticket_ids (ticket_at example_songs [4; 0; 2]) -> 3 = 5).
Proof.
  apply (win_point_monotone example_songs (ticket_at example_songs [2; 0])
           (ticket_at example_songs [4; 0; 2])).
  - discriminate.
  - apply (@bool_decide_unpack _ _). vm_compute. exact I.
  - vm_compute. reflexivity.
  - vm_compute. reflexivity.
Defined.

(** ** The results sheet *)

Lemma ref_ids_take_S (tracks : list Song) (m : nat) (x : Z) :
  x ∈ ref_ids (take (S m) tracks) ->
  x ∉ ref_ids (take m tracks) ->
  exists song, tracks !! m = Some song /\ ref_id song = x.
Proof.
  unfold ref_ids. intros Hin Hout.
  apply list_elem_of_fmap in Hin as (song & -> & Hsong).
  apply elem_of_take in Hsong as (i & Hi & Hlt).
  destruct (decide (i = m)) as [-> | Hne]; [eauto |].
  exfalso. apply Hout. apply list_elem_of_fmap_2, elem_of_take.
  exists i. split; [done | lia].
Qed.

(** X9.  For a ticket with songs that all occur in the play order, the
    row that [generate_card_results] works out never fails: it names the
    win point [p] and the track at position [p] of the play order, and
    this track is a song of the ticket, played there for the first time,
    the last of the ticket's songs to come up. *)
Theorem card_result_names_last_song (tracks : list Song) (card : BingoTicket) :
  card_tracks card <> [] ->
  (forall song, song ∈ card_tracks card -> ref_id song ∈ ref_ids tracks) ->
  exists (p : nat) (song : Song),
    card_result tracks card = Done (Z.of_nat p, song)
    /\ get_when_ticket_wins tracks card = Done (Z.of_nat p)
    /\ (1 <= p <= length tracks)%nat
    /\ tracks !! (p - 1)%nat = Some song
    /\ ref_id song ∈ ticket_ids card
    /\ (ref_id song ∉ ref_ids (take (p - 1) tracks))
    /\ (forall x, x ∈ ticket_ids card -> x ∈ ref_ids (take p tracks)).
Proof.
  intros Hsongs Hcov.
  destruct (scan_tracks_covered tracks 1
              {| last_song := -1; card_track_ids := ticket_ids card; visited := 0 |})
    as (m & Hm & Hscan & Hall & (x & Hx & Hout)).
  { cbn. destruct (card_tracks card) as [| song songs] eqn:Hct; [done |].
    intros Hempty.
    assert (Hin : ref_id song ∈ ticket_ids card).
    { apply ticket_ids_spec. exists song. rewrite Hct. split; [left | done]. }
    rewrite Hempty in Hin. by apply not_elem_of_empty in Hin. }
  { cbn. intros x Hx. apply ticket_ids_spec in Hx as (song & Hsong & ->). by apply Hcov. }
  cbn in Hall, Hx, Hout.
  assert (Hwin : get_when_ticket_wins tracks card = Done (Z.of_nat m)).
  { unfold get_when_ticket_wins, scan_ticket. fold (ticket_ids card).
    rewrite Hscan. cbn. rewrite decide_True by done. f_equal. lia. }
  destruct (ref_ids_take_S tracks (m - 1) x) as (song & Hsong & Hid).
  { replace (S (m - 1)) with m by lia. by apply Hall. }
  { done. }
  exists m, song. unfold card_result. rewrite Hwin. cbn [obind].
  destruct (getitem_inside tracks (Z.of_nat m - 1)) as (song' & -> & Hsong'); [lia |].
  replace (Z.to_nat (Z.of_nat m - 1)) with (m - 1)%nat in Hsong' by lia.
  assert (song' = song) by congruence. subst song'. cbn [obind].
  rewrite Hid. done.
Qed.

Lemma card_result_names_last_song_witness :
  exists (p : nat) (song : Song),
    card_result example_songs (ticket_at example_songs [2; 0]) = Done (Z.of_nat p, song)
    /\ example_songs !! (p - 1)%nat = Some song
    /\ ref_id song ∈ ticket_ids (ticket_at example_songs [2; 0]).
Proof.
  destruct (card_result_names_last_song example_songs (ticket_at example_songs [2; 0]))
    as (p & song & H1 & _ & _ & H2 & H3 & _).
  - discriminate.
  - intros song Hsong. apply (@bool_decide_unpack _ _).
    apply elem_of_cons in Hsong as [-> | Hsong]; [vm_compute; exact I |].
    apply elem_of_cons in Hsong as [-> | Hsong]; [vm_compute; exact I |].
    by apply elem_of_nil in Hsong.
  - exists p, song. done.
Defined.

(** X10.  [generate_card_results] does not test the win point [-1] of a
    ticket without songs: it subscripts the play order with [-2], so that
    with two tracks or more the row names the last track but one, and with
    fewer the call raises [IndexError]. *)
Theorem card_result_empty_ticket (tracks : list Song) (card : BingoTicket) :
  card_tracks card = [] ->
  ((length tracks < 2)%nat -> card_result tracks card = Raise IndexError)
  /\ ((2 <= length tracks)%nat ->
      exists song,
        card_result tracks card = Done (-1, song)
        /\ tracks !! (length tracks - 2)%nat = Some song).
Proof.
  intros Hempty. unfold card_result.
  assert (Hwin : get_when_ticket_wins tracks card = Done (-1)).
  { unfold get_when_ticket_wins, scan_ticket. rewrite Hempty.
    cbn [ref_ids fmap list_fmap].
    destruct (scan_tracks_nothing_pending tracks 1
                {| last_song := -1; card_track_ids := list_to_set []; visited := 0 |})
      as [Hids Hlast]; [reflexivity |].
    rewrite decide_True by assumption. by rewrite Hlast. }
  rewrite Hwin. cbn [obind]. change (-1 - 1) with (-2).
  unfold PyList.getitem, PyList.index. cbn [Z.ltb Z.compare].
  split.
  - intros Hlen.
    destruct (Z.leb_spec 0 (-2 + Z.of_nat (length tracks))); [lia |]. done.
  - intros Hlen.
    destruct (Z.leb_spec 0 (-2 + Z.of_nat (length tracks))); [| lia].
    destruct (Z.ltb_spec (-2 + Z.of_nat (length tracks)) (Z.of_nat (length tracks)));
      [| lia].
    cbn [andb].
    replace (Z.to_nat (-2 + Z.of_nat (length tracks))) with (length tracks - 2)%nat by lia.
    destruct (lookup_lt_is_Some_2 tracks (length tracks - 2)) as [song Hsong]; [lia |].
    rewrite Hsong. cbn [obind]. eauto.
Qed.

Lemma card_result_empty_ticket_witness :
  exists song,
    card_result example_songs new_ticket = Done (-1, song)
    /\ example_songs !! 10%nat = Some song.
Proof.
  destruct (card_result_empty_ticket example_songs new_ticket eq_refl) as [_ H].
  apply H. vm_compute. lia.
Defined.

(** ** The tiers *)

Lemma int_monotone (x y : Q) : (0 <= x)%Q -> (x <= y)%Q -> Py.int x <= Py.int y.
Proof.
  intros Hx Hxy. unfold Py.int.
  destruct x as [n d], y as [m e]. cbn [Qnum Qden].
  assert (Hn : 0 <= n) by (unfold Qle in Hx; cbn in Hx; lia).
  assert (Hm : 0 <= m) by (unfold Qle in Hxy; cbn in Hxy; nia).
  rewrite !Z.quot_div_nonneg by lia.
  apply (Qfloor_resp_le (n # d) (m # e) Hxy).
Qed.

Lemma int_at_least_one (x : Q) : (1 <= x)%Q -> 1 <= Py.int x.
Proof.
  intros Hx. change 1 with (Py.int 1) at 1. apply int_monotone; [lra | done].
Qed.

(** The shape of the tier counts from [MIN_CARDS] tickets on. *)
Lemma tier_counts_shape (options : Options) :
  MIN_CARDS <= number_of_cards options ->
  let t := tier_counts options in
  num_second_last t < num_on_last t
  /\ num_third_last t <= num_second_last t
  /\ num_fourth_last t <= num_third_last t
  /\ 1 <= num_third_last t
  /\ (offset t = 3 /\ num_fourth_last t = 0 \/ offset t = 4 /\ 2 <= num_fourth_last t)
  /\ num_on_last t + num_second_last t + num_third_last t + num_fourth_last t
     + amount_to_go = number_of_cards options.
Proof.
  unfold MIN_CARDS, tier_counts, amount_to_go.
  generalize (number_of_cards options) as T. intros T HT. cbv zeta.
  set (d := Py.binary64 (13 # 20)).
  set (noc := Py.float T).
  set (a := Py.fmul noc d).
  set (s1 := Py.fsub noc a).
  set (b := Py.fmul s1 d).
  set (s2 := Py.fsub s1 b).
  set (c := Py.fmul s2 d).
  set (s3 := Py.fsub s2 c).
  set (e := Py.fmul s3 d).
  assert (HTq : (15 <= inject_Z T)%Q).
  { change 15%Q with (inject_Z 15). rewrite <- Zle_Qle. lia. }
  destruct (binary64_near (inject_Z T)) as (Hn0 & Hn1 & Hn2); [lra |].
  fold (Py.float T) in Hn0, Hn1, Hn2. fold noc in Hn0, Hn1, Hn2.
  destruct (fmul_decay noc Hn0) as (Ha0 & Ha1 & Ha2). fold d a in Ha0, Ha1, Ha2.
  destruct (fsub_near noc a) as (Hs10 & Hs11 & Hs12); [lra |]. fold s1 in Hs10, Hs11, Hs12.
  destruct (fmul_decay s1 Hs10) as (Hb0 & Hb1 & Hb2). fold d b in Hb0, Hb1, Hb2.
  destruct (fsub_near s1 b) as (Hs20 & Hs21 & Hs22); [lra |]. fold s2 in Hs20, Hs21, Hs22.
  destruct (fmul_decay s2 Hs20) as (Hc0 & Hc1 & Hc2). fold d c in Hc0, Hc1, Hc2.
  destruct (fsub_near s2 c) as (Hs30 & Hs31 & Hs32); [lra |]. fold s3 in Hs30, Hs31, Hs32.
  destruct (fmul_decay s3 Hs30) as (He0 & He1 & He2). fold d e in He0, He1, He2.
  destruct (int_bounds b Hb0) as [HB0 HB]. destruct (int_bounds c Hc0) as [HC0 HC].
  destruct (int_bounds e He0) as [HE0 HE].
  assert (Hsum : 2 * Py.int b + Py.int c + Py.int e + 5 < T).
  { rewrite Zlt_Qlt, !inject_Z_plus, inject_Z_mult.
    change (inject_Z 5) with 5%Q. change (inject_Z 2) with 2%Q. lra. }
  assert (Hcb : Py.int c <= Py.int b) by (apply int_monotone; lra).
  assert (Hec : Py.int e <= Py.int c) by (apply int_monotone; lra).
  assert (Hc1' : 1 <= Py.int c) by (apply int_at_least_one; lra).
  clearbody a b c e. clear -HT HB0 HC0 HE0 Hsum Hcb Hec Hc1'.
  cbn [num_on_last num_second_last num_third_last num_fourth_last offset].
  repeat match goal with
         | |- context [ ?a =? ?b ] => destruct (Z.eqb_spec a b)
         | |- context [ ?a <? ?b ] => destruct (Z.ltb_spec a b)
         | |- context [ ?a >? ?b ] => destruct (Z.gtb_spec a b)
         end; cbn [orb]; lia.
Qed.

(** X11.  From [MIN_CARDS] tickets on the tier counts decay: more tickets
    are to win on the last song than one song earlier, no fewer there than
    two songs earlier, and no fewer there than three songs earlier; at
    least one ticket wins two songs before the end; the tier three songs
    before the end is empty (and then the good cards start there) or has
    two tickets or more; and the four tiers and the four good cards make up
    the number of tickets. *)
Theorem tier_counts_decay (options : Options) :
  MIN_CARDS <= number_of_cards options ->
  let t := tier_counts options in
  num_second_last t < num_on_last t
  /\ num_third_last t <= num_second_last t
  /\ num_fourth_last t <= num_third_last t
  /\ 1 <= num_third_last t
  /\ (offset t = 3 /\ num_fourth_last t = 0 \/ offset t = 4 /\ 2 <= num_fourth_last t)
  /\ num_on_last t + num_second_last t + num_third_last t + num_fourth_last t
     + amount_to_go = number_of_cards options.
Proof. apply tier_counts_shape. Qed.

Lemma tier_counts_decay_witness :
  let t := tier_counts example_options in
  num_second_last t < num_on_last t
  /\ num_third_last t <= num_second_last t
  /\ num_fourth_last t <= num_third_last t
  /\ 1 <= num_third_last t
  /\ (offset t = 3 /\ num_fourth_last t = 0 \/ offset t = 4 /\ 2 <= num_fourth_last t)
  /\ num_on_last t + num_second_last t + num_third_last t + num_fourth_last t
     + amount_to_go = 15.
Proof.
  apply (tier_counts_decay example_options). vm_compute. discriminate.
Defined.

(** ** [combinations] *)

(** X12.  For [0 <= select <= total], [combinations] is symmetric, float
    division or not: choosing [select] songs and choosing the
    [total - select] others give the same outcome.  A negative [select]
    at most [total] makes it raise the [ValueError] of [math.factorial]. *)
Theorem combinations_symmetric (total select : Z) :
  select <= total ->
  (0 <= select -> combinations total select = combinations total (total - select))
  /\ (select < 0 -> combinations total select = Raise (ValueError FactorialNegative)).
Proof.
  intros Hle. split.
  - intros H0. unfold combinations.
    destruct (Z.gtb_spec select total); [lia |].
    destruct (Z.gtb_spec (total - select) total); [lia |].
    replace (total - (total - select)) with select by lia.
    unfold Py.factorial.
    destruct (Z.ltb_spec total 0); [lia |].
    destruct (Z.ltb_spec select 0); [lia |].
    destruct (Z.ltb_spec (total - select) 0); [lia |].
    cbn [obind]. by rewrite Z.mul_comm.
  - intros Hneg. unfold combinations.
    destruct (Z.gtb_spec select total); [lia |].
    unfold Py.factorial.
    destruct (Z.ltb_spec total 0); [done |]. cbn [obind].
    destruct (Z.ltb_spec select 0); [done | lia].
Qed.

Lemma combinations_symmetric_witness :
  combinations 57 25 = combinations 57 (57 - 25)
  /\ (25 < 0 -> combinations 57 25 = Raise (ValueError FactorialNegative)).
Proof.
  destruct (combinations_symmetric 57 25) as [H1 H2]; [lia |].
  split; [apply H1; lia | exact H2].
Defined.

(** ** The composer *)

Lemma drawn_from_songs_at (songs : list Song) (idxs : list Z) (card : BingoTicket) :
  drawn_from songs idxs card ->
  Forall (fun i => 0 <= i < Z.of_nat (length songs)) idxs
  /\ card_tracks card = songs_at songs idxs
  /\ length idxs = length (card_tracks card).
Proof.
  intros (_ & Hpos & Hall & _). unfold songs_at.
  induction Hall as [| i song idxs tracks Hi _ IH]; [done |].
  destruct IH as (IH1 & IH2 & IH3).
  { intros j Hj. apply Hpos. by right. }
  split; [| split].
  - apply Forall_cons. split; [| done].
    pose proof (Hpos i ltac:(left)). apply lookup_lt_Some in Hi. lia.
  - cbn [omap list_omap]. rewrite Hi. cbn. by rewrite <- IH2.
  - cbn [length]. by rewrite IH3.
Qed.

Lemma distinct_indices_fit (n : nat) (idxs : list Z) :
  NoDup idxs -> Forall (fun i => 0 <= i < Z.of_nat n) idxs -> (length idxs <= n)%nat.
Proof.
  intros Hnd Hrange.
  assert (Hsub : Z.to_nat <$> idxs ⊆+ seq 0 n).
  { apply NoDup_submseteq.
    - apply NoDup_fmap_2_strong; [| done].
      intros i j Hi Hj Heq. rewrite Forall_forall in Hrange.
      apply Hrange in Hi, Hj. lia.
    - intros k Hk. apply list_elem_of_fmap in Hk as (i & -> & Hi).
      rewrite Forall_forall in Hrange. apply Hrange in Hi.
      apply elem_of_seq. lia. }
  apply submseteq_length in Hsub. by rewrite length_fmap, length_seq in Hsub.
Qed.

(** X13.  [select_songs_for_ticket] returns (without abort) only when it
    is asked for at least one song and for no more than the pool holds;
    asked for none, or for more, it draws for ever.  The ticket it returns
    has exactly [num_tracks] songs, taken from pairwise different positions
    of the pool; its key is the product of their song ids, was not in the
    used-key set before and has been added to it; and at least one draw
    was made. *)
Theorem select_songs_for_ticket_draws (songs : list Song) (card card' : BingoTicket)
    (num_tracks : Z) (g g' : GameGenerator) :
  select_songs_for_ticket false songs card num_tracks g = Done (card', g') ->
  1 <= num_tracks <= Z.of_nat (length songs)
  /\ Z.of_nat (length (card_tracks card')) = num_tracks
  /\ (exists idxs,
        NoDup idxs
        /\ Forall (fun i => 0 <= i < Z.of_nat (length songs)) idxs
        /\ card_tracks card' = songs_at songs idxs)
  /\ card_id card' = key_of (card_tracks card')
  /\ (card_id card' ∉ used_card_ids g)
  /\ used_card_ids g' = used_card_ids g ∪ {[ card_id card' ]}
  /\ (entropy_left g' < entropy_left g)%nat.
Proof.
  intros H.
  pose proof H as Hdraws. unfold select_songs_for_ticket, with_fuel in Hdraws.
  apply select_loop_consumes in Hdraws.
  apply select_songs_for_ticket_Done in H
    as (Hfresh & Hused & Hlen & Hsongs & idxs & Hdrawn).
  destruct (drawn_from_songs_at _ _ _ Hdrawn) as (Hrange & Hat & Hlen').
  pose proof Hdrawn as (Hnd & _ & _ & Hkey).
  pose proof (distinct_indices_fit _ _ Hnd Hrange) as Hfit.
  split.
  - split; [| lia]. destruct (card_tracks card'); [done | cbn in Hlen; lia].
  - split; [done |]. split; [by exists idxs |]. done.
Qed.

Lemma select_songs_for_ticket_draws_witness :
  exists card' g',
    select_songs_for_ticket false example_songs new_ticket 3 example_generator
      = Done (card', g')
    /\ Z.of_nat (length (card_tracks card')) = 3
    /\ card_id card' = key_of (card_tracks card').
Proof.
  destruct (select_songs_for_ticket false example_songs new_ticket 3 example_generator)
    as [[card' g'] | e |] eqn:Hrun.
  - exists card', g'. split; [reflexivity |].
    destruct (select_songs_for_ticket_draws _ _ _ _ _ _ Hrun) as (_ & H1 & _ & H2 & _).
    split; [exact H1 | exact H2].
  - exfalso. vm_compute in Hrun. discriminate.
  - exfalso. vm_compute in Hrun. discriminate.
Defined.

(** ** Abort *)

Lemma generate_at_point_abort (options : Options) (tracks : list Song)
    (amount from_end : Z) (g : GameGenerator) :
  generate_at_point options true tracks amount from_end g = Done ([], g).
Proof.
  unfold generate_at_point, with_fuel. cbn [generate_loop].
  destruct (0 <? amount); [| done].
  unfold generate_step, bind, select_songs_for_ticket, with_fuel. cbn [select_loop].
  done.
Qed.

Lemma float_quotient_one (n : Z) :
  1 <= n -> (Py.fadd 0 (Py.fdiv (Py.float n) (Py.float n)) == 1)%Q.
Proof.
  intros Hn. unfold Py.fadd, Py.fdiv, Py.float.
  assert (Hq : (1 <= inject_Z n)%Q).
  { change 1%Q with (inject_Z 1). rewrite <- Zle_Qle. lia. }
  destruct (binary64_near (inject_Z n)) as (_ & Hlo & _); [lra |].
  set (y := Py.binary64 (inject_Z n)) in *.
  assert (Hyy : (y / y == 1)%Q) by (field; lra).
  assert (Hone : (Py.binary64 (y / y) == 1)%Q).
  { transitivity (y / y)%Q; [| exact Hyy].
    apply (binary64_exact _ 1 0); [lia | lia |]. rewrite Hyy. reflexivity. }
  assert (Hsum : (0 + Py.binary64 (y / y) == 1)%Q) by lra.
  transitivity (0 + Py.binary64 (y / y))%Q; [| exact Hsum].
  apply (binary64_exact _ 1 0); [lia | lia |]. rewrite Hsum. reflexivity.
Qed.

Lemma bind_Done_eq {A B : Type} (c : Gen A) (k : A -> Gen B) (g g1 : GameGenerator) (a : A) :
  c g = Done (a, g1) -> bind c k g = k a g1.
Proof. intros H. unfold bind. by rewrite H. Qed.

Lemma bind_Raise_eq {A B : Type} (c : Gen A) (k : A -> Gen B) (g : GameGenerator) (e : exn) :
  c g = Raise e -> bind c k g = Raise e.
Proof. intros H. unfold bind. by rewrite H. Qed.

Lemma bind_Starved_eq {A B : Type} (c : Gen A) (k : A -> Gen B) (g : GameGenerator) :
  c g = Starved -> bind c k g = Starved.
Proof. intros H. unfold bind. by rewrite H. Qed.

Lemma insert_random_cards_abort (options : Options) (tracks : list Song)
    (point num_cards num_on_last : Z) (g : GameGenerator) :
  1 <= num_cards ->
  insert_random_cards options true tracks [] point num_cards num_on_last g
  = match secrets_entropy g with
    | [] => Starved
    | _ :: _ => Raise IndexError
    end.
Proof.
  intros Hn. unfold insert_random_cards.
  destruct (Z.eqb_spec num_cards 0); [lia |].
  cbn [length]. change (Z.of_nat 0 + num_cards) with num_cards.
  destruct (Z.to_nat num_cards) as [| todo] eqn:Htodo; [lia |].
  cbn [insert_loop].
  assert (Hceil : Py.ceil (Py.fadd 0 (Py.fdiv (Py.float num_cards) (Py.float num_cards)))
                  = 1).
  { unfold Py.ceil. rewrite (Qceiling_comp _ 1); [reflexivity |].
    by apply float_quotient_one. }
  rewrite Hceil. change (Py.ceil 0) with 0.
  destruct (secrets_entropy g) as [| k rest] eqn:He.
  - apply bind_Starved_eq. unfold randrange. apply bind_Starved_eq.
    unfold randbelow. cbn. by rewrite He.
  - erewrite bind_Done_eq.
    2:{ unfold randrange. erewrite bind_Done_eq; [reflexivity |].
        unfold randbelow. cbn. rewrite He. reflexivity. }
    erewrite bind_Done_eq by apply generate_at_point_abort. done.
Qed.

(** X14.  When abort is set, [generate_at_point] returns no ticket, and
    [generate_all_cards] (from [MIN_CARDS] tickets on) does not hand back
    the tickets made so far: [insert_random_cards] draws a position and
    then subscripts the empty result of [generate_at_point], so the call
    raises [IndexError] (or waits for the draw if none is to be had). *)
Theorem generate_all_cards_abort (options : Options) (tracks : list Song)
    (g : GameGenerator) :
  MIN_CARDS <= number_of_cards options ->
  (forall amount from_end g0,
      generate_at_point options true tracks amount from_end g0 = Done ([], g0))
  /\ (secrets_entropy g <> [] ->
      generate_all_cards options true tracks g = Raise IndexError)
  /\ (secrets_entropy g = [] ->
      generate_all_cards options true tracks g = Starved).
Proof.
  intros HT. split; [intros; apply generate_at_point_abort |].
  destruct (tier_counts_shape options HT) as (_ & H32 & _ & H3 & _).
  assert (Hrun : generate_all_cards options true tracks g
                 = match secrets_entropy g with
                   | [] => Starved
                   | _ :: _ => Raise IndexError
                   end).
  { unfold generate_all_cards.
    erewrite bind_Done_eq by reflexivity.
    erewrite bind_Done_eq by apply generate_at_point_abort.
    unfold or_keep at 1.
    destruct (Z.eqb_spec (num_second_last (tier_counts options)) 0) as [| _]; [lia |].
    cbn [negb].
    pose proof (insert_random_cards_abort options tracks 1
                  (num_second_last (tier_counts options))
                  (num_on_last (tier_counts options))
                  {| used_card_ids := ∅; secrets_entropy := secrets_entropy g;
                     random_entropy := random_entropy g |} ltac:(lia)) as Hins.
    cbn [secrets_entropy] in Hins.
    destruct (secrets_entropy g) as [| k rest].
    - by apply bind_Starved_eq.
    - by apply bind_Raise_eq. }
  split.
  - intros He. rewrite Hrun. by destruct (secrets_entropy g).
  - intros He. rewrite Hrun. by rewrite He.
Qed.

Lemma generate_all_cards_abort_witness :
  generate_all_cards example_options true example_songs example_generator
  = Raise IndexError.
Proof.
  destruct (generate_all_cards_abort example_options example_songs example_generator)
    as (_ & H & _); [vm_compute; discriminate |].
  apply H. vm_compute. discriminate.
Defined.

(** ** The tiers of a game *)

Lemma accepted_wins_at (options : Options) (tracks : list Song) (from_end : Z)
    (g : GameGenerator) (card : BingoTicket) :
  accepted_at options tracks from_end g card -> wins_at options tracks from_end card.
Proof. intros (_ & Hwin & Hcomposed). by split. Qed.

Lemma py_insert_sublist {A : Type} (i : Z) (x : A) (l : list A) :
  l `sublist_of` Py.insert i x l.
Proof.
  unfold Py.insert. rewrite <- (take_drop (Py.clamp_index (Z.of_nat (length l)) i) l) at 1.
  apply sublist_app; [done |]. by apply sublist_cons.
Qed.

Lemma generate_one_at_point (options : Options) (tracks : list Song) (from_end : Z)
    (new : list BingoTicket) (g g' : GameGenerator) :
  generate_at_point options false tracks 1 from_end g = Done (new, g') ->
  exists card, new = [card] /\ wins_at options tracks from_end card.
Proof.
  intros H. apply generate_at_point_Done in H as (Hlen & _ & Hall & _).
  destruct new as [| card [| ? ?]]; cbn in Hlen; try lia.
  exists card. split; [done |].
  apply (accepted_wins_at _ _ _ g), Hall. left.
Qed.

Lemma insert_loop_tier (options : Options) (tracks : list Song) (todo : nat)
    (point num_cards num_on_last : Z) (increment start_point : Q)
    (cards cards' : list BingoTicket) (g g' : GameGenerator) :
  insert_loop options false todo tracks point num_cards num_on_last
    increment start_point cards g = Done (cards', g') ->
  exists new,
    length new = todo
    /\ cards' ≡ₚ cards ++ new
    /\ cards `sublist_of` cards'
    /\ Forall (wins_at options tracks point) new.
Proof.
  revert start_point cards g.
  induction todo as [| todo IH]; intros start_point cards g H.
  - apply ret_Done in H as [<- <-]. exists []. by rewrite app_nil_r.
  - cbn [insert_loop] in H. step_run H rand_point g1 Hrand.
    step_run H new g2 Hnew.
    apply generate_one_at_point in Hnew as (card & -> & Hcard).
    apply IH in H as (new & Hlen & Hperm & Hsub & Hall).
    exists (card :: new). split; [cbn; lia |]. split; [| split].
    + rewrite Hperm, py_insert_Permutation. cbn. by rewrite <- Permutation_middle.
    + etransitivity; [apply py_insert_sublist | exact Hsub].
    + by apply Forall_cons.
Qed.

(** X15.  [insert_random_cards] divides by the number of tickets asked
    for, so asked for none it raises [ZeroDivisionError].  When it returns
    (without abort) it has added that many tickets, each winning [point]
    songs before the end; the tickets that were in the list are all still
    there, in the order they had. *)
Theorem insert_random_cards_inserts (options : Options) (tracks : list Song)
    (cards : list BingoTicket) (point num_cards num_on_last : Z) (g : GameGenerator) :
  (num_cards = 0 ->
   insert_random_cards options false tracks cards point num_cards num_on_last g
   = Raise ZeroDivisionError)
  /\ (forall cards' g',
        insert_random_cards options false tracks cards point num_cards num_on_last g
        = Done (cards', g') ->
        exists new,
          length new = Z.to_nat num_cards
          /\ cards' ≡ₚ cards ++ new
          /\ cards `sublist_of` cards'
          /\ Forall (wins_at options tracks point) new).
Proof.
  split.
  - intros ->. reflexivity.
  - intros cards' g' H. unfold insert_random_cards in H.
    destruct (num_cards =? 0); [discriminate |].
    by apply insert_loop_tier in H.
Qed.

Lemma insert_random_cards_inserts_witness :
  insert_random_cards example_options false example_songs [] 1 0 9 example_generator
  = Raise ZeroDivisionError
  /\ exists cards' g' new,
       insert_random_cards example_options false example_songs [] 1 2 9 example_generator
       = Done (cards', g')
       /\ length new = 2%nat
       /\ cards' ≡ₚ new
       /\ Forall (wins_at example_options example_songs 1) new.
Proof.
  split.
  - apply (insert_random_cards_inserts example_options example_songs [] 1 0 9
             example_generator). reflexivity.
  - destruct (insert_random_cards example_options false example_songs [] 1 2 9
                example_generator) as [[cards' g'] | e |] eqn:Hrun.
    + destruct (proj2 (insert_random_cards_inserts example_options example_songs [] 1 2 9
                         example_generator) cards' g' Hrun)
        as (new & Hlen & Hperm & _ & Hall).
      exists cards', g', new. split; [reflexivity |].
      split; [exact Hlen |]. split; [exact Hperm | exact Hall].
    + exfalso. vm_compute in Hrun. discriminate.
    + exfalso. vm_compute in Hrun. discriminate.
Defined.

Lemma insert_random_cards_tier (options : Options) (tracks : list Song)
    (point num_cards num_on_last : Z)
    (cards cards' : list BingoTicket) (g g' : GameGenerator) :
  or_keep (negb (num_cards =? 0)) cards
    (insert_random_cards options false tracks cards point num_cards num_on_last) g
    = Done (cards', g') ->
  exists new,
    length new = Z.to_nat num_cards
    /\ cards' ≡ₚ cards ++ new
    /\ Forall (wins_at options tracks point) new.
Proof.
  intros H. unfold or_keep, insert_random_cards in H.
  destruct (Z.eqb_spec num_cards 0) as [-> | Hne]; cbn [negb] in H.
  - apply ret_Done in H as [<- <-]. exists []. by rewrite app_nil_r.
  - apply insert_loop_tier in H as (new & ? & ? & _ & ?). by exists new.
Qed.

Lemma good_cards_loop_tier (options : Options) (tracks : list Song) (todo : nat)
    (offset : Z) (good : list BingoTicket) (r : option (list BingoTicket))
    (g g' : GameGenerator) :
  good_cards_loop options false todo tracks offset good g = Done (r, g') ->
  exists new,
    r = Some (good ++ new)
    /\ Forall2 (fun card from_end => wins_at options tracks from_end card)
               new (seqZ offset (Z.of_nat todo)).
Proof.
  revert offset good g. induction todo as [| todo IH]; intros offset good g H.
  - apply ret_Done in H as [<- <-]. exists []. by rewrite app_nil_r.
  - cbn [good_cards_loop] in H. step_run H new g1 Hnew.
    apply generate_one_at_point in Hnew as (card & -> & Hcard).
    apply IH in H as (new & -> & Hall).
    exists (card :: new). split; [by rewrite <- app_assoc |].
    rewrite seqZ_cons by lia. constructor; [done |].
    replace (Z.pred (Z.of_nat (S todo))) with (Z.of_nat todo) by lia.
    replace (Z.succ offset) with (offset + 1) by lia. done.
Qed.

(** The tickets that a run of [generate_all_cards] has laid out, tier by
    tier. *)
Lemma generate_all_cards_tiers (options : Options) (tracks : list Song)
    (g g' : GameGenerator) (cards : list BingoTicket) :
  generate_all_cards options false tracks g = Done (cards, g') ->
  let t := tier_counts options in
  exists laid_out tier0 tier1 tier2 tier3 good,
    laid_out ≡ₚ tier0 ++ tier1 ++ tier2 ++ tier3 ++ good
    /\ Z.of_nat (length tier0) = Z.max 0 (num_on_last t)
    /\ length tier1 = Z.to_nat (num_second_last t)
    /\ length tier2 = Z.to_nat (num_third_last t)
    /\ length tier3 = Z.to_nat (num_fourth_last t)
    /\ Forall (wins_at options tracks 0) tier0
    /\ Forall (wins_at options tracks 1) tier1
    /\ Forall (wins_at options tracks 2) tier2
    /\ Forall (wins_at options tracks 3) tier3
    /\ Forall2 (fun card from_end => wins_at options tracks from_end card)
               good (seqZ (offset t) amount_to_go)
    /\ NoDup (card_id <$> laid_out)
    /\ cards = if page_order options
               then sort_cards_by_page options (number_cards laid_out)
               else number_cards laid_out.
Proof.
  intros H t. unfold generate_all_cards in H. fold t in H.
  step_run H u g0 Hclear. clear Hclear.
  step_run H cards1 g1 H1.
  apply generate_at_point_Done in H1 as (Hlen1 & Hnd1 & Hall1 & Hused1).
  assert (Hreg1 : registered cards1 g1).
  { apply (registered_app [] cards1 g0 g1); [| done | | done].
    - split; [apply NoDup_nil_2 | by intros ? ?%elem_of_nil].
    - intros card Hcard. by destruct (Hall1 card Hcard). }
  step_run H cards2 g2 H2. pose proof H2 as Ht1.
  apply insert_random_cards_Done in H2 as [Hreg2 _]; [| done].
  apply insert_random_cards_tier in Ht1 as (tier1 & Hl1 & Hp1 & Hw1).
  step_run H cards3 g3 H3. pose proof H3 as Ht2.
  apply insert_random_cards_Done in H3 as [Hreg3 _]; [| done].
  apply insert_random_cards_tier in Ht2 as (tier2 & Hl2 & Hp2 & Hw2).
  step_run H cards4 g4 H4. pose proof H4 as Ht3.
  apply insert_random_cards_Done in H4 as [Hreg4 _]; [| done].
  apply insert_random_cards_tier in Ht3 as (tier3 & Hl3 & Hp3 & Hw3).
  step_run H good g5 H5. pose proof H5 as Ht4.
  apply (good_cards_loop_Done options tracks _ _ cards4) in H5
    as (good_cards & -> & Hreg5 & _); [| by rewrite app_nil_r].
  apply good_cards_loop_tier in Ht4 as (good' & [= Hgood'] & Hgood).
  cbn [app] in Hgood'. subst good'.
  step_run H shuffled g6 H6. unfold shuffle in H6.
  apply shuffle_from_Done in H6 as [Hshuffle _].
  step_run H r g7 H7. destruct r as [aborted cards5].
  apply place_good_cards_Done in H7 as (-> & Hplace & _ & _).
  assert (Hperm : cards5 ≡ₚ cards4 ++ good_cards).
  { rewrite Hplace, Hshuffle. apply Permutation_app_comm. }
  exists cards5, cards1, tier1, tier2, tier3, good_cards.
  split.
  { rewrite Hperm, Hp3, Hp2, Hp1. by rewrite <- !app_assoc. }
  split; [done |]. do 3 (split; [done |]).
  split.
  { apply Forall_forall. intros card Hcard.
    apply (accepted_wins_at _ _ _ g0), Hall1, Hcard. }
  do 3 (split; [done |]). split; [done |]. split.
  - destruct Hreg5 as [Hnd5 _]. by rewrite Hperm.
  - destruct (page_order options); by apply ret_Done in H as [<- _].
Qed.

(** ** The tickets of a game *)

Lemma wins_at_content (options : Options) (tracks : list Song) (from_end : Z)
    (card card' : BingoTicket) :
  content card = content card' ->
  wins_at options tracks from_end card -> wins_at options tracks from_end card'.
Proof.
  intros [= Hid Htracks] [Hwin Hcomposed]. split.
  - unfold get_when_ticket_wins, scan_ticket in *. by rewrite <- Htracks.
  - destruct Hcomposed as (Hlen & Hne & idxs & Hnd & Hpos & Hat & Hkey).
    unfold well_composed, drawn_from. rewrite <- Htracks, <- Hid. eauto 10.
Qed.

Lemma Forall_wins_at_content (options : Options) (tracks : list Song) (from_end : Z)
    (cards cards' : list BingoTicket) :
  content <$> cards' = content <$> cards ->
  Forall (wins_at options tracks from_end) cards ->
  Forall (wins_at options tracks from_end) cards'.
Proof.
  intros Heq Hall. apply Forall_lookup. intros i card' Hi.
  assert (Hc : (content <$> cards) !! i = Some (content card'))
    by (by rewrite <- Heq, list_lookup_fmap, Hi).
  rewrite list_lookup_fmap in Hc.
  destruct (cards !! i) as [card |] eqn:Hcard; [| done].
  change (Some (content card) = Some (content card')) in Hc.
  assert (Hsame : content card = content card') by congruence.
  rewrite Forall_lookup in Hall.
  eapply wins_at_content; [exact Hsame | by eapply Hall].
Qed.

Lemma Forall2_wins_at_content (options : Options) (tracks : list Song)
    (cards cards' : list BingoTicket) (points : list Z) :
  content <$> cards' = content <$> cards ->
  Forall2 (fun card from_end => wins_at options tracks from_end card) cards points ->
  Forall2 (fun card from_end => wins_at options tracks from_end card) cards' points.
Proof.
  intros Heq Hall. revert cards' Heq.
  induction Hall as [| card point cards points Hcard Hall IH]; intros cards' Heq.
  - apply fmap_nil_inv in Heq as ->. constructor.
  - destruct cards' as [| card' cards']; [done |].
    rewrite !fmap_cons in Heq.
    assert (Hsame : content card = content card') by congruence.
    assert (Hrest : content <$> cards' = content <$> cards) by congruence.
    constructor; [| by apply IH].
    eapply wins_at_content; [exact Hsame | exact Hcard].
Qed.

Lemma number_cards_content (cards : list BingoTicket) :
  content <$> number_cards cards = content <$> cards.
Proof.
  unfold number_cards. apply list_eq. intros i.
  rewrite !list_lookup_fmap, list_lookup_imap. by destruct (cards !! i).
Qed.

(** The tickets that a run of [generate_all_cards] returns, tier by tier. *)
Lemma generate_all_cards_returns_tiers (options : Options) (tracks : list Song)
    (g g' : GameGenerator) (cards : list BingoTicket) :
  MIN_CARDS <= number_of_cards options < 2 ^ 50 ->
  generate_all_cards options false tracks g = Done (cards, g') ->
  let t := tier_counts options in
  exists tier0 tier1 tier2 tier3 good,
    cards ≡ₚ tier0 ++ tier1 ++ tier2 ++ tier3 ++ good
    /\ length tier0 = Z.to_nat (num_on_last t)
    /\ length tier1 = Z.to_nat (num_second_last t)
    /\ length tier2 = Z.to_nat (num_third_last t)
    /\ length tier3 = Z.to_nat (num_fourth_last t)
    /\ Forall (wins_at options tracks 0) tier0
    /\ Forall (wins_at options tracks 1) tier1
    /\ Forall (wins_at options tracks 2) tier2
    /\ Forall (wins_at options tracks 3) tier3
    /\ Forall2 (fun card from_end => wins_at options tracks from_end card)
               good (seqZ (offset t) amount_to_go).
Proof.
  intros [Hmin Hmax] H t.
  pose proof (tier_counts_total options Hmin) as Htotal. fold t in Htotal.
  apply generate_all_cards_tiers in H
    as (laid_out & t0 & t1 & t2 & t3 & good & Hperm & Hl0 & Hl1 & Hl2 & Hl3
        & Hw0 & Hw1 & Hw2 & Hw3 & Hgood & _ & ->).
  fold t in Hl0, Hl1, Hl2, Hl3, Hgood.
  assert (Hlgood : length good = Z.to_nat amount_to_go).
  { apply Forall2_length in Hgood. rewrite Hgood, length_seqZ. done. }
  assert (Hlen : Z.of_nat (length (number_cards laid_out)) = number_of_cards options).
  { rewrite number_cards_length, Hperm, !length_app, Hl1, Hl2, Hl3, Hlgood.
    unfold amount_to_go in *. lia. }
  assert (Hcards : (if page_order options
                    then sort_cards_by_page options (number_cards laid_out)
                    else number_cards laid_out) ≡ₚ number_cards laid_out).
  { destruct (page_order options); [| done]. by apply sort_cards_by_page_Permutation. }
  assert (Hcontent : content <$> (t0 ++ t1 ++ t2 ++ t3 ++ good)
                     ≡ₚ content <$> number_cards laid_out).
  { rewrite number_cards_content. by rewrite Hperm. }
  apply Permutation_map_inv in Hcontent as (cards' & Heq & Hperm').
  change (map content cards') with (content <$> cards') in Heq. symmetry in Heq.
  rewrite !fmap_app in Heq.
  apply fmap_app_inv in Heq as (t0' & rest & H0 & Heq & ->).
  symmetry in Heq. apply fmap_app_inv in Heq as (t1' & rest' & H1 & Heq & ->).
  symmetry in Heq. apply fmap_app_inv in Heq as (t2' & rest'' & H2 & Heq & ->).
  symmetry in Heq. apply fmap_app_inv in Heq as (t3' & good' & H3 & H4 & ->).
  exists t0', t1', t2', t3', good'.
  split; [by rewrite Hcards, Hperm' |].
  split; [apply (f_equal length) in H0; rewrite !length_fmap in H0; lia |].
  split; [apply (f_equal length) in H1; rewrite !length_fmap in H1; lia |].
  split; [apply (f_equal length) in H2; rewrite !length_fmap in H2; lia |].
  split; [apply (f_equal length) in H3; rewrite !length_fmap in H3; lia |].
  split; [by eapply Forall_wins_at_content |].
  split; [by eapply Forall_wins_at_content |].
  split; [by eapply Forall_wins_at_content |].
  split; [by eapply Forall_wins_at_content |].
  by eapply Forall2_wins_at_content.
Qed.

Lemma wins_at_from_end (options : Options) (tracks : list Song) (from_end : Z)
    (card : BingoTicket) :
  wins_at options tracks from_end card -> from_end_of tracks card = Some from_end.
Proof. intros [Hwin _]. unfold from_end_of. rewrite Hwin. f_equal. lia. Qed.

Lemma tier_from_end (options : Options) (tracks : list Song) (from_end : Z)
    (cards : list BingoTicket) :
  Forall (wins_at options tracks from_end) cards ->
  from_end_of tracks <$> cards = Some <$> replicate (length cards) from_end.
Proof.
  induction 1 as [| card cards Hcard _ IH]; [done |].
  cbn. rewrite IH. f_equal. by eapply wins_at_from_end.
Qed.

Lemma good_from_end (options : Options) (tracks : list Song)
    (cards : list BingoTicket) (points : list Z) :
  Forall2 (fun card from_end => wins_at options tracks from_end card) cards points ->
  from_end_of tracks <$> cards = Some <$> points.
Proof.
  induction 1 as [| card point cards points Hcard _ IH]; [done |].
  cbn. rewrite IH. f_equal. by eapply wins_at_from_end.
Qed.

(** X16.  A game for 15 tickets or more (fewer than 2^50) that
    [generate_all_cards] returns has the win points the tier counts ask
    for: [num_on_last] tickets win on the last song of the play order,
    [num_second_last] one song before it, [num_third_last] two and
    [num_fourth_last] three songs before it, and one ticket each wins
    [offset], [offset + 1], [offset + 2] and [offset + 3] songs before the
    end. *)
Theorem generate_all_cards_win_profile (options : Options) (tracks : list Song)
    (g g' : GameGenerator) (cards : list BingoTicket) :
  MIN_CARDS <= number_of_cards options < 2 ^ 50 ->
  generate_all_cards options false tracks g = Done (cards, g') ->
  from_end_of tracks <$> cards ≡ₚ Some <$> tier_profile (tier_counts options).
Proof.
  intros Hrange H.
  apply generate_all_cards_returns_tiers in H
    as (t0 & t1 & t2 & t3 & good & -> & Hl0 & Hl1 & Hl2 & Hl3
        & Hw0 & Hw1 & Hw2 & Hw3 & Hgood); [| done].
  unfold tier_profile. rewrite !fmap_app.
  rewrite (tier_from_end _ _ _ _ Hw0), (tier_from_end _ _ _ _ Hw1),
    (tier_from_end _ _ _ _ Hw2), (tier_from_end _ _ _ _ Hw3),
    (good_from_end _ _ _ _ Hgood).
  by rewrite Hl0, Hl1, Hl2, Hl3.
Qed.

Lemma generate_all_cards_win_profile_witness :
  exists cards g',
    generate_all_cards example_options false example_songs example_generator
      = Done (cards, g')
    /\ from_end_of example_songs <$> cards
       ≡ₚ Some <$> tier_profile (tier_counts example_options).
Proof.
  destruct (generate_all_cards example_options false example_songs example_generator)
    as [[cards g'] | e |] eqn:Hrun.
  - exists cards, g'. split; [reflexivity |].
    assert (Hrange : MIN_CARDS <= number_of_cards example_options < 2 ^ 50)
      by (split; [discriminate | reflexivity]).
    exact (generate_all_cards_win_profile example_options example_songs
             example_generator g' cards Hrange Hrun).
  - exfalso. vm_compute in Hrun. discriminate.
  - exfalso. vm_compute in Hrun. discriminate.
Defined.

Lemma tier_wins_after (options : Options) (tracks : list Song) (from_end first : Z)
    (cards : list BingoTicket) :
  0 <= from_end < first ->
  Forall (wins_at options tracks from_end) cards ->
  Forall (fun card => exists p, get_when_ticket_wins tracks card = Done p
                                /\ Z.of_nat (length tracks) - first < p
                                   <= Z.of_nat (length tracks)) cards.
Proof.
  intros Hrange Hall. eapply Forall_impl; [exact Hall |]. intros card [Hwin _].
  exists (Z.of_nat (length tracks) - from_end). split; [done | lia].
Qed.

(** X17.  In a game for 15 tickets or more (fewer than 2^50) that
    [generate_all_cards] returns, nobody shares the first win: one ticket
    wins [offset + 3] songs before the end of the play order, which is 6 or
    7 songs before it, and every other ticket wins at a later song. *)
Theorem generate_all_cards_first_winner (options : Options) (tracks : list Song)
    (g g' : GameGenerator) (cards : list BingoTicket) :
  MIN_CARDS <= number_of_cards options < 2 ^ 50 ->
  generate_all_cards options false tracks g = Done (cards, g') ->
  let first := offset (tier_counts options) + 3 in
  (first = 6 \/ first = 7)
  /\ exists winner rest,
       cards ≡ₚ winner :: rest
       /\ get_when_ticket_wins tracks winner = Done (Z.of_nat (length tracks) - first)
       /\ Forall (fun card => exists p, get_when_ticket_wins tracks card = Done p
                                        /\ Z.of_nat (length tracks) - first < p
                                           <= Z.of_nat (length tracks)) rest.
Proof.
  intros Hrange H first.
  destruct (tier_counts_shape options (proj1 Hrange)) as (_ & _ & _ & _ & Hoffset & _).
  assert (Hfirst : first = 6 \/ first = 7) by (unfold first; lia).
  split; [done |].
  apply generate_all_cards_returns_tiers in H
    as (t0 & t1 & t2 & t3 & good & Hperm & _ & _ & _ & _
        & Hw0 & Hw1 & Hw2 & Hw3 & Hgood); [| done].
  change (seqZ (offset (tier_counts options)) amount_to_go)
    with [0 + offset (tier_counts options); 1 + offset (tier_counts options);
          2 + offset (tier_counts options); 3 + offset (tier_counts options)] in Hgood.
  destruct good as [| c0 [| c1 [| c2 [| c3 [| ? ?]]]]];
    try (by repeat (apply Forall2_cons_1 in Hgood as [_ Hgood] || inversion Hgood)).
  apply Forall2_cons_1 in Hgood as [H0 Hgood].
  apply Forall2_cons_1 in Hgood as [H1 Hgood].
  apply Forall2_cons_1 in Hgood as [H2 Hgood].
  apply Forall2_cons_1 in Hgood as [H3 _].
  exists c3, (t0 ++ t1 ++ t2 ++ t3 ++ [c0; c1; c2]).
  split; [| split].
  - rewrite Hperm.
    replace (t0 ++ t1 ++ t2 ++ t3 ++ [c0; c1; c2; c3])
      with ((t0 ++ t1 ++ t2 ++ t3 ++ [c0; c1; c2]) ++ [c3])
      by (by rewrite <- !app_assoc).
    symmetry. apply Permutation_cons_append.
  - destruct H3 as [-> _]. f_equal. unfold first. lia.
  - rewrite !Forall_app. repeat split.
    + by apply (tier_wins_after options tracks 0); [lia |].
    + by apply (tier_wins_after options tracks 1); [lia |].
    + by apply (tier_wins_after options tracks 2); [lia |].
    + by apply (tier_wins_after options tracks 3); [lia |].
    + repeat constructor.
      * destruct H0 as [-> _]. eexists. split; [done | unfold first; lia].
      * destruct H1 as [-> _]. eexists. split; [done | unfold first; lia].
      * destruct H2 as [-> _]. eexists. split; [done | unfold first; lia].
Qed.

Lemma generate_all_cards_first_winner_witness :
  exists cards g' winner rest,
    generate_all_cards example_options false example_songs example_generator
      = Done (cards, g')
    /\ cards ≡ₚ winner :: rest
    /\ get_when_ticket_wins example_songs winner = Done 6
    /\ Forall (fun card => exists p, get_when_ticket_wins example_songs card = Done p
                                     /\ 6 < p <= 12) rest.
Proof.
  destruct (generate_all_cards example_options false example_songs example_generator)
    as [[cards g'] | e |] eqn:Hrun.
  - assert (Hrange : MIN_CARDS <= number_of_cards example_options < 2 ^ 50)
      by (split; [discriminate | reflexivity]).
    destruct (generate_all_cards_first_winner example_options example_songs
                example_generator g' cards Hrange Hrun)
      as (_ & winner & rest & Hperm & Hwin & Hrest).
    exists cards, g', winner, rest. split; [reflexivity |].
    split; [exact Hperm |]. split; [exact Hwin | exact Hrest].
  - exfalso. vm_compute in Hrun. discriminate.
  - exfalso. vm_compute in Hrun. discriminate.
Defined.

(** X18.  Every ticket of a game that [generate_all_cards] returns holds
    [songs_per_ticket] songs, found at pairwise distinct positions of the
    play order, and its key is the product of their song ids; and no two
    tickets of the game hold the same songs, in whatever order. *)
Theorem generate_all_cards_tickets (options : Options) (tracks : list Song)
    (g g' : GameGenerator) (cards : list BingoTicket) :
  generate_all_cards options false tracks g = Done (cards, g') ->
  Forall (well_composed tracks (songs_per_ticket options)) cards
  /\ forall i j card card',
       cards !! i = Some card -> cards !! j = Some card' ->
       card_tracks card ≡ₚ card_tracks card' -> i = j.
Proof.
  intros H.
  assert (HT : 0 < number_of_cards options).
  { by apply generate_all_cards_Done in H as (? & _ & _ & HT & _). }
  apply generate_all_cards_tiers in H
    as (laid_out & t0 & t1 & t2 & t3 & good & Hperm & _ & _ & _ & _
        & Hw0 & Hw1 & Hw2 & Hw3 & Hgood & Hnd & ->).
  assert (Hlaid : Forall (well_composed tracks (songs_per_ticket options)) laid_out).
  { rewrite Hperm, !Forall_app. repeat split.
    - eapply Forall_impl; [exact Hw0 | by intros ? [_ ?]].
    - eapply Forall_impl; [exact Hw1 | by intros ? [_ ?]].
    - eapply Forall_impl; [exact Hw2 | by intros ? [_ ?]].
    - eapply Forall_impl; [exact Hw3 | by intros ? [_ ?]].
    - clear -Hgood. induction Hgood as [| ? ? ? ? [_ ?] _ IH]; by constructor. }
  assert (Hnum : Forall (well_composed tracks (songs_per_ticket options))
                        (number_cards laid_out)).
  { apply Forall_lookup. intros i card Hi.
    unfold number_cards in Hi. rewrite list_lookup_imap in Hi.
    destruct (laid_out !! i) as [card0 |] eqn:Hcard0; [| done].
    injection Hi as <-. rewrite Forall_lookup in Hlaid.
    exact (Hlaid i card0 Hcard0). }
  assert (Hsub : (if page_order options
                  then sort_cards_by_page options (number_cards laid_out)
                  else number_cards laid_out) ⊆+ number_cards laid_out).
  { destruct (page_order options); [| done].
    apply sort_cards_by_page_submseteq. lia. }
  set (cards := if page_order options
                then sort_cards_by_page options (number_cards laid_out)
                else number_cards laid_out) in *.
  destruct (submseteq_Permutation _ _ Hsub) as [rest Hrest].
  assert (Hall : Forall (well_composed tracks (songs_per_ticket options)) cards).
  { rewrite Hrest in Hnum. by apply Forall_app in Hnum as [? _]. }
  assert (Hkeys : NoDup (card_id <$> cards)).
  { assert (Hk : NoDup (card_id <$> number_cards laid_out))
      by (by rewrite number_cards_keys).
    rewrite Hrest, fmap_app in Hk. by apply NoDup_app in Hk as [? _]. }
  split; [done |].
  intros i j card card' Hi Hj Hsame.
  rewrite Forall_lookup in Hall.
  destruct (Hall i card Hi) as (_ & _ & idxs & _ & _ & _ & Hkey).
  destruct (Hall j card' Hj) as (_ & _ & idxs' & _ & _ & _ & Hkey').
  apply (NoDup_lookup _ i j (card_id card) Hkeys); rewrite list_lookup_fmap.
  - by rewrite Hi.
  - rewrite Hj. cbn. f_equal. rewrite Hkey, Hkey'. symmetry. by apply key_of_Permutation.
Qed.

Lemma generate_all_cards_tickets_witness :
  exists cards g',
    generate_all_cards example_options false example_songs example_generator
      = Done (cards, g')
    /\ Forall (well_composed example_songs 3) cards
    /\ forall i j card card',
         cards !! i = Some card -> cards !! j = Some card' ->
         card_tracks card ≡ₚ card_tracks card' -> i = j.
Proof.
  destruct (generate_all_cards example_options false example_songs example_generator)
    as [[cards g'] | e |] eqn:Hrun.
  - exists cards, g'. split; [reflexivity |].
    exact (generate_all_cards_tickets example_options example_songs
             example_generator g' cards Hrun).
  - exfalso. vm_compute in Hrun. discriminate.
  - exfalso. vm_compute in Hrun. discriminate.
Defined.

(** ** The pages of the tickets *)

Lemma label_pages_lookup (cpp count page : Z) (cards : list BingoTicket) (k : nat) :
  0 < cpp -> 1 <= count -> page = (count - 1) / cpp + 1 ->
  label_pages cpp count page cards !! k
  = (fun card => (card, (count - 1 + Z.of_nat k) / cpp + 1)) <$> cards !! k.
Proof.
  intros Hcpp. revert count page k.
  induction cards as [| card cards IH]; intros count page k Hcount Hpage; [done |].
  destruct k as [| k]; cbn [label_pages lookup list_lookup].
  - cbn. rewrite Z.add_0_r. by subst page.
  - rewrite IH; [| lia |].
    + replace (count + 1 - 1 + Z.of_nat k) with (count - 1 + Z.of_nat (S k)) by lia.
      done.
    + subst page. replace (count + 1 - 1) with count by lia.
      destruct (Z.eqb_spec (count mod cpp) 0) as [Hz | Hnz]; cbn [negb].
      * Z.div_mod_to_equations. nia.
      * Z.div_mod_to_equations. nia.
Qed.

Lemma cards_per_page_range (rows : Z) : 2 <= cards_per_page rows <= 4.
Proof.
  unfold cards_per_page. destruct (rows =? 2); [lia |]. destruct (rows >? 3); lia.
Qed.

Lemma ticket_pages_lookup (rows : Z) (cards : list BingoTicket) (k : nat) :
  ticket_pages rows cards !! k
  = (fun card => (card, Z.of_nat k / cards_per_page rows + 1)) <$> cards !! k.
Proof.
  pose proof (cards_per_page_range rows) as Hcpp. unfold ticket_pages.
  rewrite (label_pages_lookup _ 1 1 cards k); [| lia | lia |].
  - by replace (1 - 1 + Z.of_nat k) with (Z.of_nat k) by lia.
  - rewrite Z.sub_diag, Z.div_0_l by lia. done.
Qed.

(** X19.  [generate_tickets_pdf] fills the pages in the order of the list
    it is given: with [cards_per_page] tickets to the page (4 for tickets
    of 2 rows, 2 for more than 3 rows, 3 otherwise), the ticket at
    position [k] of the list, counted from 0, is labelled with page
    [k / cards_per_page + 1]. *)
Theorem ticket_pages_by_position (rows : Z) (cards : list BingoTicket) (k : nat) :
  2 <= cards_per_page rows <= 4
  /\ ticket_pages rows cards !! k
     = (fun card => (card, Z.of_nat k / cards_per_page rows + 1)) <$> cards !! k.
Proof. split; [apply cards_per_page_range | apply ticket_pages_lookup]. Qed.

Lemma number_cards_lookup (cards : list BingoTicket) (k : nat) :
  ticket_number <$> number_cards cards !! k
  = (fun _ => Some (Z.of_nat k + 1)) <$> cards !! k.
Proof.
  unfold number_cards. rewrite list_lookup_imap. by destruct (cards !! k).
Qed.

(** The ticket that [sort_cards_by_page] leaves at position [k], if it is
    the ticket that was numbered [j + 1], is labelled with that number and
    with page [k / 3 + 1]. *)
Lemma page_label_of (options : Options) (rows : Z) (laid_out : list BingoTicket)
    (k j : nat) :
  cards_per_page rows = 3 ->
  (j < length laid_out)%nat ->
  sort_cards_by_page options (number_cards laid_out) !! k = number_cards laid_out !! j ->
  ((fun label : BingoTicket * Z => (ticket_number label.1, label.2))
   <$> ticket_pages rows (sort_cards_by_page options (number_cards laid_out))) !! k
  = Some (Some (Z.of_nat j + 1), Z.of_nat k / 3 + 1).
Proof.
  intros Hcpp Hj Hk. rewrite list_lookup_fmap, ticket_pages_lookup, Hk, Hcpp.
  pose proof (number_cards_lookup laid_out j) as Hn.
  destruct (lookup_lt_is_Some_2 laid_out j Hj) as [card0 Hcard0].
  rewrite Hcard0 in Hn.
  destruct (number_cards laid_out !! j) as [card |]; [| done].
  cbn in Hn. injection Hn as Hn. cbn. by rewrite Hn.
Qed.

(** The round after the second band has run out: the first band has one
    ticket left, and the third band may have one. *)
Lemma interleave_lookup_rest {A : Type} (first_third second_third third_third : list A)
    (i : nat) :
  length second_third = i ->
  length first_third = S i ->
  (i <= length third_third)%nat ->
  interleave first_third second_third third_third !! (3 * i)%nat = first_third !! i
  /\ interleave first_third second_third third_third !! (3 * i + 1)%nat
     = third_third !! i.
Proof.
  revert first_third second_third third_third.
  induction i as [| i IH]; intros [| c1 band1] [| c2 band2] band3 H2 H1 H3;
    simpl in H1, H2; try lia.
  - destruct band1; [| simpl in H1; lia]. by destruct band3.
  - destruct band3 as [| c3 band3]; [simpl in H3; lia |]. simpl in H3.
    replace (3 * S i)%nat with (S (S (S (3 * i)))) by lia.
    cbn [interleave Nat.add lookup list_lookup].
    apply IH; lia.
Qed.

(** Where the numbered tickets stand after [sort_cards_by_page], page by
    page of three: the ticket numbers [n] at every position [k]. *)
Lemma page_order_position (options : Options) (rows : Z)
    (laid_out : list BingoTicket) (k : nat) :
  cards_per_page rows = 3 ->
  Z.of_nat (length laid_out) = number_of_cards options ->
  number_of_cards options < 2 ^ 50 ->
  Z.of_nat k < number_of_cards options ->
  let T := number_of_cards options in
  let i := Z.of_nat k / 3 in
  let j := Z.of_nat k mod 3 in
  exists n,
    ((fun label : BingoTicket * Z => (ticket_number label.1, label.2))
     <$> ticket_pages rows (sort_cards_by_page options (number_cards laid_out))) !! k
    = Some (Some n, i + 1)
    /\ ((j = 0 /\ n = i + 1)
        \/ (j = 1 /\ i < T / 3 /\ n = (T + 2) / 3 + i + 1)
        \/ (j = 2 /\ i < T / 3 /\ n = (T + 2) / 3 + T / 3 + i + 1)
        \/ (j = 1 /\ i = T / 3 /\ n = (T + 2) / 3 + T / 3 + i + 1)).
Proof.
  intros Hcpp Hlen Hmax Hk T. cbv zeta.
  assert (Hlen' : Z.of_nat (length (number_cards laid_out)) = number_of_cards options)
    by (by rewrite number_cards_length).
  pose proof (sort_cards_by_page_bands options (number_cards laid_out) Hlen' Hmax) as Hbands.
  cbv zeta in Hbands.
  destruct (third_ceil_floor (number_of_cards options)) as [Hc Hf].
  rewrite Hc, Hf in Hbands. fold T in Hbands, Hk, Hlen, Hlen'.
  set (c := Z.to_nat ((T + 2) / 3)) in *. set (f := Z.to_nat (T / 3)) in *.
  assert (Hcz : Z.of_nat c = (T + 2) / 3) by (subst c; Z.div_mod_to_equations; lia).
  assert (Hfz : Z.of_nat f = T / 3) by (subst f; Z.div_mod_to_equations; lia).
  clearbody c f.
  assert (HT : T = Z.of_nat (length laid_out)) by done.
  assert (Hnl : length (number_cards laid_out) = length laid_out)
    by apply number_cards_length.
  set (i' := (k / 3)%nat). set (j' := (k mod 3)%nat).
  assert (Hkk : k = (3 * i' + j')%nat) by (subst i' j'; apply Nat.div_mod_eq).
  assert (Hj' : (j' < 3)%nat) by (subst j'; apply Nat.mod_upper_bound; lia).
  assert (Hi : Z.of_nat k / 3 = Z.of_nat i').
  { subst i'. by rewrite Nat2Z.inj_div. }
  assert (Hj : Z.of_nat k mod 3 = Z.of_nat j').
  { subst j'. by rewrite Nat2Z.inj_mod. }
  rewrite Hi, Hj. clearbody i' j'. clear Hi Hj.
  assert (Hbound : (f <= c <= f + 1)%nat /\ (3 * f <= length laid_out <= 3 * f + 2)%nat
                   /\ (c + f + f <= length laid_out)%nat
                   /\ (length laid_out = 3 * f -> c = f)%nat
                   /\ (3 * f < length laid_out -> c = S f)%nat).
  { assert (Hz : (T / 3 <= (T + 2) / 3 <= T / 3 + 1) /\ 3 * (T / 3) <= T <= 3 * (T / 3) + 2
                 /\ (T + 2) / 3 + T / 3 + T / 3 <= T
                 /\ (T = 3 * (T / 3) -> (T + 2) / 3 = T / 3)
                 /\ (3 * (T / 3) < T -> (T + 2) / 3 = T / 3 + 1))
      by (Z.div_mod_to_equations; lia).
    rewrite <- Hcz, <- Hfz, HT in Hz. lia. }
  destruct Hbound as (Hfc & Hf3 & Hsum & Hc0 & Hc1).
  destruct (decide (i' < f)%nat) as [Hfull | Hlast].
  - destruct (interleave_lookup (take c (number_cards laid_out))
                (take f (drop c (number_cards laid_out)))
                (drop (c + f) (number_cards laid_out)) i') as (H1 & H2 & H3).
    { rewrite length_take. lia. }
    { rewrite length_take, length_drop. lia. }
    { rewrite length_drop. lia. }
    rewrite <- Hbands in H1, H2, H3.
    rewrite lookup_take_lt in H1 by lia.
    rewrite lookup_take_lt, lookup_drop in H2 by lia.
    rewrite lookup_drop in H3.
    destruct j' as [| [| [| ?]]]; [| | | lia].
    + exists (Z.of_nat i' + 1). split; [| left; lia].
      rewrite Hkk, Nat.add_0_r.
      rewrite (page_label_of options rows laid_out _ i' Hcpp) by (lia || done).
      do 2 f_equal. Z.div_mod_to_equations. lia.
    + exists ((T + 2) / 3 + Z.of_nat i' + 1). split; [| right; left; lia].
      rewrite Hkk.
      rewrite (page_label_of options rows laid_out _ (c + i')%nat Hcpp) by (lia || done).
      f_equal. f_equal; [f_equal; lia | Z.div_mod_to_equations; lia].
    + exists ((T + 2) / 3 + T / 3 + Z.of_nat i' + 1).
      split; [| right; right; left; lia].
      rewrite Hkk.
      rewrite (page_label_of options rows laid_out _ (c + f + i')%nat Hcpp)
        by (lia || done).
      f_equal. f_equal; [f_equal; lia | Z.div_mod_to_equations; lia].
  - assert (Hif : i' = f) by lia. subst i'.
    assert (Hcf : c = S f) by (apply Hc1; lia).
    destruct (interleave_lookup_rest (take c (number_cards laid_out))
                (take f (drop c (number_cards laid_out)))
                (drop (c + f) (number_cards laid_out)) f) as (H1 & H3).
    { rewrite length_take, length_drop. lia. }
    { rewrite length_take. lia. }
    { rewrite length_drop. lia. }
    rewrite <- Hbands in H1, H3.
    rewrite lookup_take_lt in H1 by lia.
    rewrite lookup_drop in H3.
    destruct j' as [| [| ?]]; [| | lia].
    + exists (Z.of_nat f + 1). split; [| left; lia].
      rewrite Hkk, Nat.add_0_r.
      rewrite (page_label_of options rows laid_out _ f Hcpp) by (lia || done).
      do 2 f_equal. Z.div_mod_to_equations. lia.
    + exists ((T + 2) / 3 + T / 3 + Z.of_nat f + 1).
      split; [| right; right; right; lia].
      rewrite Hkk.
      rewrite (page_label_of options rows laid_out _ (c + f + f)%nat Hcpp)
        by (lia || done).
      f_equal. f_equal; [f_equal; lia | Z.div_mod_to_equations; lia].
Qed.

(** X20.  Page order, with the tickets 3 to the page: applied to the
    [number_of_cards] numbered tickets (fewer than 2^50),
    [sort_cards_by_page] puts, for every [i] below [floor(T / 3)], the
    tickets numbered [i + 1], [ceil(T / 3) + i + 1] and
    [ceil(T / 3) + floor(T / 3) + i + 1] on page [i + 1] of
    [generate_tickets_pdf], in this order.  From 6 tickets on, no page
    carries two consecutive ticket numbers: the numbers of two tickets
    that [generate_tickets_pdf] labels with the same page differ by 2 at
    least.  (With 3, 4 or 5 tickets they need not, see
    [page_order_few_tickets].) *)
Theorem page_order_spreads_numbers (options : Options) (rows : Z)
    (laid_out : list BingoTicket) :
  cards_per_page rows = 3 ->
  Z.of_nat (length laid_out) = number_of_cards options ->
  number_of_cards options < 2 ^ 50 ->
  let T := number_of_cards options in
  let labels :=
    (fun label : BingoTicket * Z => (ticket_number label.1, label.2))
    <$> ticket_pages rows (sort_cards_by_page options (number_cards laid_out)) in
  (forall i : nat,
     Z.of_nat i < T / 3 ->
     labels !! (3 * i)%nat = Some (Some (Z.of_nat i + 1), Z.of_nat i + 1)
     /\ labels !! (3 * i + 1)%nat
        = Some (Some ((T + 2) / 3 + Z.of_nat i + 1), Z.of_nat i + 1)
     /\ labels !! (3 * i + 2)%nat
        = Some (Some ((T + 2) / 3 + T / 3 + Z.of_nat i + 1), Z.of_nat i + 1))
  /\ (6 <= T ->
      forall (k k' : nat) (n n' page : Z),
        k <> k' ->
        labels !! k = Some (Some n, page) ->
        labels !! k' = Some (Some n', page) ->
        2 <= Z.abs (n - n')).
Proof.
  intros Hcpp Hlen Hmax T labels.
  assert (Hat : forall k : nat,
             Z.of_nat k < T ->
             exists n,
               labels !! k = Some (Some n, Z.of_nat k / 3 + 1)
               /\ ((Z.of_nat k mod 3 = 0 /\ n = Z.of_nat k / 3 + 1)
                   \/ (Z.of_nat k mod 3 = 1 /\ Z.of_nat k / 3 < T / 3
                       /\ n = (T + 2) / 3 + Z.of_nat k / 3 + 1)
                   \/ (Z.of_nat k mod 3 = 2 /\ Z.of_nat k / 3 < T / 3
                       /\ n = (T + 2) / 3 + T / 3 + Z.of_nat k / 3 + 1)
                   \/ (Z.of_nat k mod 3 = 1 /\ Z.of_nat k / 3 = T / 3
                       /\ n = (T + 2) / 3 + T / 3 + Z.of_nat k / 3 + 1))).
  { intros k Hk. exact (page_order_position options rows laid_out k Hcpp Hlen Hmax Hk). }
  assert (Hin : forall (k : nat) label, labels !! k = Some label -> Z.of_nat k < T).
  { intros k label Hk. unfold labels in Hk.
    rewrite list_lookup_fmap, ticket_pages_lookup in Hk.
    destruct (sort_cards_by_page options (number_cards laid_out) !! k)
      as [card |] eqn:Hcard; [| done].
    apply lookup_lt_Some in Hcard.
    rewrite sort_cards_by_page_Permutation, number_cards_length in Hcard;
      [unfold T; lia | by rewrite number_cards_length | done]. }
  split.
  - intros i Hi.
    assert (H0 : Z.of_nat (3 * i) / 3 = Z.of_nat i /\ Z.of_nat (3 * i) mod 3 = 0)
      by (Z.div_mod_to_equations; lia).
    assert (H1 : Z.of_nat (3 * i + 1) / 3 = Z.of_nat i /\ Z.of_nat (3 * i + 1) mod 3 = 1)
      by (Z.div_mod_to_equations; lia).
    assert (H2 : Z.of_nat (3 * i + 2) / 3 = Z.of_nat i /\ Z.of_nat (3 * i + 2) mod 3 = 2)
      by (Z.div_mod_to_equations; lia).
    assert (HT : 3 * (T / 3) <= T) by (Z.div_mod_to_equations; lia).
    destruct (Hat (3 * i)%nat) as (n0 & -> & Hn0); [lia |].
    destruct (Hat (3 * i + 1)%nat) as (n1 & -> & Hn1); [lia |].
    destruct (Hat (3 * i + 2)%nat) as (n2 & -> & Hn2); [lia |].
    assert (n0 = Z.of_nat i + 1) as -> by lia.
    assert (n1 = (T + 2) / 3 + Z.of_nat i + 1) as -> by lia.
    assert (n2 = (T + 2) / 3 + T / 3 + Z.of_nat i + 1) as -> by lia.
    by rewrite (proj1 H0), (proj1 H1), (proj1 H2).
  - intros HT6 k k' n n' page Hne Hk Hk'.
    destruct (Hat k (Hin k _ Hk)) as (m & Hm & Hcases).
    destruct (Hat k' (Hin k' _ Hk')) as (m' & Hm' & Hcases').
    rewrite Hm in Hk. rewrite Hm' in Hk'.
    injection Hk as -> Hpage. injection Hk' as -> Hpage'.
    assert (Hsame : Z.of_nat k / 3 = Z.of_nat k' / 3) by lia.
    assert (Hmod : Z.of_nat k mod 3 <> Z.of_nat k' mod 3)
      by (Z.div_mod_to_equations; lia).
    assert (Hbig : 2 <= T / 3 /\ 2 <= (T + 2) / 3 /\ 0 <= Z.of_nat k / 3)
      by (Z.div_mod_to_equations; lia).
    lia.
Qed.

Lemma page_order_spreads_numbers_witness :
  let laid_out :=
    replicate 15 {| card_id := 1; card_tracks := []; ticket_number := None |} in
  let labels :=
    (fun label : BingoTicket * Z => (ticket_number label.1, label.2))
    <$> ticket_pages 3 (sort_cards_by_page example_options (number_cards laid_out)) in
  (labels !! 6%nat = Some (Some 3, 3)
   /\ labels !! 7%nat = Some (Some 8, 3)
   /\ labels !! 8%nat = Some (Some 13, 3))
  /\ (forall (k k' : nat) (n n' page : Z),
        k <> k' ->
        labels !! k = Some (Some n, page) ->
        labels !! k' = Some (Some n', page) ->
        2 <= Z.abs (n - n')).
Proof.
  intros laid_out.
  destruct (page_order_spreads_numbers example_options 3 laid_out)
    as [Hpages Hspread]; [reflexivity | reflexivity | reflexivity |].
  split.
  - apply (Hpages 2%nat). reflexivity.
  - apply Hspread. discriminate.
Defined.

(** The bound of 6 tickets is needed: of 3 tickets all are on page 1, and
    of 4 or 5 tickets page 1 carries the numbers 3 and 4. *)
Lemma page_order_few_tickets :
  let game T := {| mode := BINGO; game_id := "1"; number_of_cards := T;
                   songs_per_ticket := 3; page_order := true |} in
  let blank := {| card_id := 1; card_tracks := []; ticket_number := None |} in
  let labels T :=
    (fun label : BingoTicket * Z => (ticket_number label.1, label.2))
    <$> ticket_pages 3 (sort_cards_by_page (game T)
                          (number_cards (replicate (Z.to_nat T) blank))) in
  labels 3 = [(Some 1, 1); (Some 2, 1); (Some 3, 1)]
  /\ labels 4 = [(Some 1, 1); (Some 3, 1); (Some 4, 1); (Some 2, 2)]
  /\ labels 5 = [(Some 1, 1); (Some 3, 1); (Some 4, 1); (Some 2, 2); (Some 5, 2)].
Proof. repeat split; vm_compute; reflexivity. Qed.
